(** * yt-vd: a shallow embedding of [index.js]

    The development follows the layout of the source file: the quality
    catalog ([CONFIG]), the formatter utilities ([formatBytes],
    [createProgressBar]), the standard-output handler of [downloadVideo]
    (the line classifier), its [close] handler, and the quality selection
    of [main]; then the other utilities ([formatTime], the menu of
    [displayQualityOptions], the fields shown by [getVideoInfo]), the
    arguments of the child process, the standard-error handler, and the
    rest of [main].

    Conventions of the embedding.
    - A JavaScript string is a [string] whose characters are its code
      units, taken below [U+0100]; the white space of the regular
      expression class [\s], of [String.prototype.trim] and of the
      number parsers is all of it that lies there (tab, line feed,
      vertical tab, form feed, carriage return, space and the no-break
      space [U+00A0]).
    - A JavaScript Number is a [number]: a binary64 value, with the
      rounding of every arithmetic operation written out ([round64]).
      The sign of zero is not tracked.
    - [Math.log] is the function of the engine that Node.js runs on:
      the algorithm of fdlibm, operation by operation.
    - A chunk of the standard output is the [string] that
      [data.toString()] returns for it.
    - A statement that can raise returns an [option]; [None] is the
      [RangeError] of [String.prototype.repeat].
    - A field that can be missing is an [option]; [None] is
      [undefined] or [null]. *)

From Stdlib Require Import ZArith QArith Qround Qpower Qreduction Qcanon.
From Stdlib Require Import Lqa Lia Bool List Ascii String Sorted.
Import ListNotations.

Open Scope string_scope.
Open Scope Z_scope.

(** ** JavaScript numbers *)

Module JsNumber.

Inductive number : Type :=
| NaN
| PosInf
| NegInf
| Fin (q : Q).

(** [floor (log2 (a / b))] for positive [a] and [b]. *)
Definition ilog2 (a b : Z) : Z :=
  let d := Z.log2 a - Z.log2 b in
  if b * 2 ^ (Z.max 0 d) <=? a * 2 ^ (Z.max 0 (- d)) then d else d - 1.

(** Nearest integer to [n / d], ties to even ([0 <= n], [0 < d]). *)
Definition rne (n d : Z) : Z :=
  let q := n / d in
  match 2 * (n mod d) ?= d with
  | Lt => q
  | Gt => q + 1
  | Eq => if Z.even q then q else q + 1
  end.

(** The exponent of the unit in the last place of binary64 at [a / b]:
    53 significant bits, subnormals below [2 ^ -1022]. *)
Definition ulp_exp (a b : Z) : Z := Z.max (ilog2 a b - 52) (-1074).

(** The value [m * 2 ^ e] as a reduced fraction. *)
Definition scale2 (m e : Z) : Q :=
  if 0 <=? e then inject_Z (m * 2 ^ e)
  else Qred (Qmake m (Z.to_pos (2 ^ (- e)))).

(** The significand of the rounded value: [a / b] in units of the last
    place, to the nearest integer. *)
Definition mantissa (a b : Z) : Z :=
  let e := ulp_exp a b in
  if 0 <=? e then rne a (b * 2 ^ e) else rne (a * 2 ^ (- e)) b.

(** Round to nearest, ties to even, of the positive rational [a / b];
    [None] from [2 ^ 1024] on. *)
Definition round64_pos (a b : Z) : option Q :=
  let e := ulp_exp a b in
  let m := mantissa a b in
  if (971 <? e) || ((e =? 971) && (2 ^ 53 <=? m)) then None
  else Some (scale2 m e).

(** The binary64 value nearest to the rational [q]. *)
Definition round64 (q : Q) : number :=
  match Qnum q with
  | Z0 => Fin 0
  | Zpos a =>
      match round64_pos (Zpos a) (Zpos (Qden q)) with
      | Some r => Fin r
      | None => PosInf
      end
  | Zneg a =>
      match round64_pos (Zpos a) (Zpos (Qden q)) with
      | Some r => Fin (Qopp r)
      | None => NegInf
      end
  end.

Definition of_Z (z : Z) : number := round64 (inject_Z z).

Definition is_zero (q : Q) : bool := Qnum q =? 0.
Definition is_neg (q : Q) : bool := Qnum q <? 0.

Definition inf_of_sign (negative : bool) : number :=
  if negative then NegInf else PosInf.

(** [a * b] *)
Definition fmul (a b : number) : number :=
  match a, b with
  | NaN, _ | _, NaN => NaN
  | Fin x, Fin y => round64 (Qred (x * y))
  | Fin x, PosInf | PosInf, Fin x =>
      if is_zero x then NaN else inf_of_sign (is_neg x)
  | Fin x, NegInf | NegInf, Fin x =>
      if is_zero x then NaN else inf_of_sign (negb (is_neg x))
  | PosInf, PosInf | NegInf, NegInf => PosInf
  | PosInf, NegInf | NegInf, PosInf => NegInf
  end.

(** [a / b]; a zero divisor is read as [+0]. *)
Definition fdiv (a b : number) : number :=
  match a, b with
  | NaN, _ | _, NaN => NaN
  | Fin x, Fin y =>
      if is_zero y then
        (if is_zero x then NaN else inf_of_sign (is_neg x))
      else round64 (Qred (x / y))
  | Fin _, PosInf | Fin _, NegInf => Fin 0
  | PosInf, Fin y => inf_of_sign (is_neg y)
  | NegInf, Fin y => inf_of_sign (negb (is_neg y))
  | _, _ => NaN
  end.

(** [a - b] *)
Definition fsub (a b : number) : number :=
  match a, b with
  | NaN, _ | _, NaN => NaN
  | Fin x, Fin y => round64 (Qred (x - y))
  | PosInf, PosInf | NegInf, NegInf => NaN
  | PosInf, _ | _, NegInf => PosInf
  | NegInf, _ | _, PosInf => NegInf
  end.

(** [Math.floor] *)
Definition Math_floor (x : number) : number :=
  match x with
  | Fin q => Fin (inject_Z (Qfloor q))
  | _ => x
  end.

(** [Math.round]: nearest integer, ties toward [+Infinity]. *)
Definition Math_round (x : number) : number :=
  match x with
  | Fin q => Fin (inject_Z (Qfloor (q + (1 # 2))))
  | _ => x
  end.

(** Strict equality [===] of two numbers. *)
Definition strict_eq (a b : number) : bool :=
  match a, b with
  | Fin x, Fin y => Qeq_bool x y
  | PosInf, PosInf | NegInf, NegInf => true
  | _, _ => false
  end.

(** [a <= b] on numbers that are not [NaN] (used in statements only). *)
Definition le (a b : number) : Prop :=
  match a, b with
  | Fin x, Fin y => (x <= y)%Q
  | NegInf, (Fin _ | PosInf | NegInf) => True
  | (Fin _ | PosInf), PosInf => True
  | _, _ => False
  end.

(** [ToIntegerOrInfinity] followed by the range check of
    [String.prototype.repeat]: [None] is the [RangeError] raised for a
    negative or infinite count. *)
Definition repeat_count (x : number) : option nat :=
  match x with
  | NaN => Some 0%nat
  | PosInf | NegInf => None
  | Fin q =>
      let n := if is_neg q then - Qfloor (- q) else Qfloor q in
      if n <? 0 then None else Some (Z.to_nat n)
  end.

(** Negation. *)
Definition neg (x : number) : number :=
  match x with
  | NaN => NaN
  | PosInf => NegInf
  | NegInf => PosInf
  | Fin q => Fin (- q)
  end.

(** A positive binary64 value: 53 bits scaled by a power of two. *)
Definition representable (R : Q) : Prop :=
  exists N E : Z,
    (0 < N < 2 ^ 53)%Z /\ (-1074 <= E <= 971)%Z
    /\ (R == inject_Z N * 2 ^ E)%Q.

End JsNumber.

Import JsNumber.

(** ** Strings *)

Fixpoint repeat_string (s : string) (n : nat) : string :=
  match n with
  | O => ""
  | S n' => s ++ repeat_string s n'
  end.

(** ** Formatter utilities *)

(** [createProgressBar(percentage, width = 40)], lines 68-72.  The two
    [repeat] calls raise before any string is built, so their counts are
    checked first.  The limit that an implementation puts on the length
    of a string is not modelled: with the width of 40 that the program
    uses, a first count above it makes the second one negative. *)
Definition bar_counts (percentage width : number) : number * number :=
  let filled := Math_round (fmul (fdiv percentage (of_Z 100)) width) in
  let empty := fsub width filled in
  (filled, empty).

Definition createProgressBar (percentage width : number) : option string :=
  let (filled, empty) := bar_counts percentage width in
  match repeat_count filled with
  | None => None
  | Some f =>
      match repeat_count empty with
      | None => None
      | Some e => Some ("[" ++ repeat_string "█" f ++ repeat_string "░" e ++ "]")
      end
  end.

Definition default_width : number := of_Z 40.

(** ** Number to string conversions *)

Module JsText.

Definition digit_char (d : Z) : ascii := ascii_of_nat (48 + Z.to_nat d).

Fixpoint digits_fuel (fuel : nat) (z : Z) (acc : string) : string :=
  match fuel with
  | O => acc
  | S fuel' =>
      let acc' := String (digit_char (z mod 10)) acc in
      if z <? 10 then acc' else digits_fuel fuel' (z / 10) acc'
  end.

(** Decimal digits of a natural number. *)
Definition digits (z : Z) : string :=
  digits_fuel (S (Z.to_nat (Z.log2 z))) z "".

Definition zeros (n : nat) : string := repeat_string "0" n.

Definition pow10 (e : Z) : Q :=
  if 0 <=? e then inject_Z (10 ^ e) else Qmake 1 (Z.to_pos (10 ^ (- e))).

Fixpoint dec_exp_fuel (fuel : nat) (x : Q) (n : Z) : Z :=
  match fuel with
  | O => n
  | S fuel' => if Qle_bool (pow10 n) x then dec_exp_fuel fuel' x (n + 1) else n
  end.

(** The [n] with [10 ^ (n - 1) <= x < 10 ^ n], for [0 < x]. *)
Definition dec_exp (x : Q) : Z :=
  let d := Z.log2 (Qnum x) - Z.log2 (Zpos (Qden x)) in
  let start := (if d <? 0 then (4 * (d - 1)) / 10 else (3 * (d - 1)) / 10) - 1 in
  dec_exp_fuel (Z.to_nat (Z.abs d) + 8) x start.

Definition Qabs_diff (a b : Q) : Q :=
  if Qle_bool a b then (b - a)%Q else (a - b)%Q.

(** The candidates with [k] significant digits around [x]: the decimal
    [s * 10 ^ (n - k)] is kept when it reads back as the same binary64
    value.  The result is the coefficient [s]. *)
Definition shortest_at (x : Q) (n : Z) (k : Z) : option Z :=
  let unit := pow10 (n - k) in
  let lo := Qfloor (x / unit) in
  let ok s := (0 <? s) && strict_eq (round64 (Qred (inject_Z s * unit))) (Fin x) in
  let d s := Qabs_diff (inject_Z s * unit) x in
  match ok lo, ok (lo + 1) with
  | true, true =>
      match Qcompare (d lo) (d (lo + 1)) with
      | Lt => Some lo
      | Gt => Some (lo + 1)
      | Eq => Some (if Z.even lo then lo else lo + 1)
      end
  | true, false => Some lo
  | false, true => Some (lo + 1)
  | false, false => None
  end.

Fixpoint shortest_fuel (fuel : nat) (x : Q) (n : Z) (k : Z) : Z * Z :=
  match fuel with
  | O => (Qfloor (x / pow10 (n - k)), k)
  | S fuel' =>
      match shortest_at x n k with
      | Some s => (s, k)
      | None => shortest_fuel fuel' x n (k + 1)
      end
  end.

Fixpoint strip_zeros_fuel (fuel : nat) (s e : Z) : Z * Z :=
  match fuel with
  | O => (s, e)
  | S fuel' =>
      if (s mod 10 =? 0) && (0 <? s) then strip_zeros_fuel fuel' (s / 10) (e + 1)
      else (s, e)
  end.

(** [Number::toString] of a positive finite value: the fewest digits [s]
    and the exponent [n] with [s * 10 ^ (n - k)] reading back as [x]. *)
Definition to_string_pos (x : Q) : string :=
  let n0 := dec_exp x in
  let (s0, k0) := shortest_fuel 17 x n0 1 in
  let (s, e) := strip_zeros_fuel 400 s0 (n0 - k0) in
  let ds := digits s in
  let k := Z.of_nat (String.length ds) in
  let n := k + e in
  if (k <=? n) && (n <=? 21) then ds ++ zeros (Z.to_nat (n - k))
  else if (0 <? n) && (n <=? 21) then
    substring 0 (Z.to_nat n) ds ++ "." ++ substring (Z.to_nat n) (Z.to_nat (k - n)) ds
  else if (-6 <? n) && (n <=? 0) then "0." ++ zeros (Z.to_nat (- n)) ++ ds
  else
    let ex := n - 1 in
    let sign := if ex <? 0 then "-" else "+" in
    let mant := if k =? 1 then ds
                else substring 0 1 ds ++ "." ++ substring 1 (Z.to_nat (k - 1)) ds in
    mant ++ "e" ++ sign ++ digits (Z.abs ex).

(** [Number::toString(x)], the conversion used by [+] with a string. *)
Definition to_string (x : number) : string :=
  match x with
  | NaN => "NaN"
  | PosInf => "Infinity"
  | NegInf => "-Infinity"
  | Fin q =>
      if is_zero q then "0"
      else if is_neg q then "-" ++ to_string_pos (Qopp q)
      else to_string_pos q
  end.

(** The digits of [n / 10 ^ f] with [f] decimals. *)
Definition fixed_text (n : Z) (f : nat) : string :=
  let ds := digits n in
  let ds := zeros (S f - String.length ds) ++ ds in
  let k := String.length ds in
  substring 0 (k - f) ds
  ++ (if Nat.eqb f 0 then "" else "." ++ substring (k - f) f ds).

(** [Number.prototype.toFixed(f)]: the integer [n] with [n / 10 ^ f]
    nearest to the exact value of [x], the larger one on a tie; values
    from [10 ^ 21] on are printed by [to_string]. *)
Definition toFixed (x : number) (f : nat) : string :=
  match x with
  | Fin q =>
      let a := if is_neg q then Qopp q else q in
      if Qle_bool (pow10 21) a then to_string x
      else
        let n := Qfloor (a * inject_Z (10 ^ Z.of_nat f) + (1 # 2)) in
        (if is_neg q then "-" else "") ++ fixed_text n f
  | _ => to_string x
  end.

Definition is_digit (c : ascii) : bool :=
  let n := nat_of_ascii c in (48 <=? n)%nat && (n <=? 57)%nat.

Definition digit_val (c : ascii) : Z := Z.of_nat (nat_of_ascii c) - 48.

(** Reads a maximal run of digits: its value, its length, and the rest. *)
Fixpoint read_digits (s : string) (acc : Z) (len : nat) : Z * nat * string :=
  match s with
  | String c s' =>
      if is_digit c then read_digits s' (acc * 10 + digit_val c) (S len)
      else (acc, len, s)
  | EmptyString => (acc, len, s)
  end.

(** White space: tab, line feed, vertical tab, form feed, carriage
    return, space and the no-break space [U+00A0]. *)
Definition is_space (c : ascii) : bool :=
  let n := nat_of_ascii c in
  ((9 <=? n)%nat && (n <=? 13)%nat) || (n =? 32)%nat || (n =? 160)%nat.

Fixpoint skip_spaces (s : string) : string :=
  match s with
  | String c s' => if is_space c then skip_spaces s' else s
  | EmptyString => s
  end.

Definition has_prefix (p s : string) : bool := String.prefix p s.

(** The exponent part of a decimal literal: [e] or [E], a sign, digits.
    Without digits there is no exponent part. *)
Definition read_exponent (s : string) : Z :=
  match s with
  | String c s' =>
      if (Ascii.eqb c "e" || Ascii.eqb c "E")%bool then
        let (negative, body) :=
          match s' with
          | String "-" t => (true, t)
          | String "+" t => (false, t)
          | _ => (false, s')
          end in
        let '(ev, elen, _) := read_digits body 0 0 in
        match elen with
        | O => 0
        | _ => if negative then - ev else ev
        end
      else 0
  | EmptyString => 0
  end.

(** An optional sign: whether it is a minus, and the rest. *)
Definition read_sign (s : string) : bool * string :=
  match s with
  | String c s' =>
      if Ascii.eqb c "-" then (true, s')
      else if Ascii.eqb c "+" then (false, s')
      else (false, s)
  | EmptyString => (false, s)
  end.

(** The fraction of a decimal literal: a point and digits.  After no
    integer digits ([ilen = 0]) a point needs a digit. *)
Definition read_fraction (ilen : nat) (s : string) : Z * nat * string :=
  match s with
  | String c s' =>
      if Ascii.eqb c "." then
        let '(fp, flen, rest) := read_digits s' 0 0 in
        match ilen, flen with
        | O, O => (0, O, s)
        | _, _ => (fp, flen, rest)
        end
      else (0, O, s)
  | EmptyString => (0, O, s)
  end.

(** [parseFloat]: leading white space is skipped, then the longest prefix
    that is a decimal literal is read and rounded to binary64; [NaN] when
    there is none. *)
Definition parseFloat (s : string) : number :=
  let (negative, body) := read_sign (skip_spaces s) in
  if has_prefix "Infinity" body then inf_of_sign negative
  else
    let '(ip, ilen, rest) := read_digits body 0 0 in
    let '(fp, flen, rest) := read_fraction ilen rest in
    match ilen, flen with
    | O, O => NaN
    | _, _ =>
        let ex := read_exponent rest in
        let v := Qred (Qmake (ip * 10 ^ Z.of_nat flen + fp)
                             (Z.to_pos (10 ^ Z.of_nat flen)) * pow10 ex) in
        round64 (if negative then Qopp v else v)
    end.

End JsText.

Import JsText.

(** ** [Math.log]

    The specification of the language leaves the result of [Math.log]
    to the implementation.  The program runs on Node.js, whose engine
    computes it by the algorithm of fdlibm ([ieee754::log] in V8, from
    [e_log.c]); the definitions below follow that algorithm, statement
    by statement, every operation rounded to binary64. *)

(** [a + b] *)
Definition fadd (a b : number) : number :=
  match a, b with
  | NaN, _ | _, NaN => NaN
  | Fin x, Fin y => round64 (Qred (x + y))
  | PosInf, NegInf | NegInf, PosInf => NaN
  | PosInf, _ | _, PosInf => PosInf
  | NegInf, _ | _, NegInf => NegInf
  end.

(** The constants of [e_log.c], each with its value as a significand
    and a power of two. *)
Definition ln2_hi : number := Fin (scale2 2977044471 (-32)).
Definition ln2_lo : number := Fin (scale2 3691024475790907 (-84)).
Definition Lg1 : number := Fin (scale2 6004799503160723 (-53)).
Definition Lg2 : number := Fin (scale2 1801439850921601 (-52)).
Definition Lg3 : number := Fin (scale2 5146971033736025 (-54)).
Definition Lg4 : number := Fin (scale2 8006390766270639 (-55)).
Definition Lg5 : number := Fin (scale2 3275661152453103 (-54)).
Definition Lg6 : number := Fin (scale2 5517391500461727 (-55)).
Definition Lg7 : number := Fin (scale2 1332903234475153 (-53)).

(** The literals [0.5], [2.0] and [0.33333333333333333]. *)
Definition half : number := Fin (1 # 2).
Definition two : number := Fin 2.
Definition third : number := Fin (scale2 6004799503160661 (-54)).

(** The body of [log] once the argument is reduced: [k] is the exponent
    of the result in units of [ln 2], [hx] the first twenty bits of the
    fraction of the argument, and [f] the reduced argument less one. *)
Definition log_reduced (k hx : Z) (f : number) : number :=
  let dk := of_Z k in
  if (hx <=? 0) || (1048574 <=? hx) then
    (* (0x000fffff & (2 + hx)) < 3: |f| < 2 ^ -20 *)
    if strict_eq f (Fin 0) then
      if k =? 0 then Fin 0
      else fadd (fmul dk ln2_hi) (fmul dk ln2_lo)
    else
      let R := fmul (fmul f f) (fsub half (fmul third f)) in
      if k =? 0 then fsub f R
      else fsub (fmul dk ln2_hi) (fsub (fsub R (fmul dk ln2_lo)) f)
  else
    let s := fdiv f (fadd two f) in
    let z := fmul s s in
    let w := fmul z z in
    let t1 := fmul w (fadd Lg2 (fmul w (fadd Lg4 (fmul w Lg6)))) in
    let t2 :=
      fmul z (fadd Lg1 (fmul w (fadd Lg3 (fmul w (fadd Lg5 (fmul w Lg7))))))
    in
    let R := fadd t2 t1 in
    if (398458 <=? hx) && (hx <=? 440401) then
      (* i = hx - 0x6147a, j = 0x6b851 - hx, (i | j) > 0 *)
      let hfsq := fmul (fmul half f) f in
      if k =? 0 then fsub f (fsub hfsq (fmul s (fadd hfsq R)))
      else
        fsub (fmul dk ln2_hi)
          (fsub (fsub hfsq (fadd (fmul s (fadd hfsq R)) (fmul dk ln2_lo))) f)
    else
      if k =? 0 then fsub f (fmul s (fsub f R))
      else
        fsub (fmul dk ln2_hi)
          (fsub (fsub (fmul s (fsub f R)) (fmul dk ln2_lo)) f).

(** The reduction of a positive argument [x]: with [e] its binary
    exponent and [m] in [1, 2) its significand, [hx] is the integer part
    of [(m - 1) * 2 ^ 20]; from [hx = 0x6a09c] on, that is when
    [(hx + 0x95f64) & 0x100000] is set, the significand is halved and the
    exponent raised by one.  A subnormal argument is first scaled by
    [2 ^ 54], exactly, and its exponent lowered by 54: the reduction is
    the same. *)
Definition log_positive (x : Q) : number :=
  let e := ilog2 (Qnum x) (Zpos (Qden x)) in
  let m := Qred (x / 2 ^ e) in
  let hx := Qfloor ((m - 1) * 2 ^ 20) in
  let i := if 434332 <=? hx then 1 else 0 in
  let k := e + i in
  let x' := if 434332 <=? hx then Qred (m / 2) else m in
  let f := fsub (Fin x') (Fin 1) in
  log_reduced k hx f.

(** [Math.log(x)] *)
Definition Math_log (x : number) : number :=
  match x with
  | NaN => NaN
  | PosInf => PosInf
  | NegInf => NaN
  | Fin q =>
      if is_zero q then NegInf
      else if is_neg q then NaN
      else log_positive q
  end.

(** [formatBytes(bytes, decimals = 2)], lines 46-53.

    [Math.log] is the function above; the quotient, [Math.floor],
    [Math.pow], the division, [toFixed], [parseFloat] and the final
    conversion to a string are the embedding's own.  [toFixed] is called
    with at most 100 digits. *)
Definition sizes : list string := ["Bytes"; "KB"; "MB"; "GB"; "TB"].

(** [Math.pow(k, i)] for an integer base above 1 and an exponent that
    [Math.floor] returned. *)
Definition Math_pow (k : Z) (i : number) : number :=
  match i with
  | NaN => NaN
  | PosInf => PosInf
  | NegInf => Fin 0
  | Fin q =>
      let z := Qfloor q in
      if 0 <=? z then of_Z (k ^ z)
      else round64 (Qmake 1 (Z.to_pos (k ^ (- z))))
  end.

(** [sizes[i]]: the element at an integer index within the array, and
    [undefined] (here [None]) at any other number. *)
Definition array_get (a : list string) (i : number) : option string :=
  match i with
  | Fin q =>
      if Qeq_bool q (inject_Z (Qfloor q)) && (0 <=? Qfloor q)
      then nth_error a (Z.to_nat (Qfloor q))
      else None
  | _ => None
  end.

(** String concatenation with a value that may be [undefined]. *)
Definition text_of (v : option string) : string :=
  match v with
  | Some s => s
  | None => "undefined"
  end.

(** [Math.floor(Math.log(bytes) / Math.log(k))] *)
Definition unit_index (bytes : number) : number :=
  Math_floor (fdiv (Math_log bytes) (Math_log (of_Z 1024))).

Definition formatBytes (bytes : number) (decimals : Z) : string :=
  if strict_eq bytes (of_Z 0) then "0 Bytes"
  else
    let k := 1024 in
    let dm := if decimals <? 0 then 0 else decimals in
    let i := unit_index bytes in
    to_string (parseFloat (toFixed (fdiv bytes (Math_pow k i)) (Z.to_nat dm)))
      ++ " " ++ text_of (array_get sizes i).

(** The exact value of [floor (log (n) / log (1024))] for [1 <= n]. *)
Definition log1024 (n : Z) : Z := Z.log2 n / 10.

(** The nearest number of hundredths to [n / d], the larger one on a
    tie. *)
Definition hundredths (n d : Z) : Z := (200 * n + d) / (2 * d).

(** ** Regular expressions of the output handler

    The patterns of the handler are sequences of literals, greedy
    repetitions of a character class, an optional character and one
    capture group; [match_here] is the backtracking matcher of such a
    sequence at one position, [regex_exec] tries the positions from the
    left, as [String.prototype.match] does. *)

Module Regex.

Inductive atom : Type :=
| Lit (s : string)
| Many (cls : ascii -> bool) (min : nat)
| Opt (c : ascii)
| Open
| Close.

Fixpoint strip_prefix (p s : string) : option string :=
  match p, s with
  | EmptyString, _ => Some s
  | String a p', String b s' => if Ascii.eqb a b then strip_prefix p' s' else None
  | String _ _, EmptyString => None
  end.

(** [g] holds the input at the opening and at the closing of the group. *)
Fixpoint match_here (p : list atom) (s : string) (g : string * string)
  : option (string * string) :=
  match p with
  | [] => Some g
  | Lit l :: p' =>
      match strip_prefix l s with
      | Some s' => match_here p' s' g
      | None => None
      end
  | Opt c :: p' =>
      match s with
      | String c' s' =>
          if Ascii.eqb c c' then
            match match_here p' s' g with
            | Some r => Some r
            | None => match_here p' s g
            end
          else match_here p' s g
      | EmptyString => match_here p' s g
      end
  | Open :: p' => match_here p' s (s, snd g)
  | Close :: p' => match_here p' s (fst g, s)
  | Many cls min :: p' =>
      (fix many (s : string) (n : nat) {struct s} : option (string * string) :=
         let stop := match n with O => match_here p' s g | S _ => None end in
         match s with
         | String c s' =>
             if cls c then
               match many s' (Nat.pred n) with
               | Some r => Some r
               | None => stop
               end
             else stop
         | EmptyString => stop
         end) s min
  end.

(** The text of the group: what lies between its two positions. *)
Definition captured (g : string * string) : string :=
  substring 0 (String.length (fst g) - String.length (snd g)) (fst g).

Fixpoint regex_exec (p : list atom) (s : string) : option string :=
  match match_here p s (s, s) with
  | Some g => Some (captured g)
  | None =>
      match s with
      | String _ s' => regex_exec p s'
      | EmptyString => None
      end
  end.

Definition not_space (c : ascii) : bool := negb (is_space c).

(** Line 325, atom by atom: [\[download\]] [\s+] ( [\d+] [\.?] [\d*] ) [%]. *)
Definition download_re : list atom :=
  [Lit "[download]"; Many is_space 1; Open; Many is_digit 1; Opt ".";
   Many is_digit 0; Close; Lit "%"].

(** Line 331, atom by atom: [of] [\s+] [~?] [\s*] ( [\S+] ). *)
Definition size_re : list atom :=
  [Lit "of"; Many is_space 1; Opt "~"; Many is_space 0; Open;
   Many not_space 1; Close].

(** Line 332, atom by atom: [at] [\s+] ( [\S+] [\/s] ). *)
Definition speed_re : list atom :=
  [Lit "at"; Many is_space 1; Open; Many not_space 1; Lit "/s"; Close].

(** Line 333, atom by atom: [ETA] [\s+] ( [\S+] ). *)
Definition eta_re : list atom :=
  [Lit "ETA"; Many is_space 1; Open; Many not_space 1; Close].

End Regex.

Import Regex.

(** ** The standard-output handler of [downloadVideo], lines 317-389 *)

(** [s.includes(sub)] *)
Fixpoint includes (s sub : string) : bool :=
  if String.prefix sub s then true
  else
    match s with
    | String _ s' => includes s' sub
    | EmptyString => false
    end.

(** [!line.trim()]: the line is empty once trimmed. *)
Fixpoint blank (s : string) : bool :=
  match s with
  | String c s' => is_space c && blank s'
  | EmptyString => true
  end.

Definition newline : ascii := ascii_of_nat 10.

(** [s.split("\n")]; [cur] is the piece being read. *)
Fixpoint split_from (cur : string) (s : string) : list string :=
  match s with
  | EmptyString => [cur]
  | String c s' =>
      if Ascii.eqb c newline then cur :: split_from "" s'
      else split_from (cur ++ String c "") s'
  end.

Definition split_lines (s : string) : list string := split_from "" s.

(** What the handler prints.  [Downloading] is the status line written by
    [process.stdout.write] at line 349, with the percentage it shows; the
    others are the fixed messages of lines 356, 366, 374, 381 and 386. *)
Inductive event : Type :=
| Downloading (percent : number) (statusLine : string)
| Initialized
| DownloadCompleted
| Merging
| CleaningUp
| EmbeddingMetadata.

(** The variables captured by the handler, lines 197-199. *)
Record state : Type := mkState {
  lastProgress : number;
  isDownloading : bool;
  isMerging : bool
}.

Definition initial : state :=
  {| lastProgress := of_Z (-1); isDownloading := false; isMerging := false |}.

(** Lines 340-347: the text of the status line. *)
Definition status_line (bar : string) (progress : number) (line : string)
  : string :=
  let sizeMatch := regex_exec size_re line in
  let speedMatch := regex_exec speed_re line in
  let etaMatch := regex_exec eta_re line in
  "  " ++ bar ++ " " ++ toFixed progress 1 ++ "%"
  ++ match speedMatch with
     | Some v => " | Speed: " ++ v
     | None => ""
     end
  ++ match etaMatch with
     | Some v => if String.eqb v "Unknown" then "" else " | ETA: " ++ v
     | None => ""
     end
  ++ match sizeMatch with
     | Some v => " | Size: " ++ v
     | None => ""
     end.

(** Line 335-338: the test that guards the status line. *)
Definition should_emit (progress last : number) : bool :=
  negb (strict_eq (Math_floor progress) (Math_floor last))
  || strict_eq progress (of_Z 100).

(** Lines 325-352.  [None] is the [RangeError] of [createProgressBar],
    raised before anything is written. *)
Definition progress_rule (st : state) (line : string)
  : option (list event * state) :=
  match regex_exec download_re line with
  | Some cap =>
      let st := {| lastProgress := lastProgress st;
                   isDownloading := true;
                   isMerging := isMerging st |} in
      let progress := parseFloat cap in
      if should_emit progress (lastProgress st) then
        match createProgressBar progress default_width with
        | None => None
        | Some bar =>
            Some ([Downloading progress (status_line bar progress line)],
                  {| lastProgress := progress;
                     isDownloading := isDownloading st;
                     isMerging := isMerging st |})
        end
      else Some ([], st)
  | None => Some ([], st)
  end.

(** Lines 355-357. *)
Definition destination_rule (st : state) (line : string) : list event :=
  if includes line "[download] Destination:" && negb (isDownloading st)
  then [Initialized] else [].

(** Lines 360-368. *)
Definition completed_rule (st : state) (line : string) : list event :=
  if includes line "[download] 100%"
     || includes line "has already been downloaded"
  then (if negb (isMerging st) then [DownloadCompleted] else [])
  else [].

(** Lines 371-377. *)
Definition merger_rule (st : state) (line : string) : list event * state :=
  if includes line "[Merger]" || includes line "[ffmpeg]" then
    if negb (isMerging st) then
      ([Merging],
       {| lastProgress := lastProgress st;
          isDownloading := isDownloading st;
          isMerging := true |})
    else ([], st)
  else ([], st).

(** Lines 380-382. *)
Definition cleanup_rule (line : string) : list event :=
  if includes line "Deleting original file" then [CleaningUp] else [].

(** Lines 385-387. *)
Definition metadata_rule (line : string) : list event :=
  if includes line "[EmbedThumbnail]" || includes line "[Metadata]"
  then [EmbeddingMetadata] else [].

(** Lines 354-387: the five tests that follow the percentage, each on
    its own [if]. *)
Definition later_rules (st : state) (line : string) : list event * state :=
  let e2 := destination_rule st line in
  let e3 := completed_rule st line in
  let (e4, st4) := merger_rule st line in
  let e5 := cleanup_rule line in
  let e6 := metadata_rule line in
  ((e2 ++ e3 ++ e4 ++ e5 ++ e6)%list, st4).

(** The body of the loop over the lines, lines 321-388: the events the
    line prints, and the state after it, or [None] when it raised. *)
Definition process_line (st : state) (line : string)
  : list event * option state :=
  if blank line then ([], Some st)
  else
    match progress_rule st line with
    | None => ([], None)
    | Some (e1, st1) =>
        let (e, st') := later_rules st1 line in
        ((e1 ++ e)%list, Some st')
    end.

(** The loop over the lines of one chunk; an exception leaves the loop
    and the handler. *)
Fixpoint process_lines (st : state) (lines : list string)
  : list event * option state :=
  match lines with
  | [] => ([], Some st)
  | line :: rest =>
      match process_line st line with
      | (ev, None) => (ev, None)
      | (ev, Some st') =>
          let (ev', r) := process_lines st' rest in
          ((ev ++ ev')%list, r)
      end
  end.

(** The handler of one [data] event. *)
Definition on_data (st : state) (data : string) : list event * option state :=
  process_lines st (split_lines data).

(** The handler over the chunks of a run, in arrival order.  An exception
    in the handler is uncaught and ends the process: no later chunk is
    handled. *)
Fixpoint classify (st : state) (chunks : list string)
  : list event * option state :=
  match chunks with
  | [] => ([], Some st)
  | data :: rest =>
      match on_data st data with
      | (ev, None) => (ev, None)
      | (ev, Some st') =>
          let (ev', r) := classify st' rest in
          ((ev ++ ev')%list, r)
      end
  end.

(** The percentages of the [Downloading] events, in order. *)
Fixpoint percents (evs : list event) : list number :=
  match evs with
  | [] => []
  | Downloading p _ :: evs' => p :: percents evs'
  | _ :: evs' => percents evs'
  end.

(** The percentage that a line reports, when it matches the pattern of
    line 325. *)
Definition line_percent (line : string) : option number :=
  option_map parseFloat (regex_exec download_re line).

Fixpoint input_percents (lines : list string) : list number :=
  match lines with
  | [] => []
  | line :: rest =>
      match line_percent line with
      | Some p => p :: input_percents rest
      | None => input_percents rest
      end
  end.

(** The lines that the handler sees in the chunks of a run. *)
Definition lines_of (chunks : list string) : list string :=
  flat_map split_lines chunks.

(** [a] and [b] compared by their integer floors. *)
Definition floor_le (a b : number) : Prop := le (Math_floor a) (Math_floor b).

Definition count_hundred (l : list number) : nat :=
  List.length (filter (fun p => strict_eq p (of_Z 100)) l).

(** Each percentage passed the test of line 335 against the one before
    it, the first against [last]. *)
Fixpoint deduplicated (last : number) (l : list number) : Prop :=
  match l with
  | [] => True
  | p :: l' => should_emit p last = true /\ deduplicated p l'
  end.

Inductive subseq {A : Type} : list A -> list A -> Prop :=
| subseq_nil : subseq [] []
| subseq_skip : forall x l1 l2, subseq l1 l2 -> subseq l1 (x :: l2)
| subseq_take : forall x l1 l2, subseq l1 l2 -> subseq (x :: l1) (x :: l2).

Definition nl : string := String newline "".

Definition is_downloading (e : event) : bool :=
  match e with Downloading _ _ => true | _ => false end.

Definition is_merging (e : event) : bool :=
  match e with Merging => true | _ => false end.

(** The place of each event in the order of the rules. *)
Definition rule_rank (e : event) : nat :=
  match e with
  | Downloading _ _ => 1
  | Initialized => 2
  | DownloadCompleted => 3
  | Merging => 4
  | CleaningUp => 5
  | EmbeddingMetadata => 6
  end.

Definition rank_lt (a b : event) : Prop := (rule_rank a < rule_rank b)%nat.

(** The guards of lines 355, 364 and 372 read along a sequence of
    events: [merging] and [downloading] are the two flags before it. *)
Fixpoint guarded (merging downloading : bool) (evs : list event) : Prop :=
  match evs with
  | [] => True
  | Merging :: evs' => merging = false /\ guarded true downloading evs'
  | DownloadCompleted :: evs' =>
      merging = false /\ guarded merging downloading evs'
  | Initialized :: evs' =>
      downloading = false /\ guarded merging downloading evs'
  | Downloading _ _ :: evs' => guarded merging true evs'
  | _ :: evs' => guarded merging downloading evs'
  end.

(** The place of each phase in the order Downloading, Merging,
    EmbeddingMetadata of the data model.  The notification that the
    download step is complete is not the final phase of the run, and the
    two informational events carry no phase. *)
Definition phase_rank (e : event) : option nat :=
  match e with
  | Downloading _ _ => Some 1%nat
  | Merging => Some 2%nat
  | EmbeddingMetadata => Some 3%nat
  | DownloadCompleted | Initialized | CleaningUp => None
  end.

Fixpoint phases (evs : list event) : list nat :=
  match evs with
  | [] => []
  | e :: evs' =>
      match phase_rank e with
      | Some r => r :: phases evs'
      | None => phases evs'
      end
  end.

(** ** The end of a run, lines 308-312 and 412-509 *)

(** A call of [printMessage(type, message)]. *)
Record message : Type := mkMessage {
  msg_type : string;
  msg_text : string
}.

(** How the promise of [downloadVideo] is settled.  [Uncaught] is the
    exception raised inside the [data] handler: it reaches no [reject]
    and ends the process. *)
Inductive settlement : Type :=
| Resolved
| Rejected (error : string)
| Uncaught.

(** The exit code handed to the [close] handler: a number, or [null]
    when the process was ended by a signal. *)
Definition exit_code : Type := option Z.

Definition code_is (code : exit_code) (n : Z) : bool :=
  match code with
  | Some c => c =? n
  | None => false
  end.

Definition code_text (code : exit_code) : string :=
  match code with
  | Some c => to_string (of_Z c)
  | None => "null"
  end.

(** Lines 421-435: the first report of the [close] handler. *)
Definition completion_report (code : exit_code) (st : state)
  (downloadTime : string) : list message :=
  if code_is code 1 && isMerging st then
    [ mkMessage "warning"
        ("Download completed with warnings in " ++ downloadTime ++ " seconds");
      mkMessage "info"
        "Video and audio may be in separate files or lower quality" ]
  else
    [ mkMessage "success"
        ("All operations completed in " ++ downloadTime ++ " seconds!") ].

(** Lines 487-498. *)
Definition ffmpeg_advice (code : exit_code) : list message :=
  if code_is code 1 then
    [ mkMessage "info" "To enable video+audio merging, install ffmpeg:";
      mkMessage "info" "npm install ffmpeg-static";
      mkMessage "info" "or download from: https://ffmpeg.org/download.html" ]
  else [].

(** The [close] handler, lines 412-504.  [fileReport] stands for what
    lines 437-485 print about the files they find: it depends on the file
    system only and does not take part in the settlement. *)
Definition on_close (code : exit_code) (st : state)
  (downloadTime : string) (fileReport : list message)
  : list message * settlement :=
  if code_is code 0 || code_is code 1 then
    ((completion_report code st downloadTime ++ fileReport
      ++ ffmpeg_advice code)%list, Resolved)
  else
    ([], Rejected ("yt-dlp process exited with code " ++ code_text code)).

(** The run was reported as completed with warnings, the degraded
    success of the data model: the report opens with the warning of
    line 422. *)
Definition degraded (report : list message) : bool :=
  match report with
  | m :: _ =>
      String.eqb (msg_type m) "warning"
      && String.prefix "Download completed with warnings" (msg_text m)
  | [] => false
  end.

(** What a run meets outside the program. *)
Record world : Type := mkWorld {
  import_ok : bool;              (* the import at line 206 succeeds *)
  ytdlpPath : string;
  ytdlp_exists : bool;           (* [fs.existsSync(ytdlpPath)], line 309 *)
  spawn_error : option string;   (* the [error] event of the child *)
  stdout_chunks : list string;
  code : exit_code;
  downloadTime : string;
  fileReport : list message
}.

(** [downloadVideo] from the search of the executable on: the events of
    the standard-output handler, the report of the [close] handler, and
    the settlement of the promise. *)
Definition downloadVideo (w : world)
  : list event * list message * settlement :=
  if negb (import_ok w) then
    ([], [], Rejected
       "Could not find yt-dlp executable. Make sure yt-dlp-exec is installed.")
  else if negb (ytdlp_exists w) then
    ([], [], Rejected ("yt-dlp executable not found at: " ++ ytdlpPath w))
  else
    match spawn_error w with
    | Some e => ([], [], Rejected e)
    | None =>
        match classify initial (stdout_chunks w) with
        | (evs, None) => (evs, [], Uncaught)
        | (evs, Some st) =>
            let (report, s) :=
              on_close (code w) st (downloadTime w) (fileReport w) in
            (evs, report, s)
        end
    end.

(** ** Quality selection, lines 8-42 and 539-553 *)

Record profile : Type := mkProfile {
  format : string;
  label : string
}.

(** [CONFIG.qualities], in the order of the source text. *)
Definition qualities : list (string * profile) :=
  [ ("360", mkProfile "bestvideo[height<=360]+bestaudio/best" "Low (360p)");
    ("480", mkProfile "bestvideo[height<=480]+bestaudio/best" "SD (480p)");
    ("720", mkProfile "bestvideo[height<=720]+bestaudio/best" "HD (720p)");
    ("1080", mkProfile "bestvideo[height<=1080]+bestaudio/best"
               "Full HD (1080p)");
    ("1440", mkProfile "bestvideo[height<=1440]+bestaudio/best" "2K (1440p)");
    ("2160", mkProfile "bestvideo[height<=2160]+bestaudio/best" "4K (2160p)");
    ("audio", mkProfile "bestaudio/best" "Audio Only (Best Quality)");
    ("best", mkProfile "bestvideo+bestaudio/best" "Best Available Quality") ].

(** The value of an integer-like property name (a canonical decimal
    below [2 ^ 32 - 1]), which [Object.keys] lists first, in ascending
    order. *)
Definition array_index (k : string) : option Z :=
  let '(v, len, rest) := read_digits k 0 0 in
  if String.eqb rest "" && negb (Nat.eqb len 0) && String.eqb (digits v) k
     && (v <? 2 ^ 32 - 1)
  then Some v else None.

Fixpoint insert_index (k : string) (v : Z) (l : list (string * Z))
  : list (string * Z) :=
  match l with
  | [] => [(k, v)]
  | (k', v') :: l' =>
      if v <? v' then (k, v) :: l else (k', v') :: insert_index k v l'
  end.

Fixpoint sorted_indices (ks : list string) : list (string * Z) :=
  match ks with
  | [] => []
  | k :: ks' =>
      match array_index k with
      | Some v => insert_index k v (sorted_indices ks')
      | None => sorted_indices ks'
      end
  end.

(** [Object.keys(o)]: the integer-like names in ascending order, then
    the other names in the order of their creation. *)
Definition Object_keys {A : Type} (o : list (string * A)) : list string :=
  let ks := map fst o in
  (map fst (sorted_indices ks)
   ++ filter (fun k => match array_index k with
                       | Some _ => false
                       | None => true
                       end) ks)%list.

(** The property names that every object inherits from
    [Object.prototype]; each of them holds a truthy value. *)
Definition inherited_names : list string :=
  [ "constructor"; "__proto__"; "hasOwnProperty"; "isPrototypeOf";
    "propertyIsEnumerable"; "toLocaleString"; "toString"; "valueOf";
    "__defineGetter__"; "__defineSetter__"; "__lookupGetter__";
    "__lookupSetter__" ].

Inductive property : Type :=
| Own (p : profile)
| Inherited
| Undefined.

Fixpoint assoc (k : string) (o : list (string * profile)) : option profile :=
  match o with
  | [] => None
  | (k', p) :: o' => if String.eqb k k' then Some p else assoc k o'
  end.

(** [CONFIG.qualities[quality]] *)
Definition qualities_get (quality : string) : property :=
  match assoc quality qualities with
  | Some p => Own p
  | None =>
      if existsb (String.eqb quality) inherited_names then Inherited
      else Undefined
  end.

Definition truthy (p : property) : bool :=
  match p with
  | Undefined => false
  | _ => true
  end.

Definition lower (c : ascii) : ascii :=
  let n := nat_of_ascii c in
  if (65 <=? n)%nat && (n <=? 90)%nat then ascii_of_nat (n + 32) else c.

(** [s.toLowerCase()] *)
Fixpoint toLowerCase (s : string) : string :=
  match s with
  | String c s' => String (lower c) (toLowerCase s')
  | EmptyString => EmptyString
  end.

Fixpoint all_digits (s : string) : bool :=
  match s with
  | String c s' => is_digit c && all_digits s'
  | EmptyString => true
  end.

Definition hex_val (c : ascii) : option Z :=
  let n := Z.of_nat (nat_of_ascii c) in
  if (48 <=? n) && (n <=? 57) then Some (n - 48)
  else if (65 <=? n) && (n <=? 70) then Some (n - 55)
  else if (97 <=? n) && (n <=? 102) then Some (n - 87)
  else None.

Fixpoint read_hex (s : string) (acc : Z) (len : nat) : Z * nat :=
  match s with
  | String c s' =>
      match hex_val c with
      | Some d => read_hex s' (acc * 16 + d) (S len)
      | None => (acc, len)
      end
  | EmptyString => (acc, len)
  end.

(** [parseInt(s)] without a radix: white space, a sign, the prefix [0x]
    or [0X] for base 16, then the leading digits; [NaN] without a digit. *)
Definition parseInt (s : string) : number :=
  let (negative, body) := read_sign (skip_spaces s) in
  let (v, len) :=
    if has_prefix "0x" body || has_prefix "0X" body
    then read_hex (substring 2 (String.length body - 2) body) 0 0
    else let '(v, len, _) := read_digits body 0 0 in (v, len) in
  match len with
  | O => NaN
  | _ => of_Z (if negative then - v else v)
  end.

(** [a >= b] and [a < b] on numbers. *)
Definition ge_bool (a b : number) : bool :=
  match a, b with
  | NaN, _ | _, NaN => false
  | Fin x, Fin y => Qle_bool y x
  | PosInf, _ | _, NegInf => true
  | _, _ => false
  end.

Definition lt_bool (a b : number) : bool :=
  match a, b with
  | NaN, _ | _, NaN => false
  | Fin x, Fin y => negb (Qle_bool y x)
  | NegInf, (Fin _ | PosInf) | Fin _, PosInf => true
  | _, _ => false
  end.

(** Lines 539-553 of [main]: the quality that [downloadVideo] is called
    with, and whether the warning of line 548 was printed. *)
Definition select_quality (qualityInput : string) : string * bool :=
  let quality :=
    let l := toLowerCase qualityInput in
    if String.eqb l "" then "best" else l in
  let qualityKeys := Object_keys qualities in
  let qualityIndex := fsub (parseInt qualityInput) (of_Z 1) in
  let quality :=
    if ge_bool qualityIndex (of_Z 0)
       && lt_bool qualityIndex (of_Z (Z.of_nat (List.length qualityKeys)))
    then text_of (array_get qualityKeys qualityIndex)
    else quality in
  if negb (truthy (qualities_get quality)) then ("best", true)
  else (quality, false).

(** Lines 184-185 and 190: the format and the label that [downloadVideo]
    uses for a quality. *)
Definition format_of (quality : string) : string :=
  match qualities_get quality with
  | Own p => format p
  | _ => "bestvideo+bestaudio/best"
  end.

Definition label_of (quality : string) : string :=
  match qualities_get quality with
  | Own p => label p
  | _ => "Best Available"
  end.

(** ** The other utilities of [index.js] *)

(** [s.trim()]: [skip_spaces] removes the white space at the start. *)
Fixpoint trim_end (s : string) : string :=
  match s with
  | String c s' =>
      if is_space c && blank s' then "" else String c (trim_end s')
  | EmptyString => ""
  end.

Definition trim (s : string) : string := trim_end (skip_spaces s).

(** [s.padStart(n, fill)] *)
Definition padStart (s : string) (n : nat) (fill : string) : string :=
  let len := String.length s in
  if (n <=? len)%nat || String.eqb fill "" then s
  else substring 0 (n - len) (repeat_string fill (n - len)) ++ s.

(** [a % b]: the remainder has the sign of the dividend and is exact. *)
Definition Qtrunc (q : Q) : Z :=
  if is_neg q then - Qfloor (- q) else Qfloor q.

Definition frem (a b : number) : number :=
  match a, b with
  | Fin x, Fin y =>
      if is_zero y then NaN
      else Fin (Qred (x - y * inject_Z (Qtrunc (x / y))))
  | Fin x, (PosInf | NegInf) => Fin x
  | _, _ => NaN
  end.

(** [a > b] on numbers. *)
Definition gt_bool (a b : number) : bool := lt_bool b a.

(** [!seconds] for a number or [undefined] (here [None]); on a number
    the test [isNaN(seconds)] of line 56 adds nothing to it. *)
Definition falsy (x : option number) : bool :=
  match x with
  | None | Some NaN => true
  | Some (Fin q) => is_zero q
  | Some _ => false
  end.

(** [formatTime(seconds)], lines 55-66. *)
Definition formatTime (seconds : option number) : string :=
  match seconds with
  | None => "00:00"
  | Some x =>
      if falsy seconds then "00:00"
      else
        let h := Math_floor (fdiv x (of_Z 3600)) in
        let m := Math_floor (fdiv (frem x (of_Z 3600)) (of_Z 60)) in
        let s := Math_floor (frem x (of_Z 60)) in
        if gt_bool h (of_Z 0) then
          padStart (to_string h) 2 "0" ++ ":" ++ padStart (to_string m) 2 "0"
          ++ ":" ++ padStart (to_string s) 2 "0"
        else
          padStart (to_string m) 2 "0" ++ ":" ++ padStart (to_string s) 2 "0"
  end.

(** [printHeader(text)], lines 79-84: the three lines it prints. *)
Definition printHeader (text : string) : list string :=
  let line := repeat_string "=" 60 in
  [nl ++ line; "  " ++ text; line].

(** [Object.entries(CONFIG.qualities)] *)
Definition Object_entries (o : list (string * profile))
  : list (string * profile) :=
  flat_map (fun k => match assoc k o with
                     | Some p => [(k, p)]
                     | None => []
                     end) (Object_keys o).

(** The loop of lines 125-129, from the value of [index] on. *)
Fixpoint option_lines (index : Z) (entries : list (string * profile))
  : list string :=
  match entries with
  | (key, value) :: rest =>
      ("  " ++ to_string (of_Z index) ++ ". " ++ label value
       ++ " (" ++ key ++ ")")
      :: option_lines (index + 1) rest
  | [] => []
  end.

(** [displayQualityOptions()], lines 123-131: the lines it prints. *)
Definition displayQualityOptions : list string :=
  (printHeader "Available Quality Options"
   ++ option_lines 1 (Object_entries qualities) ++ [""])%list.

(** ** [getVideoInfo], lines 153-173 *)

(** [s.slice(a, b)] for indices that are not negative. *)
Definition slice (s : string) (a b : nat) : string := substring a (b - a) s.

(** Lines 153-160: the text shown for [info.upload_date]; [None] is a
    missing field. *)
Definition upload_date_text (upload_date : option string) : string :=
  match upload_date with
  | Some d =>
      if String.eqb d "" then "Unknown"
      else slice d 0 4 ++ "-" ++ slice d 4 6 ++ "-" ++ slice d 6 8
  | None => "Unknown"
  end.

(** [sort((a, b) => b.height - a.height)]: the sort of an array is
    stable, so the result is that of any stable sort; here an insertion
    sort, where an element goes before the first one that the
    comparison does not put ahead of it. *)
Fixpoint insert_desc (h : Z) (l : list Z) : list Z :=
  match l with
  | [] => [h]
  | y :: l' => if y - h <=? 0 then h :: l else y :: insert_desc h l'
  end.

Definition sort_desc (l : list Z) : list Z := fold_right insert_desc [] l.

(** [filter((f) => f.height)]: a format is kept when its height is a
    number other than zero.  A format is represented by its height,
    [None] when it has none. *)
Definition tall (height : option Z) : list Z :=
  match height with
  | Some h => if h =? 0 then [] else [h]
  | None => []
  end.

(** Lines 165-173: the height of the message [Maximum available
    quality], when it is printed.  [formats] is [None] when the field is
    missing. *)
Definition maxHeight (formats : option (list (option Z))) : option Z :=
  match formats with
  | Some fs =>
      match sort_desc (flat_map tall fs) with
      | h :: _ => Some h
      | [] => None
      end
  | None => None
  end.

(** ** The arguments of the child process, lines 233-303 *)

(** [a.indexOf(x)]; [None] is [-1]. *)
Fixpoint indexOf (a : list string) (x : string) : option nat :=
  match a with
  | [] => None
  | y :: a' =>
      if String.eqb y x then Some O else option_map S (indexOf a' x)
  end.

(** [a.splice(i, 2)] *)
Definition splice2 (a : list string) (i : nat) : list string :=
  (firstn i a ++ skipn (i + 2) a)%list.

(** [a[i] = v] for an index up to the length of the array: at the length
    the array grows by one. *)
Definition assign (a : list string) (i : nat) (v : string) : list string :=
  (firstn i a ++ v :: skipn (S i) a)%list.

(** [args] as handed to [spawn] at line 315.  [ffmpegPath] is the result
    of the search of lines 277-283, [None] for [null]. *)
Definition args (url quality outputPath : string)
  (ffmpegPath : option string) : list string :=
  let format := format_of quality in
  let audio := String.eqb quality "audio" in
  let a :=
    [ url; "--format"; format; "--output"; outputPath;
      "--merge-output-format"; if audio then "mp3" else "mp4";
      "--newline"; "--no-playlist" ] in
  let a :=
    if audio
    then (a ++ ["--embed-thumbnail"; "--embed-metadata"; "--add-metadata"])%list
    else a in
  let found :=
    match ffmpegPath with
    | Some p => negb (String.eqb p "")
    | None => false
    end in
  if found then (a ++ ["--ffmpeg-location"; text_of ffmpegPath])%list
  else
    let a :=
      match indexOf a "--merge-output-format" with
      | Some mergeIndex => splice2 a mergeIndex
      | None => a
      end in
    match indexOf a "--format" with
    | Some formatIndex =>
        if negb audio
        then assign a (formatIndex + 1) ("best[height<=" ++ quality ++ "]/best")
        else a
    | None => a
    end.

(** ** The standard-error handler, lines 391-410 *)

Definition on_stderr (error : string) : list message :=
  if includes error "ERROR" then
    if includes error "ffmpeg" then
      [ mkMessage "warning"
          "ffmpeg not available - downloading best single format" ]
    else [ mkMessage "error" (trim error) ]
  else if includes error "WARNING" && includes error "unable to download"
  then [ mkMessage "warning" (trim error) ]
  else [].

(** ** [main], lines 515-579 *)

Definition quote : ascii := ascii_of_nat 34.
Definition backslash : ascii := ascii_of_nat 92.

(** The class of line 556: the characters that a file name cannot hold. *)
Definition illegal (c : ascii) : bool :=
  existsb (Ascii.eqb c)
    [ "<"; ">"; ":"; quote; "/"; backslash; "|"; "?"; "*" ]%char.

Fixpoint remove_illegal (s : string) : string :=
  match s with
  | String c s' =>
      if illegal c then remove_illegal s' else String c (remove_illegal s')
  | EmptyString => ""
  end.

(** The second [replace] of line 557: every maximal run of white space
    becomes one space; [in_run] tells that the run was already
    replaced. *)
Fixpoint collapse (in_run : bool) (s : string) : string :=
  match s with
  | String c s' =>
      if is_space c
      then (if in_run then collapse true s'
            else String " " (collapse true s'))
      else String c (collapse false s')
  | EmptyString => ""
  end.

(** Lines 555-559.  A character of the title stands for one code unit
    of the JavaScript string, which is what [substring] counts. *)
Definition sanitizedTitle (title : string) : string :=
  substring 0 200 (trim (collapse false (remove_illegal title))).

Section Main.

(** [path.join(CONFIG.downloadsDir, name)] *)
Variable join_downloads : string -> string.



End Main.

(** ** Notions used in the statements *)

(** A number from 0 to 99 on two decimal digits. *)
Definition two_digits (k : Z) : string :=
  String (digit_char (k / 10)) (String (digit_char (k mod 10)) "").

(** Every character of the string passes the test. *)
Fixpoint all_chars (P : ascii -> bool) (s : string) : bool :=
  match s with
  | String c s' => P c && all_chars P s'
  | EmptyString => true
  end.

(** No white space follows white space; [prev] tells that the string
    comes after white space (or opens the text). *)
Fixpoint well_spaced (prev : bool) (s : string) : bool :=
  match s with
  | String c s' =>
      if is_space c then negb prev && well_spaced true s'
      else well_spaced false s'
  | EmptyString => true
  end.

(** A character that a sanitised title can hold. *)
Definition plain (c : ascii) : bool :=
  negb (illegal c) && (negb (is_space c) || Ascii.eqb c " ").

Definition no_newline (c : ascii) : bool := negb (Ascii.eqb c newline).

(** The line passes the test of lines 360-363, and is not skipped. *)
Definition completion_line (line : string) : bool :=
  negb (blank line)
  && (includes line "[download] 100%"
      || includes line "has already been downloaded").

(** The line passes the test of line 371. *)
Definition merger_line (line : string) : bool :=
  includes line "[Merger]" || includes line "[ffmpeg]".

Definition is_completed (e : event) : bool :=
  match e with
  | DownloadCompleted => true
  | _ => false
  end.

(** The number of notices [Download completed!] among the events. *)
Definition notices (evs : list event) : nat :=
  List.length (filter is_completed evs).

(** A binary64 value: zero, or a representable number or its
    opposite. *)
Definition bound (R : Q) : Prop :=
  (R == 0 \/ representable R \/ representable (- R))%Q.

(** The polynomial part [R = t2 + t1] of [log_reduced], as a function
    of [s]. *)
Definition log_poly (s : number) : number :=
  let z := fmul s s in
  let w := fmul z z in
  let t1 := fmul w (fadd Lg2 (fmul w (fadd Lg4 (fmul w Lg6)))) in
  let t2 :=
    fmul z (fadd Lg1 (fmul w (fadd Lg3 (fmul w (fadd Lg5 (fmul w Lg7))))))
  in
  fadd t2 t1.

(** * Properties *)

(** ** Rounding to binary64 *)


Module JsNumberFacts.

Local Open Scope Q_scope.

Lemma two_neq_0 : ~ 2 == 0.
Proof. discriminate. Qed.

Lemma pow2_pos (e : Z) : 0 < 2 ^ e.
Proof. apply Qpower_0_lt. reflexivity. Qed.

Lemma pow2_add (a b : Z) : 2 ^ (a + b) == 2 ^ a * 2 ^ b.
Proof. apply Qpower_plus, two_neq_0. Qed.

Lemma pow2_le (a b : Z) : (a <= b)%Z -> 2 ^ a <= 2 ^ b.
Proof. intros H. apply Qpower_le_compat_l; [exact H | discriminate]. Qed.

Lemma pow2_lt_inv (a b : Z) : 2 ^ a < 2 ^ b -> (a < b)%Z.
Proof. intros H. apply (Qpower_lt_compat_l_inv 2); [exact H | reflexivity]. Qed.

Lemma pow2_inject (k : Z) : (0 <= k)%Z -> inject_Z (2 ^ k) == 2 ^ k.
Proof. intros H. apply (Zpower_Qpower 2 k H). Qed.

Lemma pow2_cancel (e : Z) : 2 ^ e * 2 ^ (- e) == 1.
Proof. rewrite <- pow2_add. replace (e + - e)%Z with 0%Z by lia. reflexivity. Qed.

Lemma Qmake_times_den (a : Z) (b : positive) :
  (a # b) * inject_Z (Zpos b) == inject_Z a.
Proof.
  unfold Qeq, Qmult, inject_Z; simpl. lia.
Qed.

(** [log2] brackets a positive integer, over the rationals. *)
Lemma log2_bracket (a : positive) :
  2 ^ (Z.log2 (Zpos a)) <= inject_Z (Zpos a)
  /\ inject_Z (Zpos a) < 2 ^ (Z.log2 (Zpos a) + 1).
Proof.
  destruct (Z.log2_spec (Zpos a)) as [H1 H2]; [lia |].
  pose proof (Z.log2_nonneg (Zpos a)) as H0.
  split.
  - rewrite <- pow2_inject by exact H0. rewrite <- Zle_Qle. exact H1.
  - rewrite <- pow2_inject by lia. rewrite <- Zlt_Qlt.
    replace (Z.log2 (Zpos a) + 1)%Z with (Z.succ (Z.log2 (Zpos a))) by lia.
    exact H2.
Qed.


(** The comparison inside [ilog2], over the rationals. *)
Lemma ilog2_test (a b : positive) (d : Z) :
  (Zpos b * 2 ^ Z.max 0 d <=? Zpos a * 2 ^ Z.max 0 (- d))%Z = true
  <-> inject_Z (Zpos b) * 2 ^ d <= inject_Z (Zpos a).
Proof.
  rewrite Z.leb_le.
  destruct (Z.le_gt_cases 0 d) as [Hd | Hd].
  - rewrite (Z.max_r 0 d) by lia. rewrite (Z.max_l 0 (- d)) by lia.
    rewrite Z.pow_0_r, Z.mul_1_r.
    rewrite Zle_Qle, inject_Z_mult, pow2_inject by lia. reflexivity.
  - rewrite (Z.max_l 0 d) by lia. rewrite (Z.max_r 0 (- d)) by lia.
    rewrite Z.pow_0_r, Z.mul_1_r.
    rewrite Zle_Qle, inject_Z_mult, pow2_inject by lia.
    pose proof (pow2_pos d) as Hp. pose proof (pow2_cancel d) as Hc.
    pose proof (pow2_pos (- d)) as Hn.
    split; intros H.
    + apply (Qmult_le_r _ _ (2 ^ (- d))); [exact Hn |].
      rewrite <- Qmult_assoc, Hc, Qmult_1_r. exact H.
    + apply (Qmult_le_r _ _ (2 ^ (- d))) in H; [| exact Hn].
      rewrite <- Qmult_assoc, Hc, Qmult_1_r in H. exact H.
Qed.

(** [ilog2] is the binary exponent of a positive fraction. *)
Lemma ilog2_spec (a b : positive) :
  let L := ilog2 (Zpos a) (Zpos b) in
  2 ^ L <= (Zpos a # b) /\ (Zpos a # b) < 2 ^ (L + 1).
Proof.
  intros L. subst L. unfold ilog2.
  set (d := (Z.log2 (Zpos a) - Z.log2 (Zpos b))%Z).
  destruct (log2_bracket a) as [Ha1 Ha2].
  destruct (log2_bracket b) as [Hb1 Hb2].
  pose proof (Qmake_times_den (Zpos a) b) as Hx.
  assert (HB : 0 < inject_Z (Zpos b)) by (rewrite <- (Zlt_Qlt 0); lia).
  assert (Hup : forall k : Z, inject_Z (Zpos a) < inject_Z (Zpos b) * 2 ^ k ->
                  (Zpos a # b) < 2 ^ k).
  { intros k Hk. apply (Qmult_lt_r _ _ (inject_Z (Zpos b))); [exact HB |].
    rewrite Hx. rewrite (Qmult_comm (2 ^ k)). exact Hk. }
  assert (Hlo : forall k : Z, inject_Z (Zpos b) * 2 ^ k <= inject_Z (Zpos a) ->
                  2 ^ k <= (Zpos a # b)).
  { intros k Hk. apply (Qmult_le_r _ _ (inject_Z (Zpos b))); [exact HB |].
    rewrite Hx. rewrite (Qmult_comm (2 ^ k)). exact Hk. }
  assert (Hd1 : 2 ^ (Z.log2 (Zpos a) + 1) == 2 ^ Z.log2 (Zpos b) * 2 ^ (d + 1)).
  { rewrite <- pow2_add. subst d.
    replace (Z.log2 (Zpos b) + (Z.log2 (Zpos a) - Z.log2 (Zpos b) + 1))%Z
      with (Z.log2 (Zpos a) + 1)%Z by lia. reflexivity. }
  assert (Hd2 : 2 ^ Z.log2 (Zpos a) == 2 ^ (Z.log2 (Zpos b) + 1) * 2 ^ (d - 1)).
  { rewrite <- pow2_add. subst d.
    replace (Z.log2 (Zpos b) + 1 + (Z.log2 (Zpos a) - Z.log2 (Zpos b) - 1))%Z
      with (Z.log2 (Zpos a)) by lia. reflexivity. }
  pose proof (pow2_pos (d + 1)) as Hp1. pose proof (pow2_pos (d - 1)) as Hp2.
  destruct (Zpos b * 2 ^ Z.max 0 d <=? Zpos a * 2 ^ Z.max 0 (- d))%Z eqn:Ht.
  - apply ilog2_test in Ht. split.
    + apply Hlo, Ht.
    + apply Hup. eapply Qlt_le_trans; [exact Ha2 |].
      rewrite Hd1. apply Qmult_le_compat_r; [exact Hb1 | apply Qlt_le_weak, Hp1].
  - assert (Hn : ~ inject_Z (Zpos b) * 2 ^ d <= inject_Z (Zpos a)).
    { intros H. apply ilog2_test in H. congruence. }
    apply Qnot_le_lt in Hn. split.
    + apply Hlo. eapply Qle_trans; [| exact Ha1].
      rewrite Hd2. apply Qmult_le_compat_r; [apply Qlt_le_weak, Hb2 | apply Qlt_le_weak, Hp2].
    + replace (d - 1 + 1)%Z with d by lia. apply Hup, Hn.
Qed.


(** [rne] stays on the same side of every integer as the fraction. *)
Lemma rne_le (n d K : Z) : (0 < d)%Z -> (n <= K * d)%Z -> (rne n d <= K)%Z.
Proof.
  intros Hd H. unfold rne.
  pose proof (Z.div_mod n d ltac:(lia)) as E.
  pose proof (Z.mod_pos_bound n d Hd) as B.
  assert (Hq : (n / d <= K)%Z) by nia.
  destruct (Z.eq_dec (n / d) K) as [Heq | Hne].
  - assert (Hr : (n mod d = 0)%Z) by nia.
    rewrite Hr. simpl (2 * 0)%Z.
    destruct (Z.compare_spec 0 d); lia.
  - destruct (2 * (n mod d) ?= d)%Z; [destruct (Z.even (n / d)) | |]; lia.
Qed.

Lemma rne_ge (n d K : Z) : (0 < d)%Z -> (K * d <= n)%Z -> (K <= rne n d)%Z.
Proof.
  intros Hd H. unfold rne.
  pose proof (Z.div_mod n d ltac:(lia)) as E.
  pose proof (Z.mod_pos_bound n d Hd) as B.
  assert (Hq : (K <= n / d)%Z) by nia.
  destruct (2 * (n mod d) ?= d)%Z; [destruct (Z.even (n / d)) | |]; lia.
Qed.

Lemma pow2_Z_pos (k : Z) : (0 <= k)%Z -> (0 < 2 ^ k)%Z.
Proof. intros H. apply Z.pow_pos_nonneg; lia. Qed.

Lemma mantissa_le (a b : positive) (K : Z) :
  (Zpos a # b) <= inject_Z K * 2 ^ ulp_exp (Zpos a) (Zpos b) ->
  (mantissa (Zpos a) (Zpos b) <= K)%Z.
Proof.
  unfold mantissa. set (e := ulp_exp (Zpos a) (Zpos b)). intros H.
  pose proof (Qmake_times_den (Zpos a) b) as Hx.
  assert (HB : 0 < inject_Z (Zpos b)) by (rewrite <- (Zlt_Qlt 0); lia).
  apply (Qmult_le_r _ _ (inject_Z (Zpos b))) in H; [| exact HB].
  rewrite Hx in H.
  destruct (Z.leb_spec 0 e) as [He | He].
  - apply rne_le; [pose proof (pow2_Z_pos e He); nia |].
    rewrite Zle_Qle, !inject_Z_mult, pow2_inject by exact He.
    eapply Qle_trans; [exact H |]. apply Qle_lteq; right. ring.
  - apply rne_le; [lia |].
    rewrite Zle_Qle, !inject_Z_mult, pow2_inject by lia.
    apply (Qmult_le_r _ _ (2 ^ (- e))) in H; [| apply pow2_pos].
    eapply Qle_trans; [exact H |]. apply Qle_lteq; right.
    transitivity (inject_Z K * inject_Z (Zpos b) * (2 ^ e * 2 ^ (- e)));
      [ring | rewrite pow2_cancel; ring].
Qed.

Lemma mantissa_ge (a b : positive) (K : Z) :
  inject_Z K * 2 ^ ulp_exp (Zpos a) (Zpos b) <= (Zpos a # b) ->
  (K <= mantissa (Zpos a) (Zpos b))%Z.
Proof.
  unfold mantissa. set (e := ulp_exp (Zpos a) (Zpos b)). intros H.
  pose proof (Qmake_times_den (Zpos a) b) as Hx.
  assert (HB : 0 < inject_Z (Zpos b)) by (rewrite <- (Zlt_Qlt 0); lia).
  apply (Qmult_le_r _ _ (inject_Z (Zpos b))) in H; [| exact HB].
  rewrite Hx in H.
  destruct (Z.leb_spec 0 e) as [He | He].
  - apply rne_ge; [pose proof (pow2_Z_pos e He); nia |].
    rewrite Zle_Qle, !inject_Z_mult, pow2_inject by exact He.
    eapply Qle_trans; [| exact H]. apply Qle_lteq; right. ring.
  - apply rne_ge; [lia |].
    rewrite Zle_Qle, !inject_Z_mult, pow2_inject by lia.
    apply (Qmult_le_r _ _ (2 ^ (- e))) in H; [| apply pow2_pos].
    eapply Qle_trans; [| exact H]. apply Qle_lteq; right.
    transitivity (inject_Z K * inject_Z (Zpos b) * (2 ^ e * 2 ^ (- e)));
      [rewrite pow2_cancel; ring | ring].
Qed.

(** The value of [scale2 m e] is [m * 2 ^ e]. *)
Lemma scale2_value (m e : Z) : scale2 m e == inject_Z m * 2 ^ e.
Proof.
  unfold scale2. destruct (Z.leb_spec 0 e) as [He | He].
  - rewrite inject_Z_mult, pow2_inject by exact He. reflexivity.
  - rewrite Qred_correct.
    pose proof (pow2_Z_pos (- e) ltac:(lia)) as Hp.
    rewrite (Qmake_Qdiv m). rewrite Z2Pos.id by exact Hp.
    rewrite pow2_inject by lia.
    replace e with (- - e)%Z at 2 by lia. rewrite (Qpower_opp 2 (- e)).
    reflexivity.
Qed.

(** [scale2] returns a fraction in lowest terms. *)
Lemma scale2_reduced (m e : Z) : Qred (scale2 m e) = scale2 m e.
Proof.
  unfold scale2. destruct (0 <=? e)%Z.
  - apply Qred_identity. simpl. apply Z.gcd_1_r.
  - apply Qred_involutive.
Qed.


Lemma round64_pos_unfold (a b : Z) :
  round64_pos a b =
  if (971 <? ulp_exp a b)%Z
     || ((ulp_exp a b =? 971)%Z && (2 ^ 53 <=? mantissa a b)%Z)
  then None else Some (scale2 (mantissa a b) (ulp_exp a b)).
Proof. reflexivity. Qed.

Lemma round64_pos_reduced (a b : Z) (r : Q) :
  round64_pos a b = Some r -> Qred r = r.
Proof.
  rewrite round64_pos_unfold.
  destruct (_ || _); [discriminate |].
  intros H. injection H as <-. apply scale2_reduced.
Qed.

Lemma mantissa_nonneg (a b : positive) : (0 <= mantissa (Zpos a) (Zpos b))%Z.
Proof.
  apply mantissa_ge. rewrite Qmult_0_l.
  unfold Qle; simpl. lia.
Qed.

Lemma inject_pow2_lt (N : Z) : (N < 2 ^ 53)%Z -> inject_Z N < 2 ^ 53.
Proof.
  intros H. rewrite <- pow2_inject by lia. rewrite <- Zlt_Qlt. exact H.
Qed.

(** The unit in the last place at [x] is no coarser than that of a
    representable number above [x]. *)
Lemma ulp_exp_le (a b : positive) (N E : Z) :
  (0 < N < 2 ^ 53)%Z -> (-1074 <= E)%Z ->
  (Zpos a # b) <= inject_Z N * 2 ^ E ->
  (ulp_exp (Zpos a) (Zpos b) <= E)%Z.
Proof.
  intros HN HE Hx. unfold ulp_exp.
  destruct (ilog2_spec a b) as [HL _].
  set (L := ilog2 (Zpos a) (Zpos b)) in *.
  assert (H : 2 ^ L < 2 ^ (53 + E)).
  { eapply Qle_lt_trans; [exact HL |].
    eapply Qle_lt_trans; [exact Hx |].
    rewrite pow2_add. apply Qmult_lt_r; [apply pow2_pos |].
    apply inject_pow2_lt; lia. }
  apply pow2_lt_inv in H. lia.
Qed.

Lemma scaled_int (N E e : Z) :
  (e <= E)%Z -> inject_Z (N * 2 ^ (E - e)) * 2 ^ e == inject_Z N * 2 ^ E.
Proof.
  intros H. rewrite inject_Z_mult, pow2_inject by lia.
  rewrite <- Qmult_assoc, <- pow2_add.
  replace (E - e + e)%Z with E by lia. reflexivity.
Qed.

Lemma round64_pos_le (a b : positive) (R : Q) :
  representable R -> (Zpos a # b) <= R ->
  exists r, round64_pos (Zpos a) (Zpos b) = Some r /\ 0 <= r /\ r <= R.
Proof.
  intros (N & E & HN & HE & HR) Hx. rewrite HR in Hx.
  pose proof (ulp_exp_le a b N E HN ltac:(lia) Hx) as He.
  pose proof (mantissa_nonneg a b) as Hm0.
  assert (Hm : (mantissa (Zpos a) (Zpos b) <= N * 2 ^ (E - ulp_exp (Zpos a) (Zpos b)))%Z).
  { apply mantissa_le. rewrite scaled_int by exact He. exact Hx. }
  rewrite round64_pos_unfold.
  set (e := ulp_exp (Zpos a) (Zpos b)) in *.
  set (m := mantissa (Zpos a) (Zpos b)) in *.
  assert (Hov : (971 <? e)%Z || ((e =? 971)%Z && (2 ^ 53 <=? m)%Z) = false).
  { apply orb_false_iff. split; [apply Z.ltb_ge; lia |].
    destruct (Z.eqb_spec e 971) as [E1 | E1]; [| reflexivity].
    simpl. apply Z.leb_gt.
    replace (E - e)%Z with 0%Z in Hm by lia. rewrite Z.pow_0_r in Hm. lia. }
  rewrite Hov. exists (scale2 m e). split; [reflexivity |].
  rewrite scale2_value, HR. split.
  - apply Qmult_le_0_compat; [rewrite <- (Zle_Qle 0); exact Hm0 |].
    apply Qlt_le_weak, pow2_pos.
  - rewrite <- (scaled_int N E e He).
    apply Qmult_le_compat_r; [rewrite <- Zle_Qle; exact Hm |].
    apply Qlt_le_weak, pow2_pos.
Qed.

Lemma round64_pos_ge (a b : positive) (R : Q) :
  representable R -> R <= (Zpos a # b) ->
  match round64_pos (Zpos a) (Zpos b) with
  | Some r => R <= r
  | None => True
  end.
Proof.
  intros (N & E & HN & HE & HR) Hx. rewrite HR in Hx.
  rewrite round64_pos_unfold.
  destruct (_ || _); [exact I |].
  rewrite scale2_value, HR.
  set (e := ulp_exp (Zpos a) (Zpos b)) in *.
  destruct (Z.le_gt_cases e E) as [He | He].
  - rewrite <- (scaled_int N E e He).
    apply Qmult_le_compat_r; [| apply Qlt_le_weak, pow2_pos].
    rewrite <- Zle_Qle. apply mantissa_ge.
    fold e. rewrite scaled_int by exact He. exact Hx.
  - destruct (ilog2_spec a b) as [HL _].
    assert (HeL : e = (ilog2 (Zpos a) (Zpos b) - 52)%Z).
    { subst e. unfold ulp_exp in *. lia. }
    assert (Hm : (2 ^ 52 <= mantissa (Zpos a) (Zpos b))%Z).
    { apply mantissa_ge. fold e. rewrite pow2_inject by lia.
      rewrite <- pow2_add. replace (52 + e)%Z with (ilog2 (Zpos a) (Zpos b)) by lia.
      exact HL. }
    apply Qle_trans with (2 ^ 53 * 2 ^ E).
    + apply Qmult_le_compat_r; [| apply Qlt_le_weak, pow2_pos].
      apply Qlt_le_weak, inject_pow2_lt; lia.
    + apply Qle_trans with (2 ^ 52 * 2 ^ e).
      * rewrite <- !pow2_add. apply pow2_le. lia.
      * apply Qmult_le_compat_r; [| apply Qlt_le_weak, pow2_pos].
        rewrite <- pow2_inject by lia. rewrite <- Zle_Qle. exact Hm.
Qed.


Lemma representable_pos (R : Q) : representable R -> 0 < R.
Proof.
  intros (N & E & HN & _ & HR). rewrite HR.
  apply Qmult_lt_0_compat; [rewrite <- (Zlt_Qlt 0); lia | apply pow2_pos].
Qed.

Lemma representable_int (n : Z) : (0 < n < 2 ^ 53)%Z -> representable (inject_Z n).
Proof.
  intros H. exists n, 0%Z. split; [exact H |]. split; [lia |].
  simpl. ring.
Qed.

(** Rounding does not cross a representable number. *)
Lemma round64_le (q R : Q) :
  representable R -> 0 <= q -> q <= R ->
  exists r, round64 q = Fin r /\ 0 <= r /\ r <= R.
Proof.
  intros HR H0 Hq. destruct q as [n d]. unfold round64. simpl Qnum. simpl Qden.
  destruct n as [| a | a].
  - exists 0. split; [reflexivity |]. split; [apply Qle_refl |].
    apply Qlt_le_weak, representable_pos, HR.
  - destruct (round64_pos_le a d R HR Hq) as (r & -> & H1 & H2).
    exists r. auto.
  - exfalso. unfold Qle in H0. simpl in H0. lia.
Qed.

Lemma round64_ge (q R : Q) :
  representable R -> R <= q ->
  round64 q = PosInf \/ exists r, round64 q = Fin r /\ R <= r.
Proof.
  intros HR Hq. pose proof (representable_pos R HR) as Hp.
  destruct q as [n d]. unfold round64. simpl Qnum. simpl Qden.
  destruct n as [| a | a].
  - exfalso. assert (H : 0 < 0 # d) by (eapply Qlt_le_trans; eauto).
    unfold Qlt in H. simpl in H. lia.
  - pose proof (round64_pos_ge a d R HR Hq) as H.
    destruct (round64_pos (Zpos a) (Zpos d)) as [r |]; [right; eauto | left; reflexivity].
  - exfalso. assert (H : 0 < Zneg a # d) by (eapply Qlt_le_trans; eauto).
    unfold Qlt in H. simpl in H. lia.
Qed.

Lemma Qopp_opp_eq (q : Q) : (- - q)%Q = q.
Proof. destruct q as [n d]. unfold Qopp. simpl. rewrite Z.opp_involutive. reflexivity. Qed.

Lemma round64_opp (q : Q) : round64 (- q) = neg (round64 q).
Proof.
  destruct q as [n d]. unfold round64. simpl.
  destruct n as [| a | a]; simpl.
  - reflexivity.
  - destruct (round64_pos (Zpos a) (Zpos d)); reflexivity.
  - destruct (round64_pos (Zpos a) (Zpos d)); simpl; [rewrite Qopp_opp_eq |]; reflexivity.
Qed.

Lemma round64_reduced (q r : Q) : round64 q = Fin r -> Qred r = r.
Proof.
  destruct q as [n d]. unfold round64. simpl.
  destruct n as [| a | a].
  - intros H. injection H as <-. reflexivity.
  - destruct (round64_pos (Zpos a) (Zpos d)) as [r' |] eqn:E; [| discriminate].
    intros H. injection H as <-. eapply round64_pos_reduced, E.
  - destruct (round64_pos (Zpos a) (Zpos d)) as [r' |] eqn:E; [| discriminate].
    intros H. injection H as <-. rewrite Qred_opp.
    f_equal. eapply round64_pos_reduced, E.
Qed.

(** A representable number rounds to itself. *)
Lemma round64_exact (q : Q) : representable q -> round64 q = Fin (Qred q).
Proof.
  intros HR. pose proof (representable_pos q HR) as Hp.
  destruct (round64_le q q HR (Qlt_le_weak _ _ Hp) (Qle_refl q)) as (r & E & _ & Hle).
  destruct (round64_ge q q HR (Qle_refl q)) as [Hinf | (r' & E' & Hge)];
    [congruence |].
  rewrite E in E'. injection E' as <-.
  rewrite E. f_equal. rewrite <- (round64_reduced q r E).
  apply Qred_complete. apply Qle_antisym; assumption.
Qed.


Lemma Qred_inject_Z (z : Z) : Qred (inject_Z z) = inject_Z z.
Proof. apply Qred_identity. simpl. apply Z.gcd_1_r. Qed.

(** The integers below [2 ^ 53] in magnitude are binary64 values. *)
Lemma of_Z_exact (z : Z) : (Z.abs z < 2 ^ 53)%Z -> of_Z z = Fin (inject_Z z).
Proof.
  intros H. unfold of_Z. destruct z as [| p | p].
  - reflexivity.
  - rewrite round64_exact by (apply representable_int; lia).
    rewrite Qred_inject_Z. reflexivity.
  - change (inject_Z (Zneg p)) with (- inject_Z (Zpos p)).
    rewrite round64_opp, round64_exact by (apply representable_int; lia).
    rewrite Qred_inject_Z. reflexivity.
Qed.

End JsNumberFacts.

Import JsNumberFacts.

(** ** The progress bar within its range *)

Section ProgressBar.

Local Open Scope Q_scope.

Lemma bar_counts_in_range (q : Q) :
  0 <= q -> q <= 100 ->
  exists F : Z,
    (0 <= F <= 40)%Z
    /\ bar_counts (Fin q) default_width
       = (Fin (inject_Z F), Fin (inject_Z (40 - F))).
Proof.
  intros H0 H100. unfold bar_counts.
  change (of_Z 100) with (Fin 100). change default_width with (Fin 40).
  unfold fdiv. change (is_zero 100) with false. cbv iota.
  assert (R1 : representable 1) by (apply (representable_int 1); lia).
  assert (R40 : representable 40) by (apply (representable_int 40); lia).
  destruct (round64_le (Qred (q / 100)) 1 R1) as (r1 & E1 & L1 & U1).
  { rewrite Qred_correct. apply Qle_shift_div_l; [reflexivity |]. lra. }
  { rewrite Qred_correct. apply Qle_shift_div_r; [reflexivity |]. lra. }
  rewrite E1. unfold fmul.
  destruct (round64_le (Qred (r1 * 40)) 40 R40) as (r2 & E2 & L2 & U2).
  { rewrite Qred_correct. lra. }
  { rewrite Qred_correct. lra. }
  rewrite E2. unfold Math_round.
  set (F := Qfloor (r2 + (1 # 2))).
  assert (HF : (0 <= F <= 40)%Z).
  { subst F. split.
    - change 0%Z with (Qfloor 0). apply Qfloor_resp_le. lra.
    - change 40%Z with (Qfloor (81 # 2)). apply Qfloor_resp_le. lra. }
  exists F. split; [exact HF |]. f_equal.
  unfold fsub.
  assert (E : Qred (40 - inject_Z F) = inject_Z (40 - F)).
  { rewrite <- (Qred_inject_Z (40 - F)). apply Qred_complete.
    unfold Zminus. rewrite inject_Z_plus, inject_Z_opp. reflexivity. }
  rewrite E. apply of_Z_exact. lia.
Qed.

Lemma repeat_count_nat (z : Z) :
  (0 <= z)%Z -> repeat_count (Fin (inject_Z z)) = Some (Z.to_nat z).
Proof.
  intros H. unfold repeat_count, is_neg. simpl Qnum.
  destruct (Z.ltb_spec z 0) as [Hn | Hn]; [lia |].
  rewrite Qfloor_Z. destruct (Z.ltb_spec z 0); [lia | reflexivity].
Qed.

(** Within the range of a percentage the bar has [width] glyphs and the
    function returns. *)
Lemma createProgressBar_in_range (q : Q) :
  0 <= q -> q <= 100 ->
  exists f e : nat,
    (f + e = 40)%nat
    /\ createProgressBar (Fin q) default_width
       = Some ("[" ++ repeat_string "█" f ++ repeat_string "░" e ++ "]")%string.
Proof.
  intros H0 H100.
  destruct (bar_counts_in_range q H0 H100) as (F & HF & E).
  unfold createProgressBar. rewrite E.
  rewrite !repeat_count_nat by lia.
  exists (Z.to_nat F), (Z.to_nat (40 - F)). split; [lia | reflexivity].
Qed.


(** A count that is a number below zero makes [repeat] raise. *)
Lemma repeat_count_negative (x : number) :
  (x = NegInf \/ exists r, x = Fin r /\ r <= -1) -> repeat_count x = None.
Proof.
  intros [-> | (r & -> & Hr)]; [reflexivity |].
  unfold repeat_count.
  assert (Hn : is_neg r = true).
  { unfold is_neg. apply Z.ltb_lt. destruct r as [a b].
    unfold Qle in Hr. simpl in *. lia. }
  rewrite Hn.
  assert (H1 : (1 <= Qfloor (- r))%Z).
  { change 1%Z with (Qfloor 1). apply Qfloor_resp_le. lra. }
  destruct (Z.ltb_spec (- Qfloor (- r)) 0); [reflexivity | lia].
Qed.

(** Rounding keeps a number at or below the negative of a representable
    one there. *)
Lemma round64_le_neg (q R : Q) :
  representable R -> q <= - R ->
  round64 q = NegInf \/ exists r, round64 q = Fin r /\ r <= - R.
Proof.
  intros HR Hq.
  assert (E : round64 q = neg (round64 (- q))).
  { rewrite round64_opp. destruct (round64 q) as [| | | r]; try reflexivity.
    simpl. rewrite Qopp_opp_eq. reflexivity. }
  rewrite E.
  destruct (round64_ge (- q) R HR) as [-> | (r & -> & Hr)]; [lra | left; reflexivity |].
  right. exists (- r). split; [reflexivity | lra].
Qed.

(** From 102 percent on, the second count is negative (or the first is
    infinite): the call raises. *)
Lemma createProgressBar_above (q : Q) :
  102 <= q -> createProgressBar (Fin q) default_width = None.
Proof.
  intros Hq. unfold createProgressBar, bar_counts.
  change (of_Z 100) with (Fin 100). change default_width with (Fin 40).
  unfold fdiv. change (is_zero 100) with false. cbv iota.
  assert (R1 : representable (65 # 64)).
  { exists 65%Z, (-6)%Z. split; [lia |]. split; [lia | reflexivity]. }
  assert (R2 : representable (325 # 8)).
  { exists 325%Z, (-3)%Z. split; [lia |]. split; [lia | reflexivity]. }
  assert (R3 : representable 1) by (apply (representable_int 1); lia).
  destruct (round64_ge (Qred (q / 100)) (65 # 64) R1) as [-> | (r1 & -> & H1)].
  { rewrite Qred_correct. apply Qle_shift_div_l; [reflexivity |]. lra. }
  { reflexivity. }
  unfold fmul.
  destruct (round64_ge (Qred (r1 * 40)) (325 # 8) R2) as [-> | (r2 & -> & H2)].
  { rewrite Qred_correct. lra. }
  { reflexivity. }
  unfold Math_round. set (F := Qfloor (r2 + (1 # 2))).
  assert (HF : (41 <= F)%Z).
  { subst F. change 41%Z with (Qfloor 41). apply Qfloor_resp_le. lra. }
  rewrite repeat_count_nat by lia.
  rewrite repeat_count_negative; [reflexivity |].
  unfold fsub.
  apply (round64_le_neg _ 1 R3). rewrite Qred_correct.
  assert (HF' : 41 <= inject_Z F) by (rewrite <- (Zle_Qle 41); exact HF).
  lra.
Qed.

(** Down from -2 percent, the first count is negative: the call raises. *)
Lemma createProgressBar_below (q : Q) :
  q <= -2 -> createProgressBar (Fin q) default_width = None.
Proof.
  intros Hq. unfold createProgressBar, bar_counts.
  change (of_Z 100) with (Fin 100). change default_width with (Fin 40).
  unfold fdiv. change (is_zero 100) with false. cbv iota.
  assert (R1 : representable (1 # 64)).
  { exists 1%Z, (-6)%Z. split; [lia |]. split; [lia | reflexivity]. }
  assert (R2 : representable (5 # 8)).
  { exists 5%Z, (-3)%Z. split; [lia |]. split; [lia | reflexivity]. }
  destruct (round64_le_neg (Qred (q / 100)) (1 # 64) R1) as [-> | (r1 & -> & H1)].
  { rewrite Qred_correct. apply Qle_shift_div_r; [reflexivity |]. lra. }
  { reflexivity. }
  unfold fmul.
  destruct (round64_le_neg (Qred (r1 * 40)) (5 # 8) R2) as [-> | (r2 & -> & H2)].
  { rewrite Qred_correct. lra. }
  { reflexivity. }
  unfold Math_round.
  rewrite repeat_count_negative; [reflexivity |].
  right. eexists. split; [reflexivity |].
  set (F := Qfloor (r2 + (1 # 2))).
  assert (HF : (F <= -1)%Z).
  { subst F. change (-1)%Z with (Qfloor (- (1 # 8))). apply Qfloor_resp_le. lra. }
  change (-1) with (inject_Z (-1)). rewrite <- Zle_Qle. exact HF.
Qed.

End ProgressBar.

(** ** Facts on characters *)

Ltac ascii_cases c :=
  destruct c as [[|] [|] [|] [|] [|] [|] [|] [|]]; try discriminate; try reflexivity.

Lemma digit_not_space (c : ascii) : is_digit c = true -> is_space c = false.
Proof. ascii_cases c. Qed.

Lemma space_not_bracket (c : ascii) : is_space c = true -> Ascii.eqb "[" c = false.
Proof. ascii_cases c. Qed.

Lemma digit_val_nonneg (c : ascii) : is_digit c = true -> 0 <= digit_val c.
Proof. ascii_cases c; intros _; vm_compute; discriminate. Qed.

(** ** The pattern of the percentage *)

(** A greedy repetition hands over a suffix of its input, shorter by at
    least its minimum, and its first character is in the class when the
    minimum is positive. *)
Lemma many_inv (cls : ascii -> bool) (p : list atom) (g r : string * string) :
  forall (s : string) (n : nat),
    match_here (Many cls n :: p) s g = Some r ->
    exists s',
      (String.length s' + n <= String.length s)%nat
      /\ (forall c t, s = String c t -> (0 < n)%nat -> cls c = true)
      /\ match_here p s' g = Some r.
Proof.
  induction s as [| c s IH]; intros n H.
  - simpl in H. destruct n; [| discriminate].
    exists "". split; [simpl; lia |]. split; [discriminate | exact H].
  - simpl in H. destruct (cls c) eqn:Ec.
    + match type of H with
      | match ?m with _ => _ end = _ => destruct m as [r' |] eqn:Em
      end.
      * injection H as ->.
        apply (IH (Nat.pred n)) in Em. destruct Em as (s' & Hl & _ & Hm).
        exists s'. split; [simpl; lia |]. split; [| exact Hm].
        intros c' t E _. injection E as -> ->. exact Ec.
      * destruct n; [| discriminate].
        exists (String c s). split; [simpl; lia |]. split; [lia | exact H].
    + destruct n; [| discriminate].
      exists (String c s). split; [simpl; lia |]. split; [lia | exact H].
Qed.

Lemma match_here_lit l p s g :
  match_here (Lit l :: p) s g =
  match strip_prefix l s with
  | Some s' => match_here p s' g
  | None => None
  end.
Proof. reflexivity. Qed.

Lemma match_here_open p s g :
  match_here (Open :: p) s g = match_here p s (s, snd g).
Proof. reflexivity. Qed.

Lemma match_here_close p s g :
  match_here (Close :: p) s g = match_here p s (fst g, s).
Proof. reflexivity. Qed.

Lemma opt_inv (c : ascii) (p : list atom) (s : string) (g r : string * string) :
  match_here (Opt c :: p) s g = Some r ->
  exists s', (String.length s' <= String.length s)%nat
             /\ match_here p s' g = Some r.
Proof.
  intros H. cbn [match_here] in H. destruct s as [| c' s'].
  - exists "". split; [lia | exact H].
  - destruct (Ascii.eqb c c').
    + destruct (match_here p s' g) as [r' |] eqn:Em.
      * injection H as ->. exists s'. split; [simpl; lia | exact Em].
      * exists (String c' s'). split; [lia | exact H].
    + exists (String c' s'). split; [lia | exact H].
Qed.

(** The group of the percentage pattern opens on a digit and is not
    empty. *)
Lemma download_group (s : string) (g0 g : string * string) :
  match_here download_re s g0 = Some g ->
  exists c t,
    fst g = String c t /\ is_digit c = true
    /\ (String.length (snd g) < String.length (fst g))%nat.
Proof.
  unfold download_re. intros H.
  rewrite match_here_lit in H.
  destruct (strip_prefix "[download]" s) as [s1 |]; [| discriminate].
  apply many_inv in H. destruct H as (s2 & _ & _ & H).
  rewrite match_here_open in H.
  apply many_inv in H. destruct H as (s3 & L3 & D3 & H).
  apply opt_inv in H. destruct H as (s4 & L4 & H).
  apply many_inv in H. destruct H as (s5 & L5 & _ & H).
  rewrite match_here_close, match_here_lit in H.
  destruct (strip_prefix "%" s5) as [s6 |]; [| discriminate].
  simpl in H. injection H as <-. cbn [fst snd].
  destruct s2 as [| c t]; [simpl in L3; lia |].
  exists c, t. split; [reflexivity |]. split; [apply (D3 c t eq_refl); lia |].
  simpl in *. lia.
Qed.

Lemma captured_digit (s cap : string) :
  regex_exec download_re s = Some cap ->
  exists c t, cap = String c t /\ is_digit c = true.
Proof.
  induction s as [| a s IH]; intros H.
  - simpl in H. discriminate.
  - cbn [regex_exec] in H.
    destruct (match_here download_re (String a s) (String a s, String a s))
      as [g |] eqn:Em.
    + injection H as <-. apply download_group in Em.
      destruct Em as (c & t & E1 & Hd & Hl).
      unfold captured. rewrite E1 in *.
      cbn [String.length] in Hl |- *.
      destruct (S (String.length t) - String.length (snd g))%nat
        as [| k] eqn:Ek; [lia |].
      exists c, (substring 0 k t). split; [reflexivity | exact Hd].
    + apply IH, H.
Qed.

(** A blank line does not match the percentage pattern. *)
Lemma blank_no_match (s : string) :
  blank s = true -> regex_exec download_re s = None.
Proof.
  induction s as [| c s IH]; intros H.
  - reflexivity.
  - simpl in H. apply andb_true_iff in H. destruct H as [Hc Hs].
    cbn [regex_exec]. rewrite (IH Hs).
    unfold download_re. cbn [match_here strip_prefix].
    rewrite (space_not_bracket c Hc). reflexivity.
Qed.

(** ** [parseFloat] on the captured text *)

Lemma read_digits_nonneg (s : string) :
  forall acc len v l r,
    0 <= acc -> read_digits s acc len = (v, l, r) -> 0 <= v /\ (len <= l)%nat.
Proof.
  induction s as [| c s IH]; intros acc len v l r Ha H.
  - simpl in H. injection H as <- <- <-. split; [exact Ha | lia].
  - simpl in H. destruct (is_digit c) eqn:Ec.
    + apply IH in H; [lia |]. pose proof (digit_val_nonneg c Ec). lia.
    + injection H as <- <- <-. split; [exact Ha | lia].
Qed.

Lemma read_fraction_nonneg (ilen : nat) (s : string) v l r :
  read_fraction ilen s = (v, l, r) -> 0 <= v.
Proof.
  unfold read_fraction. destruct s as [| c s]; [intros H; injection H as <- _ _; lia |].
  destruct (Ascii.eqb c "."); [| intros H; injection H as <- _ _; lia].
  destruct (read_digits s 0 0) as [[fp flen] rest] eqn:E.
  apply read_digits_nonneg in E; [| lia].
  destruct ilen, flen; intros H; injection H as <- _ _; lia.
Qed.

Lemma read_sign_digit (c : ascii) (t : string) :
  is_digit c = true -> read_sign (String c t) = (false, String c t).
Proof. ascii_cases c. Qed.

Lemma not_infinity_digit (c : ascii) (t : string) :
  is_digit c = true -> has_prefix "Infinity" (String c t) = false.
Proof. ascii_cases c. Qed.

Lemma pow10_nonneg (e : Z) : (0 <= pow10 e)%Q.
Proof.
  unfold pow10. destruct (0 <=? e).
  - rewrite <- (Zle_Qle 0). apply Z.pow_nonneg. lia.
  - unfold Qle. simpl. lia.
Qed.

Lemma round64_nonneg (q : Q) :
  (0 <= q)%Q ->
  round64 q = PosInf
  \/ exists r, round64 q = Fin r /\ (0 <= r)%Q /\ Qred r = r.
Proof.
  intros H. destruct (round64 q) as [| | | r] eqn:E.
  - exfalso. destruct q as [n d]. unfold round64 in E. simpl in E.
    destruct n; [discriminate | |];
      destruct (round64_pos _ _); discriminate.
  - left. reflexivity.
  - exfalso. destruct q as [n d]. unfold round64 in E. simpl in E.
    destruct n as [| a | a]; [discriminate | |].
    + destruct (round64_pos _ _); discriminate.
    + unfold Qle in H. simpl in H. lia.
  - right. exists r. split; [reflexivity |].
    split; [| eapply round64_reduced, E].
    destruct q as [n d]. unfold round64 in E. simpl in E.
    destruct n as [| a | a].
    + injection E as <-. apply Qle_refl.
    + rewrite round64_pos_unfold in E. destruct (_ || _); [discriminate |].
      injection E as <-. rewrite scale2_value. apply Qmult_le_0_compat.
      * rewrite <- (Zle_Qle 0). apply mantissa_nonneg.
      * apply Qlt_le_weak, pow2_pos.
    + exfalso. unfold Qle in H. simpl in H. lia.
Qed.

(** Text that opens on a digit parses to a number that is not negative. *)
Lemma parseFloat_digit (c : ascii) (t : string) :
  is_digit c = true ->
  parseFloat (String c t) = PosInf
  \/ exists q, parseFloat (String c t) = Fin q /\ (0 <= q)%Q /\ Qred q = q.
Proof.
  intros Hd. unfold parseFloat.
  cbn [skip_spaces]. rewrite (digit_not_space c Hd).
  rewrite (read_sign_digit c t Hd), (not_infinity_digit c t Hd).
  destruct (read_digits (String c t) 0 0) as [[ip ilen] rest] eqn:E1.
  assert (Hi : 0 <= ip /\ (1 <= ilen)%nat).
  { simpl in E1. rewrite Hd in E1.
    apply read_digits_nonneg in E1; [exact E1 |].
    pose proof (digit_val_nonneg c Hd). lia. }
  destruct (read_fraction ilen rest) as [[fp flen] rest'] eqn:E2.
  apply read_fraction_nonneg in E2.
  destruct ilen as [| ilen']; [lia |].
  apply round64_nonneg. rewrite Qred_correct.
  apply Qmult_le_0_compat; [| apply pow10_nonneg].
  unfold Qle. simpl. pose proof (Z.pow_nonneg 10 (Z.of_nat flen)). nia.
Qed.

(** The percentage of a line is a number from zero on. *)
Lemma line_percent_nonneg (line : string) (p : number) :
  line_percent line = Some p ->
  p = PosInf \/ exists q, p = Fin q /\ (0 <= q)%Q /\ Qred q = q.
Proof.
  unfold line_percent. destruct (regex_exec download_re line) as [cap |] eqn:E;
    [| discriminate].
  intros H. injection H as <-.
  destruct (captured_digit line cap E) as (c & t & -> & Hd).
  apply parseFloat_digit, Hd.
Qed.


(** ** One line of the handler *)

Lemma percents_app (a b : list event) :
  percents (a ++ b) = (percents a ++ percents b)%list.
Proof.
  induction a as [| e a IH]; [reflexivity |].
  destruct e; simpl; rewrite IH; reflexivity.
Qed.

Lemma later_rules_percents (st : state) (line : string) :
  percents (fst (later_rules st line)) = []
  /\ lastProgress (snd (later_rules st line)) = lastProgress st
  /\ isDownloading (snd (later_rules st line)) = isDownloading st.
Proof.
  unfold later_rules, destination_rule, completed_rule, merger_rule,
    cleanup_rule, metadata_rule.
  repeat match goal with
         | |- context [if ?b then _ else _] => destruct b
         end; simpl; auto.
Qed.

(** What the test of the percentage leaves behind, case by case. *)
Lemma progress_rule_cases (st : state) (line : string) :
  match regex_exec download_re line with
  | None => progress_rule st line = Some ([], st)
  | Some cap =>
      let p := parseFloat cap in
      if should_emit p (lastProgress st) then
        match createProgressBar p default_width with
        | None => progress_rule st line = None
        | Some bar =>
            progress_rule st line =
            Some ([Downloading p (status_line bar p line)],
                  mkState p true (isMerging st))
        end
      else
        progress_rule st line =
        Some ([], mkState (lastProgress st) true (isMerging st))
  end.
Proof.
  unfold progress_rule.
  destruct (regex_exec download_re line) as [cap |]; [| reflexivity].
  cbn [lastProgress isDownloading isMerging].
  destruct (should_emit (parseFloat cap) (lastProgress st)); [| reflexivity].
  destruct (createProgressBar (parseFloat cap) default_width); reflexivity.
Qed.

Lemma process_line_other (st : state) (line : string) :
  line_percent line = None ->
  exists evs st',
    process_line st line = (evs, Some st')
    /\ percents evs = [] /\ lastProgress st' = lastProgress st.
Proof.
  unfold line_percent. intros H.
  destruct (regex_exec download_re line) as [cap |] eqn:E; [discriminate |].
  unfold process_line. destruct (blank line).
  - exists [], st. auto.
  - pose proof (progress_rule_cases st line) as P. rewrite E in P. rewrite P.
    destruct (later_rules_percents st line) as (H1 & H2 & _).
    destruct (later_rules st line) as [e st'] eqn:El.
    exists ([] ++ e)%list, st'. simpl in *. auto.
Qed.

Lemma process_line_percent (st : state) (line : string) (q : Q) :
  line_percent line = Some (Fin q) -> (0 <= q)%Q -> (q <= 100)%Q ->
  exists evs st',
    process_line st line = (evs, Some st')
    /\ percents evs
       = (if should_emit (Fin q) (lastProgress st) then [Fin q] else [])
    /\ lastProgress st'
       = (if should_emit (Fin q) (lastProgress st) then Fin q
          else lastProgress st).
Proof.
  unfold line_percent. intros H H0 H100.
  destruct (regex_exec download_re line) as [cap |] eqn:E; [| discriminate].
  injection H as Hp.
  unfold process_line.
  destruct (blank line) eqn:Eb; [rewrite (blank_no_match line Eb) in E; discriminate |].
  pose proof (progress_rule_cases st line) as P. rewrite E in P.
  cbv zeta in P. rewrite Hp in P.
  destruct (createProgressBar_in_range q H0 H100) as (f & e & _ & Ebar).
  rewrite Ebar in P.
  destruct (should_emit (Fin q) (lastProgress st)); rewrite P.
  - match goal with
    | |- context [later_rules ?s line] =>
        destruct (later_rules_percents s line) as (H1 & H2 & _);
        destruct (later_rules s line) as [ev st'] eqn:El
    end.
    eexists _, st'. split; [reflexivity |].
    rewrite percents_app. simpl in *. rewrite H1. auto.
  - match goal with
    | |- context [later_rules ?s line] =>
        destruct (later_rules_percents s line) as (H1 & H2 & _);
        destruct (later_rules s line) as [ev st'] eqn:El
    end.
    eexists _, st'. split; [reflexivity |].
    simpl in *. auto.
Qed.


(** ** The lines of a run *)

Lemma process_lines_app (l1 l2 : list string) :
  forall st,
    process_lines st (l1 ++ l2) =
    match process_lines st l1 with
    | (ev, None) => (ev, None)
    | (ev, Some st') =>
        let (ev', r) := process_lines st' l2 in ((ev ++ ev')%list, r)
    end.
Proof.
  induction l1 as [| line l1 IH]; intros st.
  - simpl. destruct (process_lines st l2). reflexivity.
  - simpl. destruct (process_line st line) as [ev [st1 |]]; [| reflexivity].
    rewrite IH. destruct (process_lines st1 l1) as [ev1 [st2 |]]; [| reflexivity].
    destruct (process_lines st2 l2) as [ev2 r]. rewrite app_assoc. reflexivity.
Qed.

(** The chunks of a run are handled as the sequence of their lines. *)
Lemma classify_lines (chunks : list string) :
  forall st, classify st chunks = process_lines st (lines_of chunks).
Proof.
  induction chunks as [| data chunks IH]; intros st.
  - reflexivity.
  - unfold lines_of. simpl. fold (lines_of chunks).
    rewrite process_lines_app. unfold on_data.
    destruct (process_lines st (split_lines data)) as [ev [st1 |]]; [| reflexivity].
    rewrite IH. reflexivity.
Qed.

Lemma lines_of_app (c1 c2 : list string) :
  lines_of (c1 ++ c2) = (lines_of c1 ++ lines_of c2)%list.
Proof. unfold lines_of. apply flat_map_app. Qed.

Lemma split_from_newline (a b : string) :
  forall cur,
    split_from cur (a ++ nl ++ b) = (split_from cur a ++ split_from "" b)%list.
Proof.
  induction a as [| c a IH]; intros cur.
  - reflexivity.
  - simpl. destruct (Ascii.eqb c newline).
    + rewrite IH. reflexivity.
    + apply IH.
Qed.

Lemma split_lines_newline (a b : string) :
  split_lines (a ++ nl ++ b) = (split_lines a ++ split_lines b)%list.
Proof. apply split_from_newline. Qed.

Lemma split_lines_end (a : string) :
  split_lines (a ++ nl) = (split_lines a ++ [""])%list.
Proof. exact (split_lines_newline a ""). Qed.

Lemma split_lines_start (b : string) :
  split_lines (nl ++ b) = "" :: split_lines b.
Proof. reflexivity. Qed.

(** An empty line between two runs of lines changes nothing. *)
Lemma process_lines_empty_line (l1 l2 : list string) (st : state) :
  process_lines st (l1 ++ "" :: l2) = process_lines st (l1 ++ l2).
Proof.
  rewrite !process_lines_app.
  destruct (process_lines st l1) as [ev [st1 |]]; [| reflexivity].
  simpl. destruct (process_lines st1 l2). reflexivity.
Qed.

Lemma process_lines_empty_line2 (l0 l1 l2 : list string) (st : state) :
  process_lines st (l0 ++ l1 ++ "" :: l2) = process_lines st (l0 ++ l1 ++ l2).
Proof.
  rewrite !app_assoc. apply process_lines_empty_line.
Qed.

Lemma percent_in_range (line : string) (p : number) :
  line_percent line = Some p -> le p (of_Z 100) ->
  exists q, p = Fin q /\ (0 <= q)%Q /\ (q <= 100)%Q /\ Qred q = q.
Proof.
  intros H Hle.
  destruct (line_percent_nonneg line p H) as [-> | (q & -> & H0 & Hr)].
  - destruct Hle.
  - exists q. auto.
Qed.

Lemma should_emit_hundred (p last : number) :
  should_emit p last = false -> strict_eq p (of_Z 100) = false.
Proof. unfold should_emit. intros H. apply orb_false_iff in H. apply H. Qed.

(** Within the range of a percentage the handler does not raise, and the
    percentages it writes are those of the lines that pass the test of
    line 335. *)
Lemma process_lines_in_range (lines : list string) :
  forall st,
    Forall (fun p => le p (of_Z 100)) (input_percents lines) ->
    exists evs st',
      process_lines st lines = (evs, Some st')
      /\ subseq (percents evs) (input_percents lines)
      /\ count_hundred (percents evs) = count_hundred (input_percents lines)
      /\ deduplicated (lastProgress st) (percents evs).
Proof.
  induction lines as [| line lines IH]; intros st HF.
  - exists [], st. repeat split; constructor.
  - cbn [input_percents] in *. cbn [process_lines].
    destruct (line_percent line) as [p |] eqn:Ep.
    + inversion HF as [| ? ? Hp HF']; subst.
      destruct (percent_in_range line p Ep Hp) as (q & -> & H0 & H100 & _).
      destruct (process_line_percent st line q Ep H0 H100)
        as (ev & st1 & E1 & P1 & L1).
      rewrite E1.
      destruct (IH st1 HF') as (evs & st' & E2 & S2 & C2 & D2).
      rewrite E2. exists (ev ++ evs)%list, st'. split; [reflexivity |].
      rewrite percents_app, P1.
      destruct (should_emit (Fin q) (lastProgress st)) eqn:Es.
      * rewrite L1 in D2. cbn [app]. repeat split.
        -- apply subseq_take, S2.
        -- unfold count_hundred in *. cbn [filter].
           destruct (strict_eq (Fin q) (of_Z 100)); cbn [List.length]; congruence.
        -- exact Es.
        -- exact D2.
      * rewrite L1 in D2. cbn [app]. repeat split.
        -- apply subseq_skip, S2.
        -- unfold count_hundred in *. cbn [filter].
           rewrite (should_emit_hundred _ _ Es). exact C2.
        -- exact D2.
    + destruct (process_line_other st line Ep) as (ev & st1 & E1 & P1 & L1).
      rewrite E1.
      destruct (IH st1 HF) as (evs & st' & E2 & S2 & C2 & D2).
      rewrite E2. exists (ev ++ evs)%list, st'. split; [reflexivity |].
      rewrite percents_app, P1. rewrite L1 in D2. cbn [app]. auto.
Qed.

(** ** Order of the floors *)

Lemma number_le_trans (a b c : number) : le a b -> le b c -> le a c.
Proof.
  destruct a, b, c; simpl; try tauto. apply Qle_trans.
Qed.

Lemma floor_le_trans : Relation_Definitions.transitive number floor_le.
Proof. intros a b c. unfold floor_le. apply number_le_trans. Qed.

Lemma subseq_Forall {A : Type} (P : A -> Prop) (l1 l2 : list A) :
  subseq l1 l2 -> Forall P l2 -> Forall P l1.
Proof.
  induction 1; intros HF.
  - constructor.
  - inversion HF; subst. auto.
  - inversion HF; subst. constructor; auto.
Qed.

Lemma subseq_strongly_sorted {A : Type} (R : A -> A -> Prop) (l1 l2 : list A) :
  subseq l1 l2 -> StronglySorted R l2 -> StronglySorted R l1.
Proof.
  induction 1; intros HS.
  - constructor.
  - inversion HS; subst. auto.
  - inversion HS; subst. constructor; [auto |].
    eapply subseq_Forall; eauto.
Qed.

(** A subsequence of a sequence with non-decreasing floors has
    non-decreasing floors. *)
Lemma subseq_sorted (l1 l2 : list number) :
  subseq l1 l2 -> Sorted floor_le l2 -> Sorted floor_le l1.
Proof.
  intros Hs H. apply StronglySorted_Sorted.
  apply (subseq_strongly_sorted _ _ _ Hs).
  apply Sorted_StronglySorted; [exact floor_le_trans | exact H].
Qed.

(** ** The last percentage written *)

Lemma last_default {A : Type} (l : list A) (d d' : A) :
  l <> [] -> last l d = last l d'.
Proof.
  induction l as [| x l IH]; [congruence |]. intros _.
  destruct l as [| y l]; [reflexivity |].
  change (last (y :: l) d = last (y :: l) d'). apply IH. discriminate.
Qed.

Lemma last_append {A : Type} (a b : list A) (d : A) :
  last (a ++ b) d = last b (last a d).
Proof.
  induction a as [| x a IH]; [reflexivity |].
  destruct a as [| y a].
  - destruct b as [| z b]; [reflexivity |].
    change (last (z :: b) d = last (z :: b) x). apply last_default. discriminate.
  - change (last ((y :: a) ++ b) d = last b (last (y :: a) d)). exact IH.
Qed.

Lemma process_line_last (st : state) (line : string) evs st' :
  process_line st line = (evs, Some st') ->
  lastProgress st' = last (percents evs) (lastProgress st).
Proof.
  unfold process_line. destruct (blank line).
  - intros H. injection H as <- <-. reflexivity.
  - pose proof (progress_rule_cases st line) as P.
    destruct (regex_exec download_re line) as [cap |].
    + cbv zeta in P.
      destruct (should_emit (parseFloat cap) (lastProgress st)).
      * destruct (createProgressBar (parseFloat cap) default_width);
          rewrite P; [| discriminate].
        match goal with
        | |- context [later_rules ?s line] =>
            destruct (later_rules_percents s line) as (H1 & H2 & _);
            destruct (later_rules s line) as [ev st1]
        end.
        intros H. injection H as <- <-.
        simpl in *. rewrite H1. exact H2.
      * rewrite P.
        match goal with
        | |- context [later_rules ?s line] =>
            destruct (later_rules_percents s line) as (H1 & H2 & _);
            destruct (later_rules s line) as [ev st1]
        end.
        intros H. injection H as <- <-. simpl in *. rewrite H1. exact H2.
    + rewrite P.
      destruct (later_rules_percents st line) as (H1 & H2 & _).
      destruct (later_rules st line) as [ev st1].
      intros H. injection H as <- <-. simpl in *. rewrite H1. exact H2.
Qed.

Lemma process_lines_last (lines : list string) :
  forall st evs st',
    process_lines st lines = (evs, Some st') ->
    lastProgress st' = last (percents evs) (lastProgress st).
Proof.
  induction lines as [| line lines IH]; intros st evs st' H.
  - simpl in H. injection H as <- <-. reflexivity.
  - simpl in H. destruct (process_line st line) as [ev [st1 |]] eqn:E1;
      [| discriminate].
    destruct (process_lines st1 lines) as [ev' r] eqn:E2.
    injection H as <- ->.
    rewrite percents_app, last_append.
    rewrite (IH _ _ _ E2), (process_line_last _ _ _ _ E1). reflexivity.
Qed.

(** The state's [lastProgress] is the last percentage written in the
    run, and [-1] before the first. *)
Lemma classify_last (chunks : list string) evs st :
  classify initial chunks = (evs, Some st) ->
  lastProgress st = last (percents evs) (of_Z (-1)).
Proof.
  rewrite classify_lines. intros H.
  apply process_lines_last in H. exact H.
Qed.

Lemma In_percents (p : number) (evs : list event) :
  In p (percents evs) <-> exists text, In (Downloading p text) evs.
Proof.
  induction evs as [| e evs IH].
  - simpl. split; [tauto | intros (t & [])].
  - destruct e; simpl; rewrite IH; split;
      try (intros (t & H); exists t; auto; fail);
      try (intros (t & [H | H]); [discriminate | exists t; exact H]).
    + intros [<- | (t & H)]; [eexists; left; reflexivity | exists t; auto].
    + intros (t & [H | H]); [injection H as <- _; auto | right; exists t; exact H].
Qed.


(** ** The flags *)

Lemma guarded_weaken (evs : list event) :
  forall m d m' d',
    guarded m d evs ->
    (m' = true -> m = true) -> (d' = true -> d = true) ->
    guarded m' d' evs.
Proof.
  induction evs as [| e evs IH]; intros m d m' d' H Hm Hd; [exact I |].
  destruct e; simpl in *.
  - apply (IH m true); auto.
  - destruct H as [H1 H2]. split; [destruct d'; auto; rewrite Hd in H1; auto |].
    eapply IH; eauto.
  - destruct H as [H1 H2]. split; [destruct m'; auto; rewrite Hm in H1; auto |].
    eapply IH; eauto.
  - destruct H as [H1 H2]. split; [destruct m'; auto; rewrite Hm in H1; auto |].
    eapply IH; eauto.
  - eapply IH; eauto.
  - eapply IH; eauto.
Qed.

Lemma guarded_app (a b : list event) :
  forall m d,
    guarded m d a ->
    guarded (m || existsb is_merging a) (d || existsb is_downloading a) b ->
    guarded m d (a ++ b).
Proof.
  induction a as [| e a IH]; intros m d Ha Hb.
  - simpl in *. rewrite !orb_false_r in Hb. exact Hb.
  - destruct e; simpl in *.
    + apply IH; [exact Ha |]. rewrite orb_true_l. 
      eapply guarded_weaken; [exact Hb | | ]; intros H; auto.
      rewrite orb_true_r. reflexivity.
    + destruct Ha as [H1 H2]. split; [exact H1 |]. apply IH; auto.
    + destruct Ha as [H1 H2]. split; [exact H1 |]. apply IH; auto.
    + destruct Ha as [H1 H2]. split; [exact H1 |]. apply IH; [exact H2 |].
      rewrite orb_true_l. eapply guarded_weaken; [exact Hb | |]; intros H; auto.
      rewrite orb_true_r. reflexivity.
    + apply IH; auto.
    + apply IH; auto.
Qed.

Lemma guarded_after_merging (evs : list event) (d : bool) :
  guarded true d evs -> ~ In Merging evs /\ ~ In DownloadCompleted evs.
Proof.
  revert d. induction evs as [| e evs IH]; intros d H.
  - split; intros [].
  - assert (K : forall d', guarded true d' evs ->
                ~ In Merging (e :: evs) /\ ~ In DownloadCompleted (e :: evs)
                \/ e = Merging \/ e = DownloadCompleted).
    { intros d' H'. apply IH in H'. destruct H' as [H1 H2].
      destruct e; auto; left; split; intros [E | E]; try discriminate; auto. }
    destruct e; simpl in H;
      try (destruct H as [H _]; discriminate);
      try (destruct H as [_ H]);
      (destruct (K _ H) as [K' | [K' | K']]; [exact K' | discriminate ..]).
Qed.

Lemma guarded_after_downloading (evs : list event) (m : bool) :
  guarded m true evs -> ~ In Initialized evs.
Proof.
  revert m. induction evs as [| e evs IH]; intros m H.
  - intros [].
  - destruct e; simpl in H;
      try (destruct H as [H _]; discriminate);
      try (destruct H as [_ H]);
      (apply IH in H; intros [E | E]; [discriminate | auto]).
Qed.

Lemma guarded_split_merging (l1 l2 : list event) :
  forall m d,
    guarded m d (l1 ++ Merging :: l2) ->
    ~ In Merging l2 /\ ~ In DownloadCompleted l2.
Proof.
  induction l1 as [| e l1 IH]; intros m d H.
  - simpl in H. destruct H as [_ H]. eapply guarded_after_merging, H.
  - destruct e; simpl in H; try (destruct H as [_ H]); eapply IH, H.
Qed.

Lemma guarded_split_downloading (l1 l2 : list event) (e : event) :
  forall m d,
    is_downloading e = true ->
    guarded m d (l1 ++ e :: l2) -> ~ In Initialized l2.
Proof.
  induction l1 as [| x l1 IH]; intros m d He H.
  - destruct e; try discriminate. simpl in H.
    eapply guarded_after_downloading, H.
  - destruct x; simpl in H; try (destruct H as [_ H]); eapply IH; eauto.
Qed.

(** One line keeps the guards and moves the flags forward only. *)
Lemma later_rules_flags (st : state) (line : string) :
  let (ev, st') := later_rules st line in
  guarded (isMerging st) (isDownloading st) ev
  /\ StronglySorted rank_lt ev
  /\ Forall (fun e => (2 <= rule_rank e)%nat) ev
  /\ (isDownloading st = true -> ~ In Initialized ev)
  /\ isMerging st' = isMerging st || existsb is_merging ev
  /\ isDownloading st' = isDownloading st.
Proof.
  unfold later_rules, destination_rule, completed_rule, merger_rule,
    cleanup_rule, metadata_rule, rank_lt.
  destruct st as [lp d m]. cbn [isMerging isDownloading lastProgress].
  set (b1 := includes line "[download] Destination:").
  set (b2 := includes line "[download] 100%"
             || includes line "has already been downloaded").
  set (b3 := includes line "[Merger]" || includes line "[ffmpeg]").
  set (b4 := includes line "Deleting original file").
  set (b5 := includes line "[EmbedThumbnail]" || includes line "[Metadata]").
  clearbody b1 b2 b3 b4 b5.
  destruct b1, d, m, b2, b3, b4, b5; cbn;
    (split; [auto |]);
    (split; [repeat constructor |]);
    (split; [repeat constructor |]);
    (split; [try discriminate; intros _ H; repeat (destruct H as [H | H]; [discriminate |]); exact H |]);
    split; reflexivity.
Qed.

Lemma existsb_app_merging (a b : list event) :
  existsb is_merging (a ++ b) = existsb is_merging a || existsb is_merging b.
Proof. apply existsb_app. Qed.

(** The events of one line, with the state before it. *)
Lemma process_line_flags (st : state) (line : string) :
  let (ev, r) := process_line st line in
  guarded (isMerging st) (isDownloading st) ev
  /\ StronglySorted rank_lt ev
  /\ ~ (existsb is_downloading ev = true /\ In Initialized ev)
  /\ match r with
     | Some st' =>
         isMerging st' = isMerging st || existsb is_merging ev
         /\ (isDownloading st || existsb is_downloading ev = true ->
             isDownloading st' = true)
     | None => ev = []
     end.
Proof.
  unfold process_line. destruct (blank line).
  - cbn. rewrite !orb_false_r.
    split; [exact I |]. split; [constructor |].
    split; [intros [H _]; discriminate |]. split; [reflexivity | tauto].
  - pose proof (progress_rule_cases st line) as P.
    destruct (regex_exec download_re line) as [cap |].
    + cbv zeta in P.
      destruct (should_emit (parseFloat cap) (lastProgress st)).
      * destruct (createProgressBar (parseFloat cap) default_width) as [bar |];
          rewrite P.
        -- match goal with
           | |- context [later_rules ?s line] =>
               pose proof (later_rules_flags s line) as L;
               destruct (later_rules s line) as [ev st']
           end.
           cbn [isMerging isDownloading] in L.
           destruct L as (G & S & F & I & M & D).
           cbn [app]. repeat split.
           ++ cbn. exact G.
           ++ constructor; [exact S |].
              eapply Forall_impl; [| exact F]. unfold rank_lt. cbn. lia.
           ++ intros [_ [H | H]]; [discriminate | exact (I eq_refl H)].
           ++ cbn. exact M.
           ++ intros _. exact D.
        -- cbn. split; [exact I |]. split; [constructor |].
           split; [intros [H _]; discriminate | reflexivity].
      * rewrite P.
        match goal with
        | |- context [later_rules ?s line] =>
            pose proof (later_rules_flags s line) as L;
            destruct (later_rules s line) as [ev st']
        end.
        cbn [isMerging isDownloading] in L.
        destruct L as (G & S & F & I & M & D).
        cbn [app]. repeat split.
        -- eapply guarded_weaken; [exact G | auto | auto].
        -- exact S.
        -- intros [_ H]. exact (I eq_refl H).
        -- exact M.
        -- intros _. exact D.
    + rewrite P.
      pose proof (later_rules_flags st line) as L.
      destruct (later_rules st line) as [ev st'].
      destruct L as (G & S & F & I & M & D).
      cbn [app]. repeat split.
      * exact G.
      * exact S.
      * intros [H _]. clear - F H. induction ev as [| e ev IH]; [discriminate |].
        inversion F; subst. destruct e; cbn in *; try lia; auto.
      * exact M.
      * rewrite D. intros H. apply orb_true_iff in H. destruct H as [H | H]; [exact H |].
        exfalso. clear - F H. induction ev as [| e ev IH]; [discriminate |].
        inversion F; subst. destruct e; cbn in *; try lia; auto.
Qed.

(** The events of a run of lines keep the guards, from any state. *)
Lemma process_lines_flags (lines : list string) :
  forall st,
    let (evs, r) := process_lines st lines in
    guarded (isMerging st) (isDownloading st) evs
    /\ match r with
       | Some st' => isMerging st' = isMerging st || existsb is_merging evs
       | None => True
       end.
Proof.
  induction lines as [| line lines IH]; intros st.
  - cbn. rewrite orb_false_r. auto.
  - cbn [process_lines].
    pose proof (process_line_flags st line) as L.
    destruct (process_line st line) as [ev [st1 |]].
    + destruct L as (G & _ & _ & M & D).
      specialize (IH st1). destruct (process_lines st1 lines) as [evs r].
      destruct IH as [G' M']. split.
      * apply guarded_app; [exact G |].
        eapply guarded_weaken; [exact G' | |].
        -- rewrite M. auto.
        -- exact D.
      * destruct r as [st' |]; [| exact I].
        rewrite M', M, existsb_app_merging, orb_assoc. reflexivity.
    + destruct L as (G & _). split; [exact G | exact I].
Qed.


(** ** [Math.log] at an integer

    The value of [Math.log] at a byte count is followed through the
    algorithm with an interval for every intermediate result: a
    rounding keeps a number between two binary64 values there, and
    moves a number of magnitude at most 1 by at most [2 ^ -51]. *)

(** Values of [Math.log], as [String] prints them: powers of two, the
    three branches of the reduced argument, a subnormal argument, the
    quotient of [Math.log(1000)] by [Math.log(10)], and the arguments
    with no logarithm. *)
Lemma Math_log_values :
  to_string (Math_log (of_Z 2)) = "0.6931471805599453"
  /\ to_string (Math_log (of_Z 10)) = "2.302585092994046"
  /\ to_string (Math_log (of_Z 1000)) = "6.907755278982137"
  /\ to_string (Math_log (of_Z 1024)) = "6.931471805599453"
  /\ to_string (Math_log (of_Z 1234567)) = "14.02623085927966"
  /\ to_string (Math_log (of_Z 2097153)) = "14.556091268595896"
  /\ to_string (Math_log (of_Z 45)) = "3.8066624897703196"
  /\ to_string (Math_log (of_Z 363)) = "5.8944028342648505"
  /\ to_string (Math_log (Fin (1 # 2))) = "-0.6931471805599453"
  /\ to_string (Math_log (Fin (3 # 2))) = "0.4054651081081644"
  /\ to_string (Math_log (Fin (45 # 32))) = "0.3409265869705932"
  /\ to_string (Math_log (Fin (1073741825 # 1073741824)))
     = "9.313225741817976e-10"
  /\ to_string (Math_log (Fin (scale2 1 (-1074)))) = "-744.4400719213812"
  /\ to_string (fdiv (Math_log (of_Z 1000)) (Math_log (of_Z 10)))
     = "2.9999999999999996"
  /\ Math_log (of_Z 1) = of_Z 0
  /\ Math_log (of_Z 0) = NegInf
  /\ Math_log (of_Z (-1)) = NaN
  /\ Math_log PosInf = PosInf.
Proof. vm_compute. repeat split; reflexivity. Qed.

Section Rounding.

Local Open Scope Q_scope.

Lemma round64_zero (q : Q) : q == 0 -> round64 q = Fin 0.
Proof.
  intros H. destruct q as [n d]. unfold Qeq in H. simpl in H.
  assert (n = 0%Z) by lia. subst n. reflexivity.
Qed.

Lemma bound_opp (R : Q) : bound R -> bound (- R).
Proof.
  intros [H | [H | H]].
  - left. rewrite H. reflexivity.
  - right. right.
    destruct H as (N & E & HN & HE & HR). exists N, E.
    split; [exact HN |]. split; [exact HE |]. rewrite <- HR. ring.
  - right. left. exact H.
Qed.

Lemma round64_in_nonneg (q lo hi : Q) :
  bound lo -> bound hi -> 0 <= q -> lo <= q -> q <= hi ->
  exists r, round64 q = Fin r /\ lo <= r /\ r <= hi /\ 0 <= r.
Proof.
  intros Hlo Hhi H0 Hl Hu.
  assert (Hup : exists r, round64 q = Fin r /\ 0 <= r /\ r <= hi).
  { destruct Hhi as [Hz | [Hr | Hr]].
    - exists 0. split; [apply round64_zero; lra |]. lra.
    - apply round64_le; assumption.
    - apply representable_pos in Hr. lra. }
  destruct Hup as (r & E & Hr0 & Hrh). exists r.
  split; [exact E |]. split; [| split; assumption].
  destruct Hlo as [Hz | [Hr | Hr]].
  - lra.
  - destruct (round64_ge q lo Hr Hl) as [Hi | (r' & E' & Hr')]; [congruence |].
    rewrite E in E'. injection E' as <-. exact Hr'.
  - apply representable_pos in Hr. lra.
Qed.

(** Rounding keeps a number between two binary64 values there. *)
Lemma round64_in (q lo hi : Q) :
  bound lo -> bound hi -> lo <= q -> q <= hi ->
  exists r, round64 q = Fin r /\ lo <= r /\ r <= hi.
Proof.
  intros Hlo Hhi Hl Hu. destruct (Qlt_le_dec q 0) as [Hneg | Hpos].
  - destruct (round64_in_nonneg (- q) (- hi) (- lo))
      as (r & E & H1 & H2 & _);
      [apply bound_opp, Hhi | apply bound_opp, Hlo | lra | lra | lra |].
    rewrite round64_opp in E.
    destruct (round64 q) as [| | | r']; try discriminate.
    simpl in E. injection E as E. exists r'. split; [reflexivity |].
    rewrite <- E in H1, H2. lra.
  - destruct (round64_in_nonneg q lo hi) as (r & E & H1 & H2 & _);
      try assumption.
    exists r. auto.
Qed.

Lemma round64_sign (q : Q) (r : Q) :
  round64 q = Fin r -> (0 <= q -> 0 <= r) /\ (q <= 0 -> r <= 0).
Proof.
  intros E. split; intros H.
  - destruct (round64_nonneg q H) as [Hi | (r' & E' & H' & _)]; [congruence |].
    rewrite E in E'. injection E' as <-. exact H'.
  - destruct (round64_nonneg (- q)) as [Hi | (r' & E' & H' & _)]; [lra | |].
    + rewrite round64_opp, E in Hi. discriminate.
    + rewrite round64_opp, E in E'. simpl in E'. injection E' as E'.
      rewrite <- E' in H'. lra.
Qed.

Lemma pow2_1000 : representable (2 ^ 1000).
Proof.
  exists (2 ^ 29)%Z, 971%Z. split; [lia |]. split; [lia |].
  rewrite (pow2_inject 29) by lia. rewrite <- pow2_add. reflexivity.
Qed.

(** The rounding error of a positive number is at most one unit in the
    last place. *)
Lemma round64_pos_near (a b : positive) (r : Q) :
  round64_pos (Zpos a) (Zpos b) = Some r ->
  let q := Zpos a # b in
  q - (q * 2 ^ (-52) + 2 ^ (-1074)) <= r
  /\ r <= q + (q * 2 ^ (-52) + 2 ^ (-1074)).
Proof.
  rewrite round64_pos_unfold. destruct (_ || _); [discriminate |].
  intros E. injection E as <-. intros q.
  set (e := ulp_exp (Zpos a) (Zpos b)).
  set (m := mantissa (Zpos a) (Zpos b)).
  rewrite scale2_value.
  pose proof (pow2_pos e) as He. pose proof (pow2_cancel e) as Hc.
  assert (Hu : 2 ^ e <= q * 2 ^ (-52) + 2 ^ (-1074)).
  { destruct (ilog2_spec a b) as [HL _]. fold q in HL.
    set (L := ilog2 (Zpos a) (Zpos b)) in *.
    pose proof (pow2_pos (-1074)) as H1. pose proof (pow2_pos (-52)) as H2.
    pose proof (pow2_pos (L - 52)) as H3.
    assert (H4 : 2 ^ (L - 52) == 2 ^ L * 2 ^ (-52)).
    { rewrite <- pow2_add. replace (L + -52)%Z with (L - 52)%Z by lia.
      reflexivity. }
    assert (H5 : 2 ^ L * 2 ^ (-52) <= q * 2 ^ (-52))
      by (apply Qmult_le_compat_r; [exact HL | lra]).
    subst e. unfold ulp_exp. fold L.
    destruct (Z.max_spec (L - 52) (-1074)) as [[_ ->] | [_ ->]]; lra. }
  set (K := Qfloor (q * 2 ^ (- e))).
  assert (HK1 : inject_Z K <= q * 2 ^ (- e)) by apply Qfloor_le.
  assert (HK2 : q * 2 ^ (- e) < inject_Z (K + 1)) by apply Qlt_floor.
  rewrite inject_Z_plus in HK2. change (inject_Z 1) with 1 in HK2.
  pose proof (pow2_pos (- e)) as Hne.
  assert (Hq : q == q * 2 ^ (- e) * 2 ^ e).
  { rewrite <- Qmult_assoc, (Qmult_comm (2 ^ (- e))), Hc. ring. }
  assert (Hm1 : (K <= m)%Z).
  { apply mantissa_ge. fold e. fold q. rewrite Hq.
    apply Qmult_le_compat_r; [exact HK1 | lra]. }
  assert (Hm2 : (m <= K + 1)%Z).
  { apply mantissa_le. fold e. fold q. rewrite Hq at 1.
    apply Qmult_le_compat_r; [| lra].
    rewrite inject_Z_plus. change (inject_Z 1) with 1. lra. }
  rewrite Zle_Qle in Hm1, Hm2.
  rewrite inject_Z_plus in Hm2. change (inject_Z 1) with 1 in Hm2.
  assert (G1 : (q * 2 ^ (- e) - 1) * 2 ^ e <= inject_Z m * 2 ^ e)
    by (apply Qmult_le_compat_r; lra).
  assert (G2 : inject_Z m * 2 ^ e <= (q * 2 ^ (- e) + 1) * 2 ^ e)
    by (apply Qmult_le_compat_r; lra).
  assert (G3 : (q * 2 ^ (- e) - 1) * 2 ^ e == q - 2 ^ e)
    by (rewrite Hq at 2; ring).
  assert (G4 : (q * 2 ^ (- e) + 1) * 2 ^ e == q + 2 ^ e)
    by (rewrite Hq at 2; ring).
  lra.
Qed.

(** The rounding error of a number of magnitude at most [c]. *)
Lemma round64_near (q c : Q) :
  - c <= q -> q <= c -> c <= 2 ^ 1000 ->
  exists r,
    round64 q = Fin r
    /\ q - (c * 2 ^ (-52) + 2 ^ (-1074)) <= r
    /\ r <= q + (c * 2 ^ (-52) + 2 ^ (-1074)).
Proof.
  intros Hl Hu Hc.
  pose proof (pow2_pos (-52)) as H52. pose proof (pow2_pos (-1074)) as H74.
  assert (Hpos : forall a b,
            (Zpos a # b) <= c ->
            exists r, round64_pos (Zpos a) (Zpos b) = Some r
                      /\ (Zpos a # b) - (c * 2 ^ (-52) + 2 ^ (-1074)) <= r
                      /\ r <= (Zpos a # b) + (c * 2 ^ (-52) + 2 ^ (-1074))).
  { intros a b Hab.
    destruct (round64_pos_le a b (2 ^ 1000) pow2_1000) as (r & E & _);
      [lra |].
    exists r. split; [exact E |].
    destruct (round64_pos_near a b r E) as [G1 G2].
    assert (G3 : (Zpos a # b) * 2 ^ (-52) <= c * 2 ^ (-52))
      by (apply Qmult_le_compat_r; lra).
    lra. }
  destruct q as [n d]. unfold round64. simpl Qnum. simpl Qden.
  destruct n as [| a | a].
  - exists 0. split; [reflexivity |].
    assert (0 <= c) by (unfold Qle in *; simpl in *; lia).
    assert (0 <= c * 2 ^ (-52)) by (apply Qmult_le_0_compat; lra).
    assert ((0 # d) == 0) by reflexivity. lra.
  - destruct (Hpos a d Hu) as (r & -> & G1 & G2). exists r. auto.
  - assert (Hn : (Zneg a # d) == - (Zpos a # d)) by reflexivity.
    destruct (Hpos a d) as (r & -> & G1 & G2); [lra |].
    exists (- r). split; [reflexivity |]. lra.
Qed.

End Rounding.

Section LogSteps.

Local Open Scope Q_scope.

Local Notation "'u'" := (1 # 2251799813685248).

Lemma unit_error : 1 * 2 ^ (-52) + 2 ^ (-1074) <= u.
Proof. apply Qle_bool_imp_le. vm_compute. reflexivity. Qed.

(** One rounding of a number of magnitude at most 1. *)
Lemma fl1 (q : Q) :
  -1 <= q -> q <= 1 ->
  exists r,
    round64 (Qred q) = Fin r /\ q - u <= r /\ r <= q + u
    /\ (0 <= q -> 0 <= r) /\ (q <= 0 -> r <= 0).
Proof.
  intros Hl Hu.
  destruct (round64_near (Qred q) 1) as (r & E & H1 & H2);
    try (rewrite Qred_correct); try lra.
  rewrite Qred_correct in H1, H2. pose proof unit_error as Hu'.
  exists r. split; [exact E |]. split; [lra |]. split; [lra |].
  destruct (round64_sign _ _ E) as [S1 S2]. rewrite Qred_correct in S1, S2.
  split; assumption.
Qed.

Lemma bound_pow2 (e : Z) : (-1074 <= e <= 971)%Z -> bound (2 ^ e).
Proof.
  intros H. right. left. exists 1%Z, e. split; [lia |]. split; [exact H |].
  change (inject_Z 1) with 1. ring.
Qed.

(** One rounding, between two binary64 values. *)
Lemma fl_in (q lo hi : Q) :
  bound lo -> bound hi -> lo <= q -> q <= hi ->
  exists r, round64 (Qred q) = Fin r /\ lo <= r /\ r <= hi.
Proof.
  intros Hlo Hhi H1 H2. apply round64_in; try assumption;
    rewrite Qred_correct; assumption.
Qed.

Lemma Qmul_box (x y X Y : Q) :
  0 <= x -> x <= X -> 0 <= y -> y <= Y -> 0 <= x * y /\ x * y <= X * Y.
Proof. intros. split; nra. Qed.

Lemma bound_zero : bound 0.
Proof. left. reflexivity. Qed.

Lemma bound_eq (x y : Q) : x == y -> bound x -> bound y.
Proof.
  intros E [H | [(N & e & H1 & H2 & H3) | (N & e & H1 & H2 & H3)]].
  - left. rewrite <- E. exact H.
  - right. left. exists N, e. rewrite <- E. auto.
  - right. right. exists N, e. rewrite <- E. auto.
Qed.

Lemma fmul_box (x y X Y hi : Q) (e : Z) :
  0 <= x -> x <= X -> 0 <= y -> y <= Y -> X * Y <= hi ->
  hi == 2 ^ e -> (-1074 <= e <= 971)%Z ->
  exists r, fmul (Fin x) (Fin y) = Fin r /\ 0 <= r /\ r <= hi.
Proof.
  intros H1 H2 H3 H4 H5 H6 H7.
  destruct (Qmul_box x y X Y H1 H2 H3 H4) as [G1 G2].
  apply fl_in; [apply bound_zero | | lra | lra].
  apply (bound_eq (2 ^ e)); [symmetry; exact H6 | apply bound_pow2, H7].
Qed.

Lemma fadd_box (x y X Y hi : Q) (e : Z) :
  0 <= x -> x <= X -> 0 <= y -> y <= Y -> X + Y <= hi ->
  hi == 2 ^ e -> (-1074 <= e <= 971)%Z ->
  exists r, fadd (Fin x) (Fin y) = Fin r /\ 0 <= r /\ r <= hi.
Proof.
  intros H1 H2 H3 H4 H5 H6 H7.
  apply fl_in; [apply bound_zero | | lra | lra].
  apply (bound_eq (2 ^ e)); [symmetry; exact H6 | apply bound_pow2, H7].
Qed.

Lemma Lg_values :
  exists l1 l2 l3 l4 l5 l6 l7,
    Lg1 = Fin l1 /\ Lg2 = Fin l2 /\ Lg3 = Fin l3 /\ Lg4 = Fin l4
    /\ Lg5 = Fin l5 /\ Lg6 = Fin l6 /\ Lg7 = Fin l7
    /\ (0 <= l1 /\ l1 <= 3 # 4) /\ (0 <= l2 /\ l2 <= 1 # 2)
    /\ (0 <= l3 /\ l3 <= 1 # 2) /\ (0 <= l4 /\ l4 <= 1 # 2)
    /\ (0 <= l5 /\ l5 <= 1 # 2) /\ (0 <= l6 /\ l6 <= 1 # 2)
    /\ (0 <= l7 /\ l7 <= 1 # 2).
Proof.
  do 7 eexists. repeat (split; [reflexivity |]).
  repeat split; apply Qle_bool_imp_le; vm_compute; reflexivity.
Qed.

Ltac box_step L r H1 H2 :=
  let E := fresh "E" in
  destruct L as (r & E & H1 & H2);
  [try assumption; try lra; try reflexivity; try lia ..
  | rewrite E; clear E].

(** The polynomial part is between 0 and 1/8 for [s] within 1/4 of
    zero. *)
Lemma log_poly_box (sv : Q) :
  - (1 # 4) <= sv -> sv <= 1 # 4 ->
  exists rv, log_poly (Fin sv) = Fin rv /\ 0 <= rv /\ rv <= 1 # 8.
Proof.
  intros Hl Hu. unfold log_poly.
  destruct Lg_values
    as (l1 & l2 & l3 & l4 & l5 & l6 & l7 & -> & -> & -> & -> & -> & -> & ->
        & [A1 B1] & [A2 B2] & [A3 B3] & [A4 B4] & [A5 B5] & [A6 B6] & [A7 B7]).
  destruct (fl_in (sv * sv) 0 (1 # 16)) as (z & E & Z1 & Z2);
    [apply bound_zero | apply (bound_pow2 (-4)); lia | nra | nra |].
  change (round64 (Qred (sv * sv))) with (fmul (Fin sv) (Fin sv)) in E.
  cbv zeta. rewrite E. clear E.
  box_step (fmul_box z z (1 # 16) (1 # 16) (1 # 256) (-8)) w W1 W2.
  box_step (fmul_box w l6 (1 # 256) (1 # 2) (1 # 256) (-8)) p6 P1 P2.
  box_step (fadd_box l4 p6 (1 # 2) (1 # 256) 1 0) a4 P3 P4.
  box_step (fmul_box w a4 (1 # 256) 1 (1 # 256) (-8)) p4 P5 P6.
  box_step (fadd_box l2 p4 (1 # 2) (1 # 256) 1 0) a2 P7 P8.
  box_step (fmul_box w a2 (1 # 256) 1 (1 # 256) (-8)) t1 T1 T2.
  box_step (fmul_box w l7 (1 # 256) (1 # 2) (1 # 256) (-8)) p7 Q1 Q2.
  box_step (fadd_box l5 p7 (1 # 2) (1 # 256) 1 0) a5 Q3 Q4.
  box_step (fmul_box w a5 (1 # 256) 1 (1 # 256) (-8)) p5 Q5 Q6.
  box_step (fadd_box l3 p5 (1 # 2) (1 # 256) 1 0) a3 Q7 Q8.
  box_step (fmul_box w a3 (1 # 256) 1 (1 # 256) (-8)) p3 Q9 Q10.
  box_step (fadd_box l1 p3 (3 # 4) (1 # 256) 1 0) a1 Q11 Q12.
  box_step (fmul_box z a1 (1 # 16) 1 (1 # 16) (-4)) t2 T3 T4.
  box_step (fadd_box t2 t1 (1 # 16) (1 # 256) (1 # 8) (-3)) rv R1 R2.
  exists rv. auto.
Qed.

End LogSteps.

Section LogTail.

Local Open Scope Q_scope.

Local Notation "'u'" := (1 # 2251799813685248).

Lemma is_zero_pos (d : Q) : 0 < d -> is_zero d = false.
Proof.
  intros H. unfold is_zero. apply Z.eqb_neq. intros E.
  destruct d as [n m]. simpl in E. subst n. unfold Qlt in H. simpl in H. lia.
Qed.

Lemma Qdiv_box (x d c : Q) :
  0 <= x -> 0 < c -> c <= d -> 0 <= x / d /\ x / d <= x / c.
Proof.
  intros Hx Hc Hd.
  assert (Hd0 : 0 < d) by lra.
  split.
  - apply Qle_shift_div_l; [exact Hd0 | lra].
  - apply Qle_shift_div_r; [exact Hd0 |].
    assert (E : x / c * d == x * (d / c)) by (field; lra).
    rewrite E.
    assert (1 <= d / c) by (apply Qle_shift_div_l; lra).
    nra.
Qed.

(** The last two subtractions of the shape [x - b - f]. *)
Lemma tail_steps (x b fv : Q) :
  0 <= b -> b <= 1 # 1048576 ->
  - (3 # 10) <= fv -> fv <= 27 # 64 ->
  - (1 # 16) <= x -> x <= 1 # 8 ->
  (fv <= 0 -> 0 <= x) ->
  (0 <= fv -> x <= fv * (1 # 4) + (1 # 1125899906842624)) ->
  exists eps,
    fsub (fsub (Fin x) (Fin b)) (Fin fv) = Fin eps
    /\ - (1 # 2) <= eps /\ eps <= 1 # 2
    /\ ((1 # 281474976710656) <= fv -> eps <= - b - fv * (1 # 4))
    /\ (fv <= - (1 # 281474976710656) -> - b - fv * (1 # 4) <= eps).
Proof.
  intros B1 B2 F1 F2 X1 X2 X3 X4.
  destruct (fl1 (x - b)) as (r1 & E1 & L1 & U1 & _); [lra | lra |].
  unfold fsub at 2. rewrite E1.
  destruct (fl1 (r1 - fv)) as (eps & E2 & L2 & U2 & _); [lra | lra |].
  unfold fsub. rewrite E2. exists eps. split; [reflexivity |].
  destruct (Qlt_le_dec fv 0) as [Hn | Hp].
  - specialize (X3 ltac:(lra)). repeat split; intros; lra.
  - specialize (X4 Hp). repeat split; intros; lra.
Qed.

Lemma third_value :
  exists th, third = Fin th /\ 0 <= th /\ th <= 11 # 32.
Proof.
  eexists. split; [reflexivity |].
  split; apply Qle_bool_imp_le; vm_compute; reflexivity.
Qed.

(** The correction term of the branch for [|f| < 2 ^ -20]. *)
Lemma tiny_X (fv : Q) :
  - (3 # 10) <= fv -> fv <= 27 # 64 ->
  exists x,
    fmul (fmul (Fin fv) (Fin fv)) (fsub half (fmul third (Fin fv))) = Fin x
    /\ 0 <= x /\ x <= 1 # 8
    /\ (0 <= fv -> x <= fv * (1 # 4) + (1 # 1125899906842624)).
Proof.
  intros F1 F2. destruct third_value as (th & -> & T1 & T2).
  assert (P1 : - (33 # 320) <= th * fv /\ th * fv <= 1 # 6) by (split; nra).
  destruct (fl1 (th * fv)) as (r1 & E1 & L1 & U1 & S1 & _); [lra | lra |].
  unfold fmul at 3. rewrite E1. unfold half.
  destruct (fl1 ((1 # 2) - r1)) as (c & E2 & L2 & U2 & _); [lra | lra |].
  unfold fsub. rewrite E2.
  assert (P2 : 0 <= fv * fv /\ fv * fv <= 729 # 4096) by (split; nra).
  destruct (fl1 (fv * fv)) as (ff & E3 & L3 & U3 & S3 & _); [lra | lra |].
  unfold fmul at 2. rewrite E3. specialize (S3 ltac:(lra)).
  assert (C1 : 1 # 4 <= c) by lra. assert (C2 : c <= 5 # 8) by lra.
  assert (P3 : 0 <= ff * c /\ ff * c <= (1 # 8) - u) by (split; nra).
  destruct (fl1 (ff * c)) as (x & E4 & L4 & U4 & S4 & _); [lra | lra |].
  unfold fmul. rewrite E4. exists x. split; [reflexivity |].
  split; [apply S4; lra |]. split; [lra |].
  intros Hp. specialize (S1 ltac:(nra)).
  assert (C3 : c <= (1 # 2) + u) by lra.
  assert (P4 : fv * fv <= (27 # 64) * fv) by nra.
  assert (P5 : ff * c <= ff * ((1 # 2) + u)) by nra.
  lra.
Qed.

Lemma bound_dyadic (q : Q) (N e : Z) :
  (0 < N < 2 ^ 53)%Z -> (-1074 <= e <= 971)%Z -> q == inject_Z N * 2 ^ e ->
  bound q.
Proof. intros H1 H2 H3. right. left. exists N, e. auto. Qed.

(** [s = f / (2 + f)] *)
Lemma s_value (fv : Q) :
  - (3 # 10) <= fv -> fv <= 27 # 64 ->
  exists sv,
    fdiv (Fin fv) (fadd two (Fin fv)) = Fin sv
    /\ (0 <= fv -> 0 <= sv /\ sv <= fv * (1 # 2) + u)
    /\ (fv <= 0 -> sv <= 0 /\ fv * (16 # 27) - u <= sv).
Proof.
  intros F1 F2. unfold two, fadd.
  destruct (Qlt_le_dec fv 0) as [Hn | Hp].
  - destruct (fl_in (2 + fv) (27 # 16) 2) as (d & E & D1 & D2);
      [apply (bound_dyadic _ 27 (-4)); [lia | lia | reflexivity]
      | apply (bound_pow2 1); lia | lra | lra |].
    rewrite E. unfold fdiv. rewrite is_zero_pos by lra.
    destruct (Qdiv_box (- fv) d (27 # 16)) as [G1 G2]; [lra | lra | lra |].
    assert (G3 : - fv / d == - (fv / d)) by (field; lra).
    assert (G4 : - fv / (27 # 16) == - (fv * (16 # 27))) by field.
    destruct (fl1 (fv / d)) as (sv & E1 & L1 & U1 & _ & S2); [lra | lra |].
    rewrite E1. exists sv. split; [reflexivity |]. split; [intros; lra |].
    intros _. split; [apply S2; lra | lra].
  - destruct (fl_in (2 + fv) 2 4) as (d & E & D1 & D2);
      [apply (bound_pow2 1); lia | apply (bound_pow2 2); lia | lra | lra |].
    rewrite E. unfold fdiv. rewrite is_zero_pos by lra.
    destruct (Qdiv_box fv d 2) as [G1 G2]; [lra | lra | lra |].
    assert (G4 : fv / 2 == fv * (1 # 2)) by field.
    destruct (fl1 (fv / d)) as (sv & E1 & L1 & U1 & S1 & S2); [lra | lra |].
    rewrite E1. exists sv. split; [reflexivity |].
    split; [intros _; split; [apply S1; lra | lra] |].
    intros Hz. split; [apply S2; lra | lra].
Qed.

(** The correction term [s * (f - R)]. *)
Lemma normal_X (fv sv rv : Q) :
  - (3 # 10) <= fv -> fv <= 27 # 64 ->
  (0 <= fv -> 0 <= sv /\ sv <= fv * (1 # 2) + u) ->
  (fv <= 0 -> sv <= 0 /\ fv * (16 # 27) - u <= sv) ->
  0 <= rv -> rv <= 1 # 8 ->
  exists x,
    fmul (Fin sv) (fsub (Fin fv) (Fin rv)) = Fin x
    /\ - (1 # 16) <= x /\ x <= 1 # 8
    /\ (fv <= 0 -> 0 <= x)
    /\ (0 <= fv -> x <= fv * (1 # 4) + (1 # 1125899906842624)).
Proof.
  intros F1 F2 SP SN R1 R2.
  destruct (fl1 (fv - rv)) as (g & E1 & L1 & U1 & _ & G2); [lra | lra |].
  unfold fsub. rewrite E1. unfold fmul.
  destruct (Qlt_le_dec fv 0) as [Hn | Hp].
  - destruct (SN ltac:(lra)) as [S1 S2]. specialize (G2 ltac:(lra)).
    assert (P : 0 <= sv * g /\ sv * g <= 1 # 10) by (split; nra).
    destruct (fl1 (sv * g)) as (x & E2 & L2 & U2 & X1 & _); [lra | lra |].
    rewrite E2. exists x. split; [reflexivity |].
    repeat split; intros; lra.
  - destruct (SP Hp) as [S1 S2].
    assert (P1 : sv * g <= sv * ((27 # 64) + u)) by nra.
    assert (P2 : sv * (- (1 # 8) - u) <= sv * g) by nra.
    destruct (fl1 (sv * g)) as (x & E2 & L2 & U2 & X1 & _); [lra | lra |].
    rewrite E2. exists x. split; [reflexivity |].
    repeat split; intros; lra.
Qed.

(** The correction of the branch for [f] near [sqrt 2 - 1] and
    [sqrt 2 / 2 - 1]. *)
Lemma special_eps (fv sv rv b : Q) :
  - (3 # 10) <= fv -> fv <= 27 # 64 ->
  (0 <= fv -> 0 <= sv /\ sv <= fv * (1 # 2) + u) ->
  (fv <= 0 -> sv <= 0 /\ fv * (16 # 27) - u <= sv) ->
  0 <= rv -> rv <= 1 # 8 ->
  0 <= b -> b <= 1 # 1048576 ->
  fv <= - (9 # 32) \/ 3 # 8 <= fv ->
  exists eps,
    fsub
      (fsub (fmul (fmul half (Fin fv)) (Fin fv))
         (fadd (fmul (Fin sv)
                  (fadd (fmul (fmul half (Fin fv)) (Fin fv)) (Fin rv)))
            (Fin b)))
      (Fin fv)
    = Fin eps
    /\ - (1 # 2) <= eps /\ eps <= 1 # 2
    /\ (0 <= fv -> eps <= - (1 # 4))
    /\ (fv <= 0 -> 1 # 4 <= eps).
Proof.
  intros F1 F2 SP SN R1 R2 B1 B2 Hf. unfold half.
  destruct (fl1 ((1 # 2) * fv)) as (h1 & E1 & L1 & U1 & _); [lra | lra |].
  change (fmul (Fin (1 # 2)) (Fin fv)) with (round64 (Qred ((1 # 2) * fv))).
  rewrite E1.
  assert (P1 : (1 # 2) * (fv * fv) - u <= h1 * fv
               /\ h1 * fv <= (1 # 2) * (fv * fv) + u) by (split; nra).
  assert (P0 : 0 <= fv * fv /\ fv * fv <= 729 # 4096) by (split; nra).
  destruct (fl1 (h1 * fv)) as (H & E2 & L2 & U2 & _); [lra | lra |].
  change (fmul (Fin h1) (Fin fv)) with (round64 (Qred (h1 * fv))).
  rewrite E2.
  destruct (fl1 (H + rv)) as (q1 & E3 & L3 & U3 & _); [lra | lra |].
  change (fadd (Fin H) (Fin rv)) with (round64 (Qred (H + rv))).
  rewrite E3.
  destruct Hf as [Hn | Hp].
  - destruct (SN ltac:(lra)) as [S1 S2].
    assert (P2 : 81 # 1024 <= fv * fv) by nra.
    assert (P3 : - (1 # 25) <= sv * q1 /\ sv * q1 <= 0) by (split; nra).
    destruct (fl1 (sv * q1)) as (S & E4 & L4 & U4 & _ & X4); [lra | lra |].
    change (fmul (Fin sv) (Fin q1)) with (round64 (Qred (sv * q1))).
    rewrite E4. specialize (X4 ltac:(lra)).
    destruct (fl1 (S + b)) as (q2 & E5 & L5 & U5 & _); [lra | lra |].
    change (fadd (Fin S) (Fin b)) with (round64 (Qred (S + b))).
    rewrite E5.
    destruct (fl1 (H - q2)) as (q3 & E6 & L6 & U6 & _); [lra | lra |].
    change (fsub (Fin H) (Fin q2)) with (round64 (Qred (H - q2))).
    rewrite E6.
    destruct (fl1 (q3 - fv)) as (eps & E7 & L7 & U7 & _); [lra | lra |].
    change (fsub (Fin q3) (Fin fv)) with (round64 (Qred (q3 - fv))).
    rewrite E7. exists eps. split; [reflexivity |].
    repeat split; intros; lra.
  - destruct (SP ltac:(lra)) as [S1 S2].
    assert (P2 : 9 # 64 <= fv * fv) by nra.
    assert (P3 : 0 <= sv * q1 /\ sv * q1 <= 3 # 64) by (split; nra).
    destruct (fl1 (sv * q1)) as (S & E4 & L4 & U4 & X4 & _); [lra | lra |].
    change (fmul (Fin sv) (Fin q1)) with (round64 (Qred (sv * q1))).
    rewrite E4. specialize (X4 ltac:(lra)).
    destruct (fl1 (S + b)) as (q2 & E5 & L5 & U5 & _); [lra | lra |].
    change (fadd (Fin S) (Fin b)) with (round64 (Qred (S + b))).
    rewrite E5.
    destruct (fl1 (H - q2)) as (q3 & E6 & L6 & U6 & _); [lra | lra |].
    change (fsub (Fin H) (Fin q2)) with (round64 (Qred (H - q2))).
    rewrite E6.
    destruct (fl1 (q3 - fv)) as (eps & E7 & L7 & U7 & _); [lra | lra |].
    change (fsub (Fin q3) (Fin fv)) with (round64 (Qred (q3 - fv))).
    rewrite E7. exists eps. split; [reflexivity |].
    repeat split; intros; lra.
Qed.

End LogTail.

Section LogReduced.

Local Open Scope Q_scope.

Local Notation "'u'" := (1 # 2251799813685248).

Lemma log_reduced_unfold (k hx : Z) (f : number) :
  log_reduced k hx f =
  let dk := of_Z k in
  if ((hx <=? 0) || (1048574 <=? hx))%Z then
    if strict_eq f (Fin 0) then
      if (k =? 0)%Z then Fin 0
      else fadd (fmul dk ln2_hi) (fmul dk ln2_lo)
    else
      let R := fmul (fmul f f) (fsub half (fmul third f)) in
      if (k =? 0)%Z then fsub f R
      else fsub (fmul dk ln2_hi) (fsub (fsub R (fmul dk ln2_lo)) f)
  else
    let s := fdiv f (fadd two f) in
    let R := log_poly s in
    if ((398458 <=? hx) && (hx <=? 440401))%Z then
      let hfsq := fmul (fmul half f) f in
      if (k =? 0)%Z then fsub f (fsub hfsq (fmul s (fadd hfsq R)))
      else fsub (fmul dk ln2_hi)
             (fsub (fsub hfsq (fadd (fmul s (fadd hfsq R)) (fmul dk ln2_lo))) f)
    else
      if (k =? 0)%Z then fsub f (fmul s (fsub f R))
      else fsub (fmul dk ln2_hi)
             (fsub (fsub (fmul s (fsub f R)) (fmul dk ln2_lo)) f).
Proof. reflexivity. Qed.

(** The value of [log_reduced] for [k <> 0]: the high part of
    [k * ln 2] minus a correction [eps] that is near
    [- (k * ln2_lo + log (1 + f))]. *)
Lemma log_reduced_tail (k hx : Z) (fv a b : Q) :
  k <> 0%Z ->
  fmul (of_Z k) ln2_hi = Fin a -> fmul (of_Z k) ln2_lo = Fin b ->
  0 <= b -> b <= 1 # 1048576 ->
  - (3 # 10) <= fv -> fv <= 27 # 64 ->
  ((398458 <= hx <= 440401)%Z -> fv <= - (9 # 32) \/ 3 # 8 <= fv) ->
  exists eps,
    log_reduced k hx (Fin fv) = round64 (Qred (a - eps))
    /\ - (1 # 2) <= eps /\ eps <= 1 # 2
    /\ ((1 # 281474976710656) <= fv -> eps <= - b - fv * (1 # 4))
    /\ (fv <= - (1 # 281474976710656) -> - b - fv * (1 # 4) <= eps).
Proof.
  intros Hk HA HB B1 B2 F1 F2 Hs.
  rewrite log_reduced_unfold. cbv zeta. rewrite HA, HB.
  apply Z.eqb_neq in Hk. rewrite Hk.
  destruct ((hx <=? 0)%Z || (1048574 <=? hx)%Z).
  - destruct (strict_eq (Fin fv) (Fin 0)) eqn:E0.
    + apply Qeq_bool_iff in E0. exists (- b). split.
      * unfold fadd. f_equal. apply Qred_complete. ring.
      * repeat split; intros; lra.
    + destruct (tiny_X fv F1 F2) as (x & -> & X1 & X2 & X3).
      destruct (tail_steps x b fv) as (eps & -> & H); try assumption; try lra.
      exists eps. split; [reflexivity | exact H].
  - destruct (s_value fv F1 F2) as (sv & -> & SP & SN).
    assert (S4 : - (1 # 4) <= sv /\ sv <= 1 # 4).
    { destruct (Qlt_le_dec fv 0) as [Hn | Hp].
      - destruct (SN ltac:(lra)). lra.
      - destruct (SP Hp). lra. }
    destruct (log_poly_box sv) as (rv & -> & R1 & R2); [lra | lra |].
    destruct ((398458 <=? hx)%Z && (hx <=? 440401)%Z) eqn:Es.
    + apply andb_true_iff in Es. destruct Es as [E1 E2].
      apply Z.leb_le in E1, E2. specialize (Hs (conj E1 E2)).
      destruct (special_eps fv sv rv b) as (eps & -> & G1 & G2 & G3 & G4);
        try assumption.
      exists eps. split; [reflexivity |].
      repeat split; intros; lra.
    + destruct (normal_X fv sv rv) as (x & -> & X1 & X2 & X3 & X4);
        try assumption.
      destruct (tail_steps x b fv) as (eps & -> & H); try assumption.
      exists eps. split; [reflexivity | exact H].
Qed.

(** The two parts of [k * ln 2]: the high part is exact. *)
Lemma ln2_parts (k : Z) :
  (1 <= k <= 1024)%Z ->
  exists a b,
    fmul (of_Z k) ln2_hi = Fin a /\ fmul (of_Z k) ln2_lo = Fin b
    /\ a == inject_Z k * (2977044471 # 4294967296)
    /\ 0 <= b /\ b <= 1 # 1048576.
Proof.
  intros Hk. rewrite of_Z_exact by lia.
  assert (Hq : 1 <= inject_Z k /\ inject_Z k <= 1024).
  { split; [rewrite <- (Zle_Qle 1) | rewrite <- (Zle_Qle _ 1024)]; lia. }
  assert (Hh : exists h, ln2_hi = Fin h /\ h == 2977044471 # 4294967296).
  { eexists. split; [reflexivity |]. vm_compute. reflexivity. }
  assert (Hl : exists l, ln2_lo = Fin l /\ 0 <= l /\ l <= 1 # 4294967296).
  { eexists. split; [reflexivity |].
    split; apply Qle_bool_imp_le; vm_compute; reflexivity. }
  destruct Hh as (h & -> & Eh). destruct Hl as (l & -> & L1 & L2).
  destruct (fl_in (inject_Z k * h)
              (inject_Z k * (2977044471 # 4294967296))
              (inject_Z k * (2977044471 # 4294967296)))
    as (a & EA & A1 & A2).
  - apply (bound_dyadic _ (k * 2977044471) (-32)); [lia | lia |].
    rewrite inject_Z_mult.
    assert (E : 2977044471 # 4294967296 == inject_Z 2977044471 * 2 ^ (-32))
      by reflexivity.
    rewrite E. ring.
  - apply (bound_dyadic _ (k * 2977044471) (-32)); [lia | lia |].
    rewrite inject_Z_mult.
    assert (E : 2977044471 # 4294967296 == inject_Z 2977044471 * 2 ^ (-32))
      by reflexivity.
    rewrite E. ring.
  - rewrite Eh. lra.
  - rewrite Eh. lra.
  - assert (P : 0 <= inject_Z k * l /\ inject_Z k * l <= 1024 * (1 # 4294967296))
      by (split; nra).
    destruct (fl_in (inject_Z k * l) 0 (1 # 1048576)) as (b & EB & B1 & B2);
      [apply bound_zero | apply (bound_pow2 (-20)); lia | lra | lra |].
    exists a, b. unfold fmul. rewrite EA, EB.
    split; [reflexivity |]. split; [reflexivity |].
    split; [lra |]. split; assumption.
Qed.

End LogReduced.

Section LogInt.

Local Open Scope Q_scope.

Lemma ilog2_int (n : Z) : (1 <= n)%Z -> ilog2 n 1 = Z.log2 n.
Proof.
  intros H. unfold ilog2. change (Z.log2 1) with 0%Z. rewrite Z.sub_0_r.
  pose proof (Z.log2_nonneg n) as H0.
  destruct (Z.log2_spec n ltac:(lia)) as [H1 _].
  rewrite Z.max_r by lia. rewrite Z.max_l by lia.
  rewrite Z.pow_0_r, Z.mul_1_r, Z.mul_1_l.
  destruct (Z.leb_spec (2 ^ Z.log2 n) n); [reflexivity | lia].
Qed.

(** [Math.log] of an integer from 2 on: the argument is [(1 + phi) * 2 ^ k]
    with [phi] between [sqrt 2 / 2 - 1] and [sqrt 2 - 1], and the value is
    the rounded [a - eps] for the high part [a] of [k * ln 2]. *)
Lemma Math_log_int (n : Z) :
  (2 <= n < 2 ^ 1024)%Z ->
  exists (k : Z) (phi fv a b eps : Q),
    ((k = Z.log2 n /\ 0 <= phi) \/ (k = (Z.log2 n + 1)%Z /\ phi < 0))
    /\ inject_Z n == (1 + phi) * 2 ^ k
    /\ round64 (Qred phi) = Fin fv
    /\ fmul (of_Z k) ln2_hi = Fin a /\ fmul (of_Z k) ln2_lo = Fin b
    /\ a == inject_Z k * (2977044471 # 4294967296)
    /\ 0 <= b /\ b <= 1 # 1048576
    /\ Math_log (Fin (inject_Z n)) = round64 (Qred (a - eps))
    /\ - (1 # 2) <= eps /\ eps <= 1 # 2
    /\ ((1 # 281474976710656) <= fv -> eps <= - b - fv * (1 # 4))
    /\ (fv <= - (1 # 281474976710656) -> - b - fv * (1 # 4) <= eps).
Proof.
  intros Hn.
  assert (Hz : is_zero (inject_Z n) = false) by (apply Z.eqb_neq; simpl; lia).
  assert (Hneg : is_neg (inject_Z n) = false) by (apply Z.ltb_ge; simpl; lia).
  unfold Math_log. rewrite Hz, Hneg. unfold log_positive.
  change (Qnum (inject_Z n)) with n. change (Zpos (Qden (inject_Z n))) with 1%Z.
  rewrite ilog2_int by lia.
  destruct (Z.log2_spec n ltac:(lia)) as [L1 L2].
  assert (He : (1 <= Z.log2 n <= 1023)%Z).
  { split.
    - change 1%Z with (Z.log2 2). apply Z.log2_le_mono. lia.
    - assert (Z.log2 n < 1024)%Z by (apply Z.log2_lt_pow2; lia). lia. }
  set (e := Z.log2 n) in *.
  pose proof (pow2_pos e) as Pe.
  assert (Q1 : 2 ^ e <= inject_Z n).
  { rewrite <- pow2_inject by lia. rewrite <- Zle_Qle. exact L1. }
  assert (Q2 : inject_Z n < 2 * 2 ^ e).
  { assert (E : 2 * 2 ^ e == 2 ^ (Z.succ e)).
    { replace (Z.succ e) with (1 + e)%Z by lia. rewrite pow2_add. reflexivity. }
    rewrite E. rewrite <- pow2_inject by lia. rewrite <- Zlt_Qlt. exact L2. }
  set (m := Qred (inject_Z n / 2 ^ e)).
  assert (Hm : m == inject_Z n / 2 ^ e) by apply Qred_correct.
  assert (Hm' : inject_Z n == m * 2 ^ e) by (rewrite Hm; field; lra).
  assert (M1 : 1 <= m) by (rewrite Hm; apply Qle_shift_div_l; lra).
  assert (M2 : m < 2) by (rewrite Hm; apply Qlt_shift_div_r; lra).
  set (hx := Qfloor ((m - 1) * 2 ^ 20)).
  assert (X1 : inject_Z hx <= (m - 1) * 1048576) by apply Qfloor_le.
  assert (X2 : (m - 1) * 1048576 < inject_Z hx + 1).
  { pose proof (Qlt_floor ((m - 1) * 2 ^ 20)) as H. fold hx in H.
    rewrite inject_Z_plus in H. exact H. }
  destruct (Z.leb_spec 434332 hx) as [Hhi | Hlo].
  - (* the argument is halved *)
    rewrite Zle_Qle in Hhi. change (inject_Z 434332) with 434332 in Hhi.
    set (phi := Qred (m / 2) - 1).
    assert (Hp : phi == m * (1 # 2) - 1).
    { unfold phi. rewrite Qred_correct. field. }
    destruct (ln2_parts (e + 1)) as (a & b & HA & HB & Ea & B1 & B2); [lia |].
    destruct (fl_in phi (- (19 # 64)) 0) as (fv & Ef & F1 & F2);
      [apply bound_opp, (bound_dyadic _ 19 (-6)); [lia | lia | reflexivity]
      | apply bound_zero | lra | lra |].
    destruct (log_reduced_tail (e + 1) hx fv a b) as (eps & Er & H);
      try assumption; try lia; try lra.
    { intros [_ Hs]. left. rewrite Zle_Qle in Hs.
      change (inject_Z 440401) with 440401 in Hs.
      destruct (fl_in phi (- (19 # 64)) (- (9 # 32))) as (fv' & Ef' & _ & F3);
        [apply bound_opp, (bound_dyadic _ 19 (-6)); [lia | lia | reflexivity]
        | apply bound_opp, (bound_dyadic _ 9 (-5)); [lia | lia | reflexivity]
        | lra | lra |].
      rewrite Ef in Ef'. injection Ef' as <-. exact F3. }
    exists (e + 1)%Z, phi, fv, a, b, eps.
    split; [right; split; [reflexivity | lra] |].
    split.
    { rewrite Hm', Hp. rewrite pow2_add. change (2 ^ 1) with 2. ring. }
    split; [exact Ef |]. split; [exact HA |]. split; [exact HB |].
    split; [exact Ea |]. split; [exact B1 |]. split; [exact B2 |].
    split; [| exact H].
    rewrite <- Er. unfold fsub. fold phi. rewrite Ef. reflexivity.
  - (* the argument is kept *)
    rewrite Zlt_Qlt in Hlo. change (inject_Z 434332) with 434332 in Hlo.
    set (phi := m - 1).
    destruct (ln2_parts e) as (a & b & HA & HB & Ea & B1 & B2); [lia |].
    destruct (fl_in phi 0 (27 # 64)) as (fv & Ef & F1 & F2);
      [apply bound_zero
      | apply (bound_dyadic _ 27 (-6)); [lia | lia | reflexivity]
      | unfold phi; lra | unfold phi; lra |].
    destruct (log_reduced_tail e hx fv a b) as (eps & Er & H);
      try assumption; try lia; try lra.
    { intros [Hs _]. right. rewrite Zle_Qle in Hs.
      change (inject_Z 398458) with 398458 in Hs.
      destruct (fl_in phi (3 # 8) (27 # 64)) as (fv' & Ef' & F3 & _);
        [apply (bound_dyadic _ 3 (-3)); [lia | lia | reflexivity]
        | apply (bound_dyadic _ 27 (-6)); [lia | lia | reflexivity]
        | unfold phi; lra | unfold phi; lra |].
      rewrite Ef in Ef'. injection Ef' as <-. exact F3. }
    exists e, phi, fv, a, b, eps.
    split; [left; split; [reflexivity | unfold phi; lra] |].
    split; [transitivity (m * 2 ^ e); [exact Hm' | unfold phi; ring] |].
    split; [exact Ef |]. split; [exact HA |]. split; [exact HB |].
    split; [exact Ea |]. split; [exact B1 |]. split; [exact B2 |].
    split; [| exact H].
    rewrite <- Er. unfold fsub. fold phi. rewrite Ef, Z.add_0_r. reflexivity.
Qed.

End LogInt.

Section LogBounds.

Local Open Scope Q_scope.

Lemma ln2_hi_shift (k : Z) (c : Z) :
  inject_Z k * (2977044471 # 4294967296) + inject_Z c * (1 # 2)
  == inject_Z (k * 2977044471 + c * 2147483648) * 2 ^ (-32).
Proof.
  rewrite inject_Z_plus, !inject_Z_mult.
  change (2 ^ (-32)) with (1 # 4294967296).
  change (inject_Z 2977044471) with (2977044471 # 1).
  change (inject_Z 2147483648) with (2147483648 # 1).
  assert (E1 : 2977044471 # 4294967296 == (2977044471 # 1) * (1 # 4294967296))
    by reflexivity.
  assert (E2 : 1 # 2 == (2147483648 # 1) * (1 # 4294967296)) by reflexivity.
  rewrite E1, E2. ring.
Qed.

(** [Math.log] of an integer from 2 on is within 1/2 of the high part of
    [k * ln 2]; away from a power of two it is on the side of
    [Math.log (2 ^ k)] that the argument is on. *)
Lemma Math_log_bounds (n : Z) :
  (2 <= n < 2 ^ 1024)%Z ->
  exists (k : Z) (phi a b r : Q),
    ((k = Z.log2 n /\ 0 <= phi) \/ (k = (Z.log2 n + 1)%Z /\ phi < 0))
    /\ inject_Z n == (1 + phi) * 2 ^ k
    /\ fmul (of_Z k) ln2_hi = Fin a /\ fmul (of_Z k) ln2_lo = Fin b
    /\ Math_log (Fin (inject_Z n)) = Fin r
    /\ inject_Z k * (2977044471 # 4294967296) - (1 # 2) <= r
    /\ r <= inject_Z k * (2977044471 # 4294967296) + (1 # 2)
    /\ (forall t lo,
          representable t -> (1 # 281474976710656) <= t -> t <= phi ->
          bound lo -> lo <= a + b + t * (1 # 4) -> lo <= r)
    /\ (forall t hi,
          representable t -> (1 # 281474976710656) <= t -> phi <= - t ->
          bound hi -> a + b - t * (1 # 4) <= hi -> r <= hi).
Proof.
  intros Hn.
  destruct (Math_log_int n Hn)
    as (k & phi & fv & a & b & eps & Hc & En & Ef & HA & HB & Ea & B1 & B2
        & Er & G1 & G2 & G3 & G4).
  assert (He : (1 <= Z.log2 n <= 1023)%Z).
  { split.
    - change 1%Z with (Z.log2 2). apply Z.log2_le_mono. lia.
    - assert (Z.log2 n < 1024)%Z by (apply Z.log2_lt_pow2; lia). lia. }
  assert (Hk : (1 <= k <= 1024)%Z) by (destruct Hc as [[-> _] | [-> _]]; lia).
  set (h := 2977044471 # 4294967296) in *.
  assert (Blo : bound (inject_Z k * h - (1 # 2))).
  { apply (bound_dyadic _ (k * 2977044471 + (-1) * 2147483648) (-32));
      [lia | lia |].
    rewrite <- ln2_hi_shift. fold h. change (inject_Z (-1)) with (- (1)). ring. }
  assert (Bhi : bound (inject_Z k * h + (1 # 2))).
  { apply (bound_dyadic _ (k * 2977044471 + 1 * 2147483648) (-32));
      [lia | lia |].
    rewrite <- ln2_hi_shift. fold h. change (inject_Z 1) with 1. ring. }
  destruct (fl_in (a - eps) (inject_Z k * h - (1 # 2)) (inject_Z k * h + (1 # 2)))
    as (r & Err & R1 & R2); [exact Blo | exact Bhi | lra | lra |].
  exists k, phi, a, b, r.
  split; [exact Hc |]. split; [exact En |]. split; [exact HA |].
  split; [exact HB |]. split; [rewrite Er; exact Err |].
  split; [exact R1 |]. split; [exact R2 |]. split.
  - intros t lo Ht T1 T2 Hlo Hle.
    assert (Hfv : t <= fv).
    { destruct (round64_ge (Qred phi) t Ht) as [Hi | (r' & E' & Hr')].
      - rewrite Qred_correct. exact T2.
      - congruence.
      - rewrite Ef in E'. injection E' as <-. exact Hr'. }
    specialize (G3 ltac:(lra)).
    destruct (fl_in (a - eps) lo (inject_Z k * h + (1 # 2)))
      as (r' & E' & R3 & _); [exact Hlo | exact Bhi | lra | lra |].
    rewrite Err in E'. injection E' as <-. exact R3.
  - intros t hi Ht T1 T2 Hhi Hle.
    assert (Hfv : fv <= - t).
    { destruct (round64_ge (- Qred phi) t Ht) as [Hi | (r' & E' & Hr')].
      - rewrite Qred_correct. lra.
      - rewrite round64_opp, Ef in Hi. discriminate.
      - rewrite round64_opp, Ef in E'. simpl in E'. injection E' as E'.
        rewrite <- E' in Hr'. lra. }
    specialize (G4 ltac:(lra)).
    destruct (fl_in (a - eps) (inject_Z k * h - (1 # 2)) hi)
      as (r' & E' & _ & R3); [exact Blo | exact Hhi | lra | lra |].
    rewrite Err in E'. injection E' as <-. exact R3.
Qed.

End LogBounds.

Section UnitIndex.

Local Open Scope Q_scope.

Local Notation "'delta'" := (7804143460206699 # 1125899906842624).

Lemma log_1024 : Math_log (of_Z 1024) = Fin delta.
Proof. vm_compute. reflexivity. Qed.

Lemma Qfloor_between (x : Q) (k : Z) :
  inject_Z k <= x -> x < inject_Z (k + 1) -> Qfloor x = k.
Proof.
  intros Hl Hu. apply Z.le_antisymm.
  - apply Z.lt_succ_r. rewrite Zlt_Qlt.
    eapply Qle_lt_trans; [apply Qfloor_le | exact Hu].
  - rewrite <- (Qfloor_Z k). apply Qfloor_resp_le. exact Hl.
Qed.

(** A closed number is a binary64 value when its significand at the
    exponent [e] is an integer below [2 ^ 53]. *)
Lemma bound_check (c : Q) (e : Z) :
  (let N := Qfloor (c * 2 ^ (- e)) in
   (0 <? N)%Z && (N <? 2 ^ 53)%Z && (-1074 <=? e)%Z && (e <=? 971)%Z
   && Qeq_bool c (inject_Z N * 2 ^ e)) = true ->
  bound c.
Proof.
  cbv zeta. intros H.
  apply andb_true_iff in H. destruct H as [H H5].
  apply andb_true_iff in H. destruct H as [H H4].
  apply andb_true_iff in H. destruct H as [H H3].
  apply andb_true_iff in H. destruct H as [H1 H2].
  apply Z.ltb_lt in H1, H2. apply Z.leb_le in H3, H4.
  apply Qeq_bool_iff in H5.
  apply (bound_dyadic _ (Qfloor (c * 2 ^ (- e))) e); [lia | lia | exact H5].
Qed.

(** The unit index from the value of the logarithm. *)
Lemma unit_index_of (x : number) (r : Q) (i : Z) :
  Math_log x = Fin r -> (0 <= i <= 7)%Z ->
  inject_Z i * delta <= r ->
  r <= (inject_Z i + 1 - (1 # 1125899906842624)) * delta ->
  Math_floor (fdiv (Math_log x) (Math_log (of_Z 1024))) = Fin (inject_Z i).
Proof.
  intros Er Hi R1 R2. rewrite Er, log_1024. unfold fdiv.
  change (is_zero delta) with false. cbv iota.
  assert (Hq : 0 <= inject_Z i /\ inject_Z i <= 7).
  { split; [rewrite <- (Zle_Qle 0) | rewrite <- (Zle_Qle _ 7)]; lia. }
  destruct (fl_in (r / delta) (inject_Z i)
              (inject_Z i + 1 - (1 # 1125899906842624)))
    as (q & -> & Q1 & Q2).
  - destruct (Z.eq_dec i 0) as [-> | Hn]; [apply bound_zero |].
    apply (bound_dyadic _ i 0); [lia | lia |]. change (2 ^ 0) with 1. ring.
  - apply (bound_dyadic _ ((i + 1) * 1125899906842624 - 1) (-50));
      [lia | lia |].
    unfold Zminus. rewrite inject_Z_plus, inject_Z_mult, inject_Z_plus.
    change (2 ^ (-50)) with (1 # 1125899906842624).
    change (inject_Z 1125899906842624) with (1125899906842624 # 1).
    change (inject_Z (- (1))) with (- (1)). change (inject_Z 1) with 1.
    assert (E : (1125899906842624 # 1) * (1 # 1125899906842624) == 1)
      by reflexivity.
    rewrite Qmult_plus_distr_l, <- Qmult_assoc, E. ring.
  - apply Qle_shift_div_l; [reflexivity | exact R1].
  - apply Qle_shift_div_r; [reflexivity | exact R2].
  - unfold Math_floor. f_equal. f_equal. apply Qfloor_between; [exact Q1 |].
    rewrite inject_Z_plus. change (inject_Z 1) with 1. lra.
Qed.

(** From five times [Math.log (1024)] on, the index is from 5 on. *)
Lemma unit_index_large (x : number) (r : Q) :
  Math_log x = Fin r -> 5 * delta <= r -> r <= 1024 ->
  exists j : Z,
    (5 <= j)%Z
    /\ Math_floor (fdiv (Math_log x) (Math_log (of_Z 1024))) = Fin (inject_Z j).
Proof.
  intros Er R1 R2. rewrite Er, log_1024. unfold fdiv.
  change (is_zero delta) with false. cbv iota.
  destruct (fl_in (r / delta) 5 1024) as (q & -> & Q1 & Q2).
  - apply (bound_dyadic _ 5 0); [lia | lia | reflexivity].
  - apply (bound_pow2 10). lia.
  - apply Qle_shift_div_l; [reflexivity | exact R1].
  - apply Qle_shift_div_r; [reflexivity | lra].
  - exists (Qfloor q). split; [| reflexivity].
    change 5%Z with (Qfloor 5). apply Qfloor_resp_le. exact Q1.
Qed.

End UnitIndex.

Section Boundaries.

Local Open Scope Q_scope.

Local Notation "'delta'" := (7804143460206699 # 1125899906842624).

Ltac numQ := apply Qle_bool_imp_le; vm_compute; reflexivity.

Lemma representable_pow2 (e : Z) :
  (-1074 <= e <= 971)%Z -> representable (2 ^ e).
Proof.
  intros H. exists 1%Z, e. split; [lia |]. split; [exact H |].
  change (inject_Z 1) with 1. ring.
Qed.

(** Just above a power of 1024 the logarithm is not below the multiple
    of [Math.log (1024)]. *)
Lemma above_pow (K : Z) (n : Z) (phi a b r : Q) :
  K = 10%Z \/ K = 20%Z \/ K = 30%Z \/ K = 40%Z ->
  fmul (of_Z K) ln2_hi = Fin a -> fmul (of_Z K) ln2_lo = Fin b ->
  (forall t lo,
     representable t -> (1 # 281474976710656) <= t -> t <= phi ->
     bound lo -> lo <= a + b + t * (1 # 4) -> lo <= r) ->
  inject_Z n == (1 + phi) * 2 ^ K -> 2 ^ K + 1 <= inject_Z n ->
  inject_Z (K / 10) * delta <= r.
Proof.
  intros HK HA HB Gp En Hn.
  destruct HK as [-> | [-> | [-> | ->]]];
    vm_compute in HA; vm_compute in HB;
    injection HA as <-; injection HB as <-;
    match goal with
    | |- inject_Z ?i * _ <= _ =>
        let c := eval vm_compute in
          (inject_Z (Qceiling (inject_Z i * delta * 2 ^ 43)) * 2 ^ (-43)) in
        apply (Qle_trans _ c);
          [numQ
          | apply (Gp (2 ^ (-40)) c);
            [apply representable_pow2; lia
            | numQ
            | change (2 ^ (-40)) with (1 # 1099511627776); lra
            | apply (bound_check _ (-43)); vm_compute; reflexivity
            | numQ]]
    end.
Qed.

(** Just below a power of 1024, up to [1024 ^ 4], the quotient by
    [Math.log (1024)] is below the exponent. *)
Lemma below_pow (K : Z) (n : Z) (phi a b r : Q) :
  K = 10%Z \/ K = 20%Z \/ K = 30%Z \/ K = 40%Z ->
  fmul (of_Z K) ln2_hi = Fin a -> fmul (of_Z K) ln2_lo = Fin b ->
  (forall t hi,
     representable t -> (1 # 281474976710656) <= t -> phi <= - t ->
     bound hi -> a + b - t * (1 # 4) <= hi -> r <= hi) ->
  inject_Z n == (1 + phi) * 2 ^ K -> inject_Z n <= 2 ^ K - 1 ->
  r <= (inject_Z (K / 10 - 1) + 1 - (1 # 1125899906842624)) * delta.
Proof.
  intros HK HA HB Gn En Hn.
  destruct HK as [-> | [-> | [-> | ->]]];
    vm_compute in HA; vm_compute in HB;
    injection HA as <-; injection HB as <-;
    match goal with
    | |- _ <= ?B =>
        let c := eval vm_compute in
          (inject_Z (Qfloor (B * 2 ^ 43)) * 2 ^ (-43)) in
        apply (Qle_trans _ c);
          [apply (Gn (2 ^ (-40)) c);
            [apply representable_pow2; lia
            | numQ
            | change (2 ^ (-40)) with (1 # 1099511627776); lra
            | apply (bound_check _ (-43)); vm_compute; reflexivity
            | numQ]
          | numQ]
    end.
Qed.

(** The same at [1024 ^ 5], from 32 below it. *)
Lemma below_pow_50 (n : Z) (phi a b r : Q) :
  fmul (of_Z 50) ln2_hi = Fin a -> fmul (of_Z 50) ln2_lo = Fin b ->
  (forall t hi,
     representable t -> (1 # 281474976710656) <= t -> phi <= - t ->
     bound hi -> a + b - t * (1 # 4) <= hi -> r <= hi) ->
  inject_Z n == (1 + phi) * 2 ^ 50 -> inject_Z n <= 2 ^ 50 - 32 ->
  r <= (4 + 1 - (1 # 1125899906842624)) * delta.
Proof.
  intros HA HB Gn En Hn.
  vm_compute in HA; vm_compute in HB.
  injection HA as <-; injection HB as <-.
  match goal with
  | |- _ <= ?B =>
      let c := eval vm_compute in
        (inject_Z (Qfloor (B * 2 ^ 47)) * 2 ^ (-47)) in
      apply (Qle_trans _ c);
        [apply (Gn (2 ^ (-45)) c);
          [apply representable_pow2; lia
          | numQ
          | change (2 ^ (-45)) with (1 # 35184372088832); lra
          | apply (bound_check _ (-47)); vm_compute; reflexivity
          | numQ]
        | numQ]
  end.
Qed.

(** Above [1024 ^ 5], from 4 above it, the logarithm is at least five
    times [Math.log (1024)]. *)
Lemma above_pow_50 (n : Z) (phi a b r : Q) :
  fmul (of_Z 50) ln2_hi = Fin a -> fmul (of_Z 50) ln2_lo = Fin b ->
  (forall t lo,
     representable t -> (1 # 281474976710656) <= t -> t <= phi ->
     bound lo -> lo <= a + b + t * (1 # 4) -> lo <= r) ->
  inject_Z n == (1 + phi) * 2 ^ 50 -> 2 ^ 50 + 4 <= inject_Z n ->
  5 * delta <= r.
Proof.
  intros HA HB Gp En Hn.
  vm_compute in HA; vm_compute in HB.
  injection HA as <-; injection HB as <-.
  match goal with
  | |- ?B <= _ =>
      let c := eval vm_compute in
        (inject_Z (Qceiling (B * 2 ^ 47)) * 2 ^ (-47)) in
      apply (Qle_trans _ c);
        [numQ
        | apply (Gp (2 ^ (-48)) c);
          [apply representable_pow2; lia
          | numQ
          | change (2 ^ (-48)) with (1 # 281474976710656); lra
          | apply (bound_check _ (-47)); vm_compute; reflexivity
          | numQ]]
  end.
Qed.

End Boundaries.

Section UnitIndexExact.

Local Open Scope Q_scope.

Local Notation "'delta'" := (7804143460206699 # 1125899906842624).

Lemma log2_range (n : Z) (B : Z) :
  (2 <= n < 2 ^ B)%Z -> (0 < B)%Z -> (1 <= Z.log2 n < B)%Z.
Proof.
  intros Hn HB. split.
  - change 1%Z with (Z.log2 2). apply Z.log2_le_mono. lia.
  - apply Z.log2_lt_pow2; lia.
Qed.

Lemma unit_index_near_petabyte (n : Z) :
  (2 ^ 50 - 31 <= n <= 2 ^ 50 - 4)%Z ->
  unit_index (Fin (inject_Z n)) = Fin (inject_Z (log1024 n)).
Proof.
  intros Hn.
  assert (H : exists c : nat, (c < 28)%nat /\ n = (2 ^ 50 - 31 + Z.of_nat c)%Z).
  { exists (Z.to_nat (n - (2 ^ 50 - 31))). split; lia. }
  destruct H as (c & Hc & ->).
  do 28 (destruct c as [| c]; [vm_compute; reflexivity |]).
  lia.
Qed.

(** The exponent that [formatBytes] computes is the exact one for every
    byte count up to [1024 ^ 5 - 4]. *)
Lemma unit_index_exact (n : Z) :
  (1 <= n <= 2 ^ 50 - 4)%Z ->
  unit_index (Fin (inject_Z n)) = Fin (inject_Z (log1024 n)).
Proof.
  intros Hn.
  destruct (Z.eq_dec n 1) as [-> | N1]; [vm_compute; reflexivity |].
  destruct (Z.eq_dec n (2 ^ 10)) as [-> | N10]; [vm_compute; reflexivity |].
  destruct (Z.eq_dec n (2 ^ 20)) as [-> | N20]; [vm_compute; reflexivity |].
  destruct (Z.eq_dec n (2 ^ 30)) as [-> | N30]; [vm_compute; reflexivity |].
  destruct (Z.eq_dec n (2 ^ 40)) as [-> | N40]; [vm_compute; reflexivity |].
  destruct (Z_le_gt_dec (2 ^ 50 - 31) n) as [Hnear | Hfar];
    [apply unit_index_near_petabyte; lia |].
  destruct (Math_log_bounds n)
    as (k & phi & a & b & r & Hc & En & HA & HB & Er & R1 & R2 & Gp & Gn);
    [lia |].
  destruct (log2_range n 50) as [E1 E2]; [lia | lia |].
  destruct (Z.log2_spec n ltac:(lia)) as [L1 L2].
  unfold unit_index, log1024.
  set (e := Z.log2 n) in *.
  pose proof (Z.div_mod e 10 ltac:(lia)) as Ed.
  pose proof (Z.mod_pos_bound e 10 ltac:(lia)) as Em.
  set (i := (e / 10)%Z) in *.
  assert (Hi : (0 <= i <= 4)%Z) by lia.
  assert (Qi : 0 <= inject_Z i /\ inject_Z i <= 4).
  { split; [rewrite <- (Zle_Qle 0) | rewrite <- (Zle_Qle _ 4)]; lia. }
  assert (Interior_lo : (10 * i + 1 <= k)%Z -> inject_Z i * delta <= r).
  { intros H. assert (Hki : inject_Z (10 * i + 1) <= inject_Z k)
      by (rewrite <- Zle_Qle; lia).
    rewrite inject_Z_plus, inject_Z_mult in Hki.
    change (inject_Z 10) with 10 in Hki. change (inject_Z 1) with 1 in Hki.
    lra. }
  assert (Interior_hi :
            (k <= 10 * i + 9)%Z ->
            r <= (inject_Z i + 1 - (1 # 1125899906842624)) * delta).
  { intros H. assert (Hki : inject_Z k <= inject_Z (10 * i + 9))
      by (rewrite <- Zle_Qle; lia).
    rewrite inject_Z_plus, inject_Z_mult in Hki.
    change (inject_Z 10) with 10 in Hki. change (inject_Z 9) with 9 in Hki.
    lra. }
  apply (unit_index_of _ r i Er); [lia | |].
  - (* the quotient is not below the exponent *)
    destruct Hc as [[Ek Hphi] | [Ek Hphi]]; [| apply Interior_lo; lia].
    destruct (Z.eq_dec e (10 * i)) as [E10 | N10']; [| apply Interior_lo; lia].
    subst k.
    assert (HK : e = 10%Z \/ e = 20%Z \/ e = 30%Z \/ e = 40%Z) by lia.
    apply (above_pow e n phi a b r HK HA HB Gp En).
    assert (Hne : n <> (2 ^ e)%Z).
    { destruct HK as [-> | [-> | [-> | ->]]]; assumption. }
    assert (H : (2 ^ e + 1 <= n)%Z) by lia.
    rewrite Zle_Qle, inject_Z_plus, pow2_inject in H by lia. exact H.
  - (* and below the next one *)
    destruct Hc as [[Ek Hphi] | [Ek Hphi]]; [apply Interior_hi; lia |].
    destruct (Z.eq_dec e (10 * i + 9)) as [E9 | N9]; [| apply Interior_hi; lia].
    subst k.
    assert (H : (n <= 2 ^ (e + 1) - 1)%Z)
      by (replace (e + 1)%Z with (Z.succ e) by lia; lia).
    rewrite Zle_Qle in H. unfold Zminus in H.
    rewrite inject_Z_plus, pow2_inject in H by lia.
    change (inject_Z (- (1))) with (- (1)) in H.
    destruct (Z.eq_dec i 4) as [I4 | I4].
    + assert (E50 : (e + 1 = 50)%Z) by lia. rewrite E50 in *.
      rewrite I4. change (inject_Z 4) with 4.
      apply (below_pow_50 n phi a b r HA HB Gn En).
      assert (Hf : (n <= 2 ^ 50 - 32)%Z) by lia.
      rewrite Zle_Qle in Hf. exact Hf.
    + assert (HK : (e + 1 = 10 \/ e + 1 = 20 \/ e + 1 = 30 \/ e + 1 = 40)%Z)
        by lia.
      assert (Hrep : ((e + 1) / 10 - 1 = i)%Z).
      { clear - E9.
        pose proof (Z.div_mod (e + 1) 10 ltac:(lia)).
        pose proof (Z.mod_pos_bound (e + 1) 10 ltac:(lia)). lia. }
      rewrite <- Hrep.
      apply (below_pow (e + 1) n phi a b r HK HA HB Gn En). lra.
Qed.

(** From [1024 ^ 5] on the exponent is from 5 on. *)
Lemma unit_index_past (n : Z) :
  (2 ^ 50 <= n < 2 ^ 1024)%Z ->
  exists j : Z,
    (5 <= j)%Z /\ unit_index (Fin (inject_Z n)) = Fin (inject_Z j).
Proof.
  intros Hn.
  destruct (Z_le_gt_dec (2 ^ 50 + 4) n) as [Hfar | Hnear].
  - destruct (Math_log_bounds n)
      as (k & phi & a & b & r & Hc & En & HA & HB & Er & R1 & R2 & Gp & _);
      [lia |].
    destruct (log2_range n 1024) as [_ E2]; [lia | lia |].
    assert (E1 : (50 <= Z.log2 n)%Z).
    { change 50%Z with (Z.log2 (2 ^ 50)). apply Z.log2_le_mono. lia. }
    set (e := Z.log2 n) in *.
    assert (Qk : inject_Z k <= 1024)
      by (rewrite <- (Zle_Qle _ 1024); lia).
    assert (Big : (51 <= k)%Z -> 5 * delta <= r).
    { intros H. rewrite (Zle_Qle 51) in H. change (inject_Z 51) with 51 in H.
      lra. }
    apply (unit_index_large _ r Er); [| lra].
    destruct Hc as [[Ek Hphi] | [Ek Hphi]]; [| apply Big; lia].
    destruct (Z.eq_dec e 50) as [E50 | N50]; [| apply Big; lia].
    subst k. rewrite E50 in *.
    apply (above_pow_50 n phi a b r HA HB Gp En).
    rewrite Zle_Qle in Hfar. exact Hfar.
  - assert (H : exists c : nat, (c < 4)%nat /\ n = (2 ^ 50 + Z.of_nat c)%Z).
    { exists (Z.to_nat (n - 2 ^ 50)). split; lia. }
    destruct H as (c & Hc & ->). exists 5%Z. split; [lia |].
    do 4 (destruct c as [| c]; [vm_compute; reflexivity |]).
    lia.
Qed.

End UnitIndexExact.

(** ** [formatBytes] *)

Lemma log1024_bounds (n : Z) :
  1 <= n ->
  0 <= log1024 n /\ 1024 ^ log1024 n <= n < 1024 ^ (log1024 n + 1).
Proof.
  intros H. unfold log1024.
  destruct (Z.log2_spec n ltac:(lia)) as [H1 H2].
  pose proof (Z.log2_nonneg n) as H0.
  pose proof (Z.div_mod (Z.log2 n) 10 ltac:(lia)) as E.
  pose proof (Z.mod_pos_bound (Z.log2 n) 10 ltac:(lia)) as B.
  set (i := Z.log2 n / 10) in *.
  assert (Hi : 0 <= i) by (subst i; apply Z.div_pos; lia).
  split; [exact Hi |].
  change 1024 with (2 ^ 10). rewrite <- !Z.pow_mul_r by lia.
  split.
  - eapply Z.le_trans; [| exact H1]. apply Z.pow_le_mono_r; lia.
  - eapply Z.lt_le_trans; [exact H2 |]. apply Z.pow_le_mono_r; lia.
Qed.

Lemma log1024_small (n : Z) : 1 <= n < 1024 ^ 5 -> 0 <= log1024 n <= 4.
Proof.
  intros H. destruct (log1024_bounds n ltac:(lia)) as (H0 & H1 & _).
  split; [exact H0 |].
  destruct (Z.le_gt_cases (log1024 n) 4) as [Hle | Hgt]; [exact Hle |].
  exfalso. assert (1024 ^ 5 <= 1024 ^ log1024 n) by (apply Z.pow_le_mono_r; lia).
  lia.
Qed.

Lemma log1024_large (n : Z) : 1024 ^ 5 <= n -> 5 <= log1024 n.
Proof.
  intros H. unfold log1024.
  assert (H50 : 50 <= Z.log2 n).
  { change 50 with (Z.log2 (1024 ^ 5)). apply Z.log2_le_mono, H. }
  apply Z.div_le_lower_bound; lia.
Qed.

Lemma array_get_past (a : list string) (i : Z) :
  Z.of_nat (List.length a) <= i -> array_get a (Fin (inject_Z i)) = None.
Proof.
  intros H. unfold array_get. rewrite Qfloor_Z.
  destruct (_ && _); [| reflexivity].
  apply nth_error_None. lia.
Qed.

Lemma array_get_nat (a : list string) (i : nat) :
  array_get a (Fin (inject_Z (Z.of_nat i))) = nth_error a i.
Proof.
  unfold array_get. rewrite Qfloor_Z.
  assert (E : Qeq_bool (inject_Z (Z.of_nat i)) (inject_Z (Z.of_nat i)) = true)
    by (apply Qeq_bool_iff; reflexivity).
  rewrite E. destruct (Z.leb_spec 0 (Z.of_nat i)); [| lia].
  rewrite Nat2Z.id. reflexivity.
Qed.

Lemma strict_eq_zero (n : Z) :
  1 <= n -> strict_eq (Fin (inject_Z n)) (of_Z 0) = false.
Proof.
  intros H. change (of_Z 0) with (Fin 0). unfold strict_eq.
  destruct (Qeq_bool (inject_Z n) 0) eqn:E; [| reflexivity].
  apply Qeq_bool_iff in E. unfold Qeq in E. simpl in E. lia.
Qed.

(** Dividing a byte count below [2 ^ 53] by a power of 1024 up to the
    fourth is exact. *)
Lemma scaled_exact (n i : Z) :
  1 <= n < 2 ^ 53 -> 0 <= i <= 4 ->
  fdiv (Fin (inject_Z n)) (Math_pow 1024 (Fin (inject_Z i)))
  = Fin (Qred (n # Z.to_pos (1024 ^ i))).
Proof.
  intros Hn Hi.
  assert (R : forall c : positive, (exists k, 0 <= k <= 40 /\ Zpos c = 2 ^ k) ->
            round64 (Qred (inject_Z n / inject_Z (Zpos c))) = Fin (Qred (n # c))).
  { intros c (k & Hk & Ec).
    rewrite round64_exact.
    - rewrite Qred_involutive. f_equal. apply Qred_complete.
      symmetry. apply Qmake_Qdiv.
    - exists n, (- k). split; [lia |]. split; [lia |].
      rewrite Qred_correct. unfold Qdiv. apply Qmult_comp; [reflexivity |].
      rewrite Qpower_opp. apply Qinv_comp.
      rewrite Ec. apply pow2_inject. lia. }
  assert (C : i = 0 \/ i = 1 \/ i = 2 \/ i = 3 \/ i = 4) by lia.
  destruct C as [-> | [-> | [-> | [-> | ->]]]].
  - apply (R 1%positive). exists 0. split; [lia | reflexivity].
  - apply (R (Z.to_pos (1024 ^ 1))). exists 10. split; [lia | reflexivity].
  - apply (R (Z.to_pos (1024 ^ 2))). exists 20. split; [lia | reflexivity].
  - apply (R (Z.to_pos (1024 ^ 3))). exists 30. split; [lia | reflexivity].
  - apply (R (Z.to_pos (1024 ^ 4))). exists 40. split; [lia | reflexivity].
Qed.

Lemma Qfloor_make (a : Z) (b : positive) : Qfloor (a # b) = a / Zpos b.
Proof. reflexivity. Qed.

Lemma Qnum_nonneg (q : Q) : (0 <= q)%Q -> 0 <= Qnum q.
Proof. destruct q as [a b]. unfold Qle. simpl. lia. Qed.

(** [toFixed(2)] of a scaled byte count is its number of hundredths. *)
Lemma toFixed_scaled (n : Z) (c : positive) :
  0 <= n -> n < 1024 * Zpos c ->
  toFixed (Fin (Qred (n # c))) 2 = fixed_text (hundredths n (Zpos c)) 2.
Proof.
  intros H0 H1. unfold toFixed.
  assert (Hq : (0 <= Qred (n # c))%Q).
  { rewrite Qred_correct. unfold Qle. simpl. lia. }
  assert (Hneg : is_neg (Qred (n # c)) = false).
  { unfold is_neg. apply Z.ltb_ge. apply Qnum_nonneg, Hq. }
  rewrite Hneg.
  assert (Hbig : Qle_bool (pow10 21) (Qred (n # c)) = false).
  { destruct (Qle_bool (pow10 21) (Qred (n # c))) eqn:E; [| reflexivity].
    apply Qle_bool_iff in E. rewrite Qred_correct in E.
    change (pow10 21) with (inject_Z 1000000000000000000000) in E.
    unfold Qle in E. cbn [Qnum Qden inject_Z] in E. lia. }
  rewrite Hbig. cbn [append]. f_equal.
  unfold hundredths.
  transitivity (Qfloor ((200 * n + Zpos c) # (2 * c))).
  - apply Qfloor_comp. rewrite Qred_correct.
    change (inject_Z (10 ^ Z.of_nat 2)) with (100 # 1)%Q.
    unfold Qeq, Qplus, Qmult. cbn [Qnum Qden].
    rewrite !Pos2Z.inj_mul. ring.
  - rewrite Qfloor_make. reflexivity.
Qed.

(** Below [1024 ^ 5], where the exponent is the exact one, the unit is
    in the table and the number is the scaled count in hundredths. *)
Lemma formatBytes_in_table (n : Z) :
  1 <= n < 1024 ^ 5 ->
  unit_index (Fin (inject_Z n)) = Fin (inject_Z (log1024 n)) ->
  exists unit,
    nth_error sizes (Z.to_nat (log1024 n)) = Some unit
    /\ formatBytes (Fin (inject_Z n)) 2
       = to_string
           (parseFloat (fixed_text (hundredths n (1024 ^ log1024 n)) 2))
         ++ " " ++ unit.
Proof.
  intros Hn Hi.
  destruct (log1024_small n Hn) as [I0 I4].
  destruct (log1024_bounds n ltac:(lia)) as (_ & B1 & B2).
  set (i := log1024 n) in *.
  assert (Hc : 0 < 1024 ^ i) by (apply Z.pow_pos_nonneg; lia).
  assert (Ec : Zpos (Z.to_pos (1024 ^ i)) = 1024 ^ i) by (apply Z2Pos.id, Hc).
  assert (Hu : exists unit, nth_error sizes (Z.to_nat i) = Some unit).
  { assert (C : i = 0 \/ i = 1 \/ i = 2 \/ i = 3 \/ i = 4) by lia.
    destruct C as [-> | [-> | [-> | [-> | ->]]]]; eexists; reflexivity. }
  destruct Hu as (unit & Hu). exists unit. split; [exact Hu |].
  unfold formatBytes. rewrite (strict_eq_zero n) by lia. rewrite Hi.
  change (2 <? 0) with false. cbv iota zeta. change (Z.to_nat 2) with 2%nat.
  rewrite scaled_exact by (change (2 ^ 53) with (1024 ^ 5 * 8); lia).
  rewrite toFixed_scaled; [| lia |].
  - rewrite Ec. f_equal. f_equal.
    rewrite <- (Z2Nat.id i) at 1 by lia. rewrite array_get_nat, Hu. reflexivity.
  - rewrite Ec. rewrite Z.pow_add_r in B2 by lia. lia.
Qed.

(** ** Quality selection *)

Lemma parseInt_shape (s : string) :
  parseInt s = NaN \/ exists v, parseInt s = of_Z v.
Proof.
  unfold parseInt. destruct (read_sign (skip_spaces s)) as [negative body].
  destruct (has_prefix "0x" body || has_prefix "0X" body).
  - destruct (read_hex _ 0 0) as [v len].
    destruct len; [left; reflexivity | right; eexists; reflexivity].
  - destruct (read_digits body 0 0) as [[v len] rest].
    destruct len; [left; reflexivity | right; eexists; reflexivity].
Qed.

(** An integer from 9 on stays from 8 on after rounding and the
    subtraction of line 542. *)
Lemma index_above (v : Z) :
  9 <= v -> lt_bool (fsub (of_Z v) (of_Z 1)) (of_Z 8) = false.
Proof.
  intros H. change (of_Z 1) with (Fin 1). change (of_Z 8) with (Fin 8).
  unfold of_Z.
  destruct (round64_ge (inject_Z v) 9) as [-> | (r & -> & Hr)].
  - apply (representable_int 9). lia.
  - rewrite <- (Zle_Qle 9). exact H.
  - reflexivity.
  - unfold fsub.
    destruct (round64_ge (Qred (r - 1)) 8) as [-> | (r' & -> & Hr')].
    + apply (representable_int 8). lia.
    + rewrite Qred_correct. lra.
    + reflexivity.
    + unfold lt_bool.
      assert (E : Qle_bool 8 r' = true) by (apply Qle_bool_iff; exact Hr').
      rewrite E. reflexivity.
Qed.

(** An integer up to 0 is below 0 after the subtraction. *)
Lemma index_below (v : Z) :
  v <= 0 -> ge_bool (fsub (of_Z v) (of_Z 1)) (of_Z 0) = false.
Proof.
  intros H. change (of_Z 1) with (Fin 1). change (of_Z 0) with (Fin 0).
  destruct (Z.eq_dec v 0) as [-> | Hv]; [reflexivity |].
  assert (R1 : representable 1) by (apply (representable_int 1); lia).
  unfold of_Z.
  replace (inject_Z v) with (- inject_Z (- v))%Q
    by (unfold inject_Z, Qopp; simpl; rewrite Z.opp_involutive; reflexivity).
  rewrite round64_opp.
  destruct (round64_ge (inject_Z (- v)) 1 R1) as [-> | (r & -> & Hr)].
  - rewrite <- (Zle_Qle 1). lia.
  - reflexivity.
  - unfold neg, fsub.
    assert (E : Qred (- r - 1) = (- Qred (r + 1))%Q).
    { rewrite <- Qred_opp. apply Qred_complete. ring. }
    rewrite E, round64_opp.
    destruct (round64_ge (Qred (r + 1)) 1 R1) as [-> | (r' & -> & Hr')].
    + rewrite Qred_correct. lra.
    + reflexivity.
    + unfold neg, ge_bool.
      destruct (Qle_bool 0 (- r')) eqn:E'; [| reflexivity].
      apply Qle_bool_iff in E'. lra.
Qed.

Lemma index_test_out (x : number) :
  (forall k, 1 <= k <= 8 -> x <> of_Z k) ->
  (x = NaN \/ exists v, x = of_Z v) ->
  ge_bool (fsub x (of_Z 1)) (of_Z 0) && lt_bool (fsub x (of_Z 1)) (of_Z 8)
  = false.
Proof.
  intros Hk [-> | (v & ->)]; [reflexivity |].
  destruct (Z.le_gt_cases v 0) as [H0 | H0].
  - rewrite (index_below v H0). reflexivity.
  - destruct (Z.le_gt_cases 9 v) as [H9 | H9].
    + rewrite (index_above v H9). apply andb_false_r.
    + exfalso. apply (Hk v); [lia | reflexivity].
Qed.

Lemma toLowerCase_empty (s : string) : toLowerCase s = "" -> s = "".
Proof. destruct s; [reflexivity | discriminate]. Qed.

(** The selection when the number read is not a position. *)
Lemma select_quality_by_key (s : string) :
  (forall k, 1 <= k <= 8 -> parseInt s <> of_Z k) ->
  select_quality s =
  let quality := if String.eqb (toLowerCase s) "" then "best"
                 else toLowerCase s in
  if negb (truthy (qualities_get quality)) then ("best", true)
  else (quality, false).
Proof.
  intros H. unfold select_quality.
  change (of_Z (Z.of_nat (List.length (Object_keys qualities)))) with (of_Z 8).
  rewrite (index_test_out (parseInt s) H (parseInt_shape s)). reflexivity.
Qed.

(** The selection when the number read is a position. *)
Lemma select_quality_by_position (s : string) (k : Z) :
  1 <= k <= 8 -> parseInt s = of_Z k ->
  select_quality s = (nth (Z.to_nat (k - 1)) (Object_keys qualities) "", false).
Proof.
  intros Hk E. unfold select_quality. rewrite E.
  assert (C : k = 1 \/ k = 2 \/ k = 3 \/ k = 4 \/ k = 5 \/ k = 6 \/ k = 7 \/ k = 8)
    by lia.
  destruct C as [-> | [-> | [-> | [-> | [-> | [-> | [-> | ->]]]]]]]; reflexivity.
Qed.

Lemma lower_digit (c : ascii) : is_digit (lower c) = true -> lower c = c.
Proof. ascii_cases c. Qed.

(** Text made of digits has no other spelling in upper case. *)
Lemma toLowerCase_digits (k : string) :
  all_digits k = true -> forall s, toLowerCase s = k -> s = k.
Proof.
  induction k as [| d k IH]; intros Hk s E.
  - apply toLowerCase_empty, E.
  - destruct s as [| c s]; [discriminate |].
    simpl in E. injection E as E1 E2.
    simpl in Hk. apply andb_true_iff in Hk. destruct Hk as [Hd Hk].
    rewrite <- E1 in Hd. rewrite (lower_digit c Hd) in E1.
    rewrite E1, (IH Hk s E2). reflexivity.
Qed.

(** Text that opens on a letter [a] or [b], in either case, reads as no
    number. *)
Lemma parseInt_letter (c : ascii) (rest : string) :
  lower c = "a"%char \/ lower c = "b"%char -> parseInt (String c rest) = NaN.
Proof.
  intros H. destruct c as [[|] [|] [|] [|] [|] [|] [|] [|]];
    try (destruct H as [H | H]; discriminate H); reflexivity.
Qed.

Lemma of_Z_position (k : Z) : 1 <= k <= 8 -> of_Z k = Fin (inject_Z k).
Proof. intros H. apply of_Z_exact. lia. Qed.

(** No key of the catalog, in any case, reads as a position. *)
Lemma key_is_no_position (s : string) (p : profile) :
  assoc (toLowerCase s) qualities = Some p ->
  forall k, 1 <= k <= 8 -> parseInt s <> of_Z k.
Proof.
  intros H k Hk. rewrite (of_Z_position k Hk).
  unfold qualities in H. cbn [assoc] in H.
  repeat match type of H with
         | (if String.eqb ?a ?b then _ else _) = _ =>
             destruct (String.eqb_spec a b) as [E | _];
             [clear H | ]
         end; try discriminate H.
  all: try (apply toLowerCase_digits in E; [| reflexivity]; subst s;
            intros E'; vm_compute in E'; injection E' as E'; lia).
  all: destruct s as [| c s]; [discriminate E |];
       simpl in E; injection E as E1 _;
       rewrite parseInt_letter by auto; discriminate.
Qed.

(** A key of the catalog, in any case, selects itself. *)
Lemma select_quality_key (s : string) (p : profile) :
  assoc (toLowerCase s) qualities = Some p ->
  select_quality s = (toLowerCase s, false).
Proof.
  intros H. rewrite select_quality_by_key by (eapply key_is_no_position, H).
  cbv zeta. destruct (String.eqb_spec (toLowerCase s) "") as [E | _].
  - rewrite E in H. discriminate H.
  - unfold qualities_get. rewrite H. reflexivity.
Qed.

(** * The claims of the specification *)

(** ** C1 *)

(** C1, as stated, fails: the handler splits each chunk on line breaks
    and classifies the pieces at once, with nothing carried over to the
    next chunk.  The percentage line of the specification, fed whole,
    writes one status line; cut inside the tag [download] it writes
    none. *)
Lemma rechunk_mid_line_differs :
  fst (classify initial
         ["[download]  45.2% of ~10.00MiB at 1.20MiB/s ETA 00:05" ++ nl])
  <> fst (classify initial
            ["[downl"; "oad]  45.2% of ~10.00MiB at 1.20MiB/s ETA 00:05" ++ nl]).
Proof. vm_compute. discriminate. Qed.

(** C1, amended: re-chunking at a line break leaves the handler's output
    and final state unchanged.  A chunk [a ++ nl ++ b] may be fed as
    [a ++ nl] then [b], or as [a] then [nl ++ b], anywhere in the run. *)
Theorem rechunk_at_line_break (st : state) (pre post : list string)
  (a b : string) :
  classify st (pre ++ [a ++ nl ++ b] ++ post)
  = classify st (pre ++ [a ++ nl; b] ++ post)
  /\ classify st (pre ++ [a ++ nl ++ b] ++ post)
     = classify st (pre ++ [a; nl ++ b] ++ post).
Proof.
  rewrite !classify_lines, !lines_of_app.
  unfold lines_of at 2 5 8 11. cbn [flat_map]. rewrite !app_nil_r.
  rewrite split_lines_newline, split_lines_end, split_lines_start.
  rewrite <- !app_assoc. cbn [app].
  rewrite process_lines_empty_line2. split; reflexivity.
Qed.

(** ** C2 *)

(** C2, as stated, fails twice on the lines 50, 30, 100, 100: the
    percentages written go down from 50 to 30, and two of them are
    exactly 100. *)
Lemma percents_not_monotone :
  let ps :=
    percents (fst (classify initial
      ["[download]  50.0%" ++ nl ++ "[download]  30.0%" ++ nl
       ++ "[download] 100%" ++ nl ++ "[download] 100%" ++ nl])) in
  ~ Sorted floor_le ps /\ count_hundred ps <> 1%nat.
Proof.
  vm_compute percents. split.
  - intros H. inversion H as [| ? ? _ Hd]; subst.
    inversion Hd as [| ? ? Hle]; subst.
    vm_compute in Hle. apply Hle. reflexivity.
  - vm_compute. discriminate.
Qed.

(** C2, amended: when every percentage line of a run reports at most
    100, the handler does not raise under any chunking at line breaks;
    the percentages it writes are a subsequence of those of the lines,
    so they are non-decreasing in integer floor whenever those of the
    lines are; each passed the test of line 335 against the one written
    before it; and the lines reporting exactly 100 are all written, so
    as many percentages written are exactly 100 as lines report it. *)
Theorem downloading_percents (st : state) (chunks : list string) :
  Forall (fun p => le p (of_Z 100)) (input_percents (lines_of chunks)) ->
  exists evs st',
    classify st chunks = (evs, Some st')
    /\ subseq (percents evs) (input_percents (lines_of chunks))
    /\ (Sorted floor_le (input_percents (lines_of chunks)) ->
        Sorted floor_le (percents evs))
    /\ count_hundred (percents evs)
       = count_hundred (input_percents (lines_of chunks))
    /\ deduplicated (lastProgress st) (percents evs).
Proof.
  intros H. rewrite classify_lines.
  destruct (process_lines_in_range (lines_of chunks) st H)
    as (evs & st' & E & S & C & D).
  exists evs, st'. split; [exact E |]. split; [exact S |].
  split; [apply subseq_sorted, S |]. split; [exact C | exact D].
Qed.

Lemma downloading_percents_witness :
  exists evs st',
    classify initial
      ["[download]  45.2% of ~10.00MiB" ++ nl;
       "[download]  45.6% of ~10.00MiB" ++ nl
       ++ "[download] 100% of 10.00MiB" ++ nl]
    = (evs, Some st')
    /\ subseq (percents evs) [parseFloat "45.2"; parseFloat "45.6"; of_Z 100]
    /\ (Sorted floor_le [parseFloat "45.2"; parseFloat "45.6"; of_Z 100] ->
        Sorted floor_le (percents evs))
    /\ count_hundred (percents evs) = 1%nat
    /\ deduplicated (of_Z (-1)) (percents evs).
Proof.
  apply (downloading_percents initial
           ["[download]  45.2% of ~10.00MiB" ++ nl;
            "[download]  45.6% of ~10.00MiB" ++ nl
            ++ "[download] 100% of 10.00MiB" ++ nl]).
  vm_compute. repeat constructor; discriminate.
Defined.

(** ** C3 *)

Lemma floor_differs (q : Q) (last : number) :
  strict_eq (Math_floor (Fin q)) (Math_floor last) = false
  <-> Math_floor (Fin q) <> Math_floor last.
Proof.
  destruct last as [| | | l]; simpl; try (split; [discriminate | reflexivity]).
  split.
  - intros H E. injection E as E.
    assert (T : Qeq_bool (inject_Z (Qfloor q)) (inject_Z (Qfloor l)) = true)
      by (apply Qeq_bool_iff; rewrite E; reflexivity).
    congruence.
  - intros H. destruct (Qeq_bool _ _) eqn:E; [| reflexivity].
    exfalso. apply H. apply Qeq_bool_iff in E.
    unfold Qeq in E. simpl in E. f_equal. f_equal. lia.
Qed.

Lemma is_hundred (q : Q) :
  Qred q = q -> strict_eq (Fin q) (of_Z 100) = true <-> Fin q = of_Z 100.
Proof.
  intros Hr. change (of_Z 100) with (Fin 100). simpl. split.
  - intros H. apply Qeq_bool_iff in H. f_equal.
    rewrite <- Hr. apply (Qred_complete q 100 H).
  - intros H. injection H as ->. reflexivity.
Qed.

(** The test of line 335, in words. *)
Lemma should_emit_iff (q : Q) (last : number) :
  Qred q = q ->
  should_emit (Fin q) last = true
  <-> Math_floor (Fin q) <> Math_floor last \/ Fin q = of_Z 100.
Proof.
  intros Hr. unfold should_emit. rewrite orb_true_iff, negb_true_iff.
  rewrite floor_differs, (is_hundred q Hr). reflexivity.
Qed.

(** Within the range of a percentage the policy is kept: at any point
    of a run, a line that matches the percentage pattern with a
    percentage of at most 100 writes a status line if and only if the
    integer floor of its percentage differs from that of the last
    percentage written (of [-1] when none was), or its percentage is
    exactly 100; it writes no other status line. *)
Theorem dedup_policy (chunks : list string) (evs : list event) (st : state)
  (line cap : string) :
  classify initial chunks = (evs, Some st) ->
  regex_exec download_re line = Some cap ->
  le (parseFloat cap) (of_Z 100) ->
  let p := parseFloat cap in
  let last_written := last (percents evs) (of_Z (-1)) in
  exists evs' st',
    process_line st line = (evs', Some st')
    /\ ((exists text, In (Downloading p text) evs')
        <-> (Math_floor p <> Math_floor last_written \/ p = of_Z 100))
    /\ (forall p' text, In (Downloading p' text) evs' -> p' = p).
Proof.
  intros Hrun Hcap Hle p last_written.
  assert (Hp : line_percent line = Some p)
    by (unfold line_percent; rewrite Hcap; reflexivity).
  destruct (percent_in_range line p Hp Hle) as (q & Eq & H0 & H100 & Hr).
  rewrite Eq in *.
  destruct (process_line_percent st line q Hp H0 H100)
    as (evs' & st' & E & P & _).
  exists evs', st'. split; [exact E |].
  rewrite (classify_last chunks evs st Hrun) in P. fold last_written in P.
  split.
  - rewrite <- In_percents, P, <- (should_emit_iff q last_written Hr).
    destruct (should_emit (Fin q) last_written); simpl; intuition discriminate.
  - intros p' text Hin.
    assert (Hin' : In p' (percents evs')) by (apply In_percents; eauto).
    rewrite P in Hin'.
    destruct (should_emit (Fin q) last_written); simpl in Hin'; intuition.
Qed.

Lemma dedup_policy_witness :
  exists evs' st',
    process_line (mkState (parseFloat "45.2") true false)
      "[download]  45.6% of ~10.00MiB at 1.20MiB/s ETA 00:05"
    = (evs', Some st')
    /\ ((exists text, In (Downloading (parseFloat "45.6") text) evs')
        <-> (Math_floor (parseFloat "45.6") <> Math_floor (parseFloat "45.2")
             \/ parseFloat "45.6" = of_Z 100))
    /\ (forall p' text,
          In (Downloading p' text) evs' -> p' = parseFloat "45.6").
Proof.
  apply (dedup_policy
           ["[download]  45.2% of ~10.00MiB at 1.20MiB/s ETA 00:05" ++ nl]
           [Downloading (parseFloat "45.2")
              "  [██████████████████░░░░░░░░░░░░░░░░░░░░░░] 45.2% | Speed: 1.20MiB/s | ETA: 00:05 | Size: 10.00MiB"]
           (mkState (parseFloat "45.2") true false)
           "[download]  45.6% of ~10.00MiB at 1.20MiB/s ETA 00:05" "45.6").
  - vm_compute. reflexivity.
  - vm_compute. reflexivity.
  - vm_compute. discriminate.
Defined.

(** Every percentage written in a run that did not raise has a bar. *)
Lemma process_line_written (st st' : state) (line : string)
  (evs : list event) :
  process_line st line = (evs, Some st') ->
  Forall (fun p => createProgressBar p default_width <> None) (percents evs).
Proof.
  unfold process_line. destruct (blank line).
  - intros E. injection E as <- _. constructor.
  - pose proof (progress_rule_cases st line) as P.
    destruct (regex_exec download_re line) as [cap |].
    + cbv zeta in P.
      destruct (should_emit (parseFloat cap) (lastProgress st)).
      * destruct (createProgressBar (parseFloat cap) default_width)
          as [bar |] eqn:Eb; rewrite P; [| discriminate].
        match goal with
        | |- context [later_rules ?s line] =>
            destruct (later_rules_percents s line) as (H1 & _);
            destruct (later_rules s line) as [e st1]
        end.
        intros E. injection E as <- _. cbn [app percents].
        cbn [fst] in H1. rewrite H1. constructor; [| constructor].
        rewrite Eb. discriminate.
      * rewrite P.
        match goal with
        | |- context [later_rules ?s line] =>
            destruct (later_rules_percents s line) as (H1 & _);
            destruct (later_rules s line) as [e st1]
        end.
        intros E. injection E as <- _. cbn [fst] in H1. cbn [app].
        rewrite H1. constructor.
    + rewrite P.
      destruct (later_rules_percents st line) as (H1 & _).
      destruct (later_rules st line) as [e st1].
      intros E. injection E as <- _. cbn [fst] in H1. cbn [app].
      rewrite H1. constructor.
Qed.

Lemma process_lines_written (lines : list string) :
  forall st st' evs,
    process_lines st lines = (evs, Some st') ->
    Forall (fun p => createProgressBar p default_width <> None)
      (percents evs).
Proof.
  induction lines as [| line lines IH]; intros st st' evs E.
  - injection E as <- _. constructor.
  - cbn [process_lines] in E.
    destruct (process_line st line) as [ev [st1 |]] eqn:E1; [| discriminate].
    destruct (process_lines st1 lines) as [ev' [st2 |]] eqn:E2;
      [| discriminate].
    injection E as <- _. rewrite percents_app. apply Forall_app. split.
    + apply (process_line_written st st1 line ev E1).
    + apply (IH st1 st2 ev' E2).
Qed.

(** The floors of the example of the policy. *)
Lemma Math_floor_values :
  Math_floor (parseFloat "45.6") = of_Z 45
  /\ Math_floor (parseFloat "45.2") = of_Z 45
  /\ Math_floor (of_Z 100) = of_Z 100
  /\ Math_floor (parseFloat "-0.5") = of_Z (-1).
Proof. vm_compute. repeat split; reflexivity. Qed.

(** After 45.2 percent, a line with 45.6 percent writes nothing and
    leaves the state as it is; one with 46.0 percent writes a status
    line. *)
Lemma same_floor_no_event :
  process_line (mkState (parseFloat "45.2") true false)
    "[download]  45.6% of ~10.00MiB at 1.20MiB/s ETA 00:05"
  = ([], Some (mkState (parseFloat "45.2") true false))
  /\ process_line (mkState (parseFloat "45.2") true false)
       "[download]  46.0% of ~10.00MiB at 1.20MiB/s ETA 00:05"
     = ([Downloading (of_Z 46)
           "  [██████████████████░░░░░░░░░░░░░░░░░░░░░░] 46.0% | Speed: 1.20MiB/s | ETA: 00:05 | Size: 10.00MiB"],
        Some (mkState (of_Z 46) true false)).
Proof. vm_compute. split; reflexivity. Qed.

Lemma last_Forall {A : Type} (P : A -> Prop) (l : list A) (d : A) :
  Forall P l -> P d -> P (last l d).
Proof.
  induction 1 as [| x l Hx Hl IH]; intros Hd; [exact Hd |].
  destruct l as [| y l]; [exact Hx |]. apply IH, Hd.
Qed.

(** C3, on the code: at any point of a run, on a line that matches the
    percentage pattern with a percentage of 102 or more, the integer
    floor of the percentage differs from that of the last percentage
    written, so that the policy asks for a status line; the handler
    writes none and raises, by the [RangeError] of
    [createProgressBar]. *)
Theorem dedup_policy_raises (chunks : list string) (evs : list event)
  (st : state) (line cap : string) (q : Q) :
  classify initial chunks = (evs, Some st) ->
  regex_exec download_re line = Some cap ->
  parseFloat cap = Fin q ->
  (102 <= q)%Q ->
  Math_floor (Fin q) <> Math_floor (last (percents evs) (of_Z (-1)))
  /\ process_line st line = ([], None).
Proof.
  intros Hrun Hcap Hq H102.
  assert (Hfl : (102 <= Qfloor q)%Z).
  { change 102%Z with (Qfloor 102). apply Qfloor_resp_le, H102. }
  assert (Hlast : Math_floor (Fin q)
                  <> Math_floor (last (percents evs) (of_Z (-1)))).
  { apply (last_Forall
             (fun p => createProgressBar p default_width <> None
                       -> Math_floor (Fin q) <> Math_floor p)).
    - rewrite classify_lines in Hrun.
      pose proof (process_lines_written _ _ _ _ Hrun) as HF.
      clear - Hfl. induction (percents evs) as [| p l IH]; constructor.
      + intros Hb. destruct p as [| | | q']; try discriminate.
        simpl. intros E. injection E as E.
        destruct (Qlt_le_dec q' 102) as [Hlt | Hge].
        * assert (Qfloor q' < 102)%Z.
          { rewrite Zlt_Qlt. eapply Qle_lt_trans; [apply Qfloor_le |].
            exact Hlt. }
          lia.
        * apply Hb, createProgressBar_above, Hge.
      + exact IH.
    - intros _. change (of_Z (-1)) with (Fin (inject_Z (-1))).
      unfold Math_floor. rewrite Qfloor_Z. intros E. injection E as E. lia.
    - apply (last_Forall (fun p => createProgressBar p default_width <> None)).
      + rewrite classify_lines in Hrun.
        apply (process_lines_written _ _ _ _ Hrun).
      + vm_compute. discriminate. }
  split; [exact Hlast |].
  unfold process_line.
  destruct (blank line) eqn:Eb;
    [rewrite (blank_no_match line Eb) in Hcap; discriminate |].
  pose proof (progress_rule_cases st line) as P. rewrite Hcap in P.
  cbv zeta in P. rewrite Hq in P.
  rewrite (classify_last chunks evs st Hrun) in P.
  assert (Es : should_emit (Fin q) (last (percents evs) (of_Z (-1))) = true).
  { unfold should_emit. apply orb_true_iff. left. apply negb_true_iff.
    apply floor_differs, Hlast. }
  rewrite Es, (createProgressBar_above q H102) in P. rewrite P. reflexivity.
Qed.

Lemma dedup_policy_raises_witness :
  Math_floor (Fin 150) <> Math_floor (last (percents []) (of_Z (-1)))
  /\ process_line initial "[download] 150% of 5.00MiB at 1.00MiB/s"
     = ([], None).
Proof.
  apply (dedup_policy_raises [] [] initial
           "[download] 150% of 5.00MiB at 1.00MiB/s" "150" 150).
  - reflexivity.
  - vm_compute. reflexivity.
  - vm_compute. reflexivity.
  - vm_compute. discriminate.
Defined.

(** ** C4 *)

(** C4, as stated, fails on the line with which the download tool
    reports the end of a download: it matches the percentage pattern
    and contains the completion phrase, and the handler prints both a
    status line and the completion notice for it. *)
Lemma one_line_two_events :
  exists text,
    fst (process_line initial "[download] 100% of 10.00MiB in 00:05")
    = [Downloading (of_Z 100) text; DownloadCompleted].
Proof. eexists. vm_compute. reflexivity. Qed.

(** C4, amended: the six tests of the handler are applied to every line
    that is not blank, each on its own and in the order of the source;
    each prints at most one event, so the events of a line are in
    strictly increasing order of their rules.  A line never prints both
    a status line and the initialisation notice, and a line that passes
    no test prints nothing. *)
Theorem rules_in_order (st : state) (line : string) :
  let evs := fst (process_line st line) in
  StronglySorted rank_lt evs
  /\ ~ (existsb is_downloading evs = true /\ In Initialized evs)
  /\ (regex_exec download_re line = None ->
      includes line "[download] Destination:" = false ->
      includes line "[download] 100%" = false ->
      includes line "has already been downloaded" = false ->
      includes line "[Merger]" = false ->
      includes line "[ffmpeg]" = false ->
      includes line "Deleting original file" = false ->
      includes line "[EmbedThumbnail]" = false ->
      includes line "[Metadata]" = false ->
      evs = []).
Proof.
  intros evs. subst evs.
  pose proof (process_line_flags st line) as F.
  destruct (process_line st line) as [ev r] eqn:E.
  destruct F as (_ & S & X & _). cbn [fst].
  split; [exact S |]. split; [exact X |].
  intros H1 H2 H3 H4 H5 H6 H7 H8 H9.
  unfold process_line in E. destruct (blank line).
  - injection E as <- _. reflexivity.
  - pose proof (progress_rule_cases st line) as P. rewrite H1 in P.
    rewrite P in E.
    unfold later_rules, destination_rule, completed_rule, merger_rule,
      cleanup_rule, metadata_rule in E.
    rewrite H2, H3, H4, H5, H6, H7, H8, H9 in E. cbn in E.
    injection E as <- _. reflexivity.
Qed.

Lemma rules_in_order_witness :
  StronglySorted rank_lt (fst (process_line initial "[youtube] Extracting URL"))
  /\ ~ (existsb is_downloading
          (fst (process_line initial "[youtube] Extracting URL")) = true
        /\ In Initialized (fst (process_line initial "[youtube] Extracting URL")))
  /\ fst (process_line initial "[youtube] Extracting URL") = [].
Proof.
  destruct (rules_in_order initial "[youtube] Extracting URL") as (S & X & N).
  split; [exact S |]. split; [exact X |].
  apply N; vm_compute; reflexivity.
Defined.

(** ** C5 *)

Lemma classify_merging (chunks : list string) evs st :
  classify initial chunks = (evs, Some st) ->
  isMerging st = existsb is_merging evs.
Proof.
  rewrite classify_lines. intros H.
  pose proof (process_lines_flags (lines_of chunks) initial) as F.
  rewrite H in F. destruct F as [_ M]. exact M.
Qed.

(** When the handler of the standard output did not raise, the run is
    settled by the exit code: a run whose executable is not found, or
    whose child reports an error on spawning, is rejected.  Otherwise,
    once the output has been handled, exit code 0 resolves the run
    without the warning; exit code 1 resolves it, as degraded exactly
    when a Merging event was printed before; and any other exit code, or
    none, rejects it with an error that carries the code. *)
Theorem settlement_by_exit_code (w : world) :
  (import_ok w = false \/ ytdlp_exists w = false \/ spawn_error w <> None ->
   exists e, snd (downloadVideo w) = Rejected e)
  /\ (import_ok w = true -> ytdlp_exists w = true -> spawn_error w = None ->
      forall evs st,
        classify initial (stdout_chunks w) = (evs, Some st) ->
        exists report s,
          downloadVideo w = (evs, report, s)
          /\ (code w = Some 0 -> s = Resolved /\ degraded report = false)
          /\ (code w = Some 1 ->
              s = Resolved /\ degraded report = existsb is_merging evs)
          /\ (code w <> Some 0 -> code w <> Some 1 ->
              report = []
              /\ s = Rejected ("yt-dlp process exited with code "
                               ++ code_text (code w)))).
Proof.
  split.
  - unfold downloadVideo. intros [H | [H | H]].
    + rewrite H. eexists. reflexivity.
    + rewrite H. destruct (import_ok w); eexists; reflexivity.
    + destruct (import_ok w); [| eexists; reflexivity].
      destruct (ytdlp_exists w); [| eexists; reflexivity].
      destruct (spawn_error w); [eexists; reflexivity | congruence].
  - intros H1 H2 H3 evs st Hrun. unfold downloadVideo.
    rewrite H1, H2, H3, Hrun. cbn [negb].
    unfold on_close, completion_report, ffmpeg_advice.
    rewrite (classify_merging _ _ _ Hrun).
    destruct (code w) as [c |].
    + unfold code_is.
      destruct (Z.eqb_spec c 0) as [-> | N0].
      * eexists _, _. split; [reflexivity |].
        split; [intros _; split; reflexivity |].
        split; [discriminate | congruence].
      * destruct (Z.eqb_spec c 1) as [-> | N1].
        -- eexists _, _. split; [reflexivity |].
           split; [discriminate |]. split; [| congruence].
           intros _. split; [reflexivity |].
           cbn. destruct (existsb is_merging evs); reflexivity.
        -- eexists _, _. split; [reflexivity |].
           split; [intros E; injection E as E; contradiction |].
           split; [intros E; injection E as E; contradiction |].
           intros _ _. split; reflexivity.
    + eexists _, _. cbn. split; [reflexivity |].
      split; [discriminate |]. split; [discriminate |].
      intros _ _. split; reflexivity.
Qed.

Lemma settlement_by_exit_code_witness :
  exists report s,
    downloadVideo
      (mkWorld true "yt-dlp" true None
         ["[download] 100% of 10.00MiB" ++ nl; "[Merger] Merging formats" ++ nl]
         (Some 1) "3.50" [])
    = ([Downloading (of_Z 100)
          "  [████████████████████████████████████████] 100.0% | Size: 10.00MiB";
        DownloadCompleted; Merging], report, s)
    /\ s = Resolved /\ degraded report = true.
Proof.
  destruct (settlement_by_exit_code
              (mkWorld true "yt-dlp" true None
                 ["[download] 100% of 10.00MiB" ++ nl;
                  "[Merger] Merging formats" ++ nl]
                 (Some 1) "3.50" [])) as [_ H].
  destruct (H eq_refl eq_refl eq_refl
              [Downloading (of_Z 100)
                 "  [████████████████████████████████████████] 100.0% | Size: 10.00MiB";
               DownloadCompleted; Merging]
              (mkState (of_Z 100) true true))
    as (report & s & E & _ & H1 & _).
  - vm_compute. reflexivity.
  - exists report, s. split; [exact E |]. apply H1. reflexivity.
Defined.

(** The text of an exit code is its decimal numeral. *)
Lemma code_text_digits (c : Z) :
  0 <= c <= 255 -> code_text (Some c) = digits c.
Proof.
  intros Hc.
  assert (H : forallb (fun i => String.eqb (code_text (Some (Z.of_nat i)))
                                  (digits (Z.of_nat i))) (seq 0 256) = true)
    by (vm_compute; reflexivity).
  rewrite forallb_forall in H.
  specialize (H (Z.to_nat c)). rewrite Z2Nat.id in H by lia.
  apply String.eqb_eq, H. apply in_seq. lia.
Qed.

(** The error of a rejected run names the exit code. *)
Lemma rejected_carries_code (w : world) (evs : list event) (st : state)
  (c : Z) :
  import_ok w = true -> ytdlp_exists w = true -> spawn_error w = None ->
  classify initial (stdout_chunks w) = (evs, Some st) ->
  code w = Some c -> 2 <= c <= 255 ->
  downloadVideo w
  = (evs, [], Rejected ("yt-dlp process exited with code " ++ digits c)).
Proof.
  intros H1 H2 H3 Hrun Hc Hr. unfold downloadVideo.
  rewrite H1, H2, H3, Hrun, Hc. cbn [negb]. unfold on_close, code_is.
  destruct (Z.eqb_spec c 0); [lia |]. destruct (Z.eqb_spec c 1); [lia |].
  cbn [orb]. rewrite code_text_digits by lia. reflexivity.
Qed.

Lemma rejected_exit_code_2 :
  downloadVideo
    (mkWorld true "yt-dlp" true None ["ERROR: unavailable" ++ nl] (Some 2)
       "0.80" [])
  = ([], [], Rejected "yt-dlp process exited with code 2").
Proof. vm_compute. reflexivity. Qed.

(** C5, on the code: a run one line of which reports 150 percent is
    not settled, whatever the exit code of the child is: the handler of
    the standard output raises at that line, the exception is caught
    nowhere, and the [close] handler, which alone resolves or rejects
    on the exit code, is never reached. *)
Theorem uncaught_whatever_exit_code (code : exit_code) (downloadTime : string)
  (fileReport : list message) :
  downloadVideo
    (mkWorld true "yt-dlp" true None
       ["[download] 150% of 5.00MiB at 1.00MiB/s" ++ nl] code downloadTime
       fileReport)
  = ([], [], Uncaught).
Proof.
  unfold downloadVideo. cbn [import_ok ytdlp_exists spawn_error negb
                               stdout_chunks].
  assert (E : classify initial
                ["[download] 150% of 5.00MiB at 1.00MiB/s" ++ nl]
              = ([], None)) by (vm_compute; reflexivity).
  rewrite E. reflexivity.
Qed.

(** ** C6 *)

(** C6, as stated, fails: the test of the percentage does not look at
    [isMerging], so a percentage line that follows a merger line writes
    a status line after the Merging event. *)
Lemma downloading_after_merging :
  let evs :=
    fst (classify initial
           ["[Merger] Merging formats into video.mp4" ++ nl;
            "[download]  30.0% of ~10.00MiB" ++ nl]) in
  (exists text, evs = [Merging; Downloading (parseFloat "30.0") text])
  /\ ~ Sorted Nat.le (phases evs).
Proof.
  vm_compute fst. split; [eexists; reflexivity |].
  intros H. inversion H as [| ? ? _ Hd]; subst.
  inversion Hd as [| ? ? Hle]; subst. lia.
Qed.

(** C6, amended: the two flags of the handler only move forward.  In
    the events of a run, nothing that follows the Merging event is a
    second Merging event or a download-completed notice, and nothing
    that follows a status line is the initialisation notice.  (Status
    lines and metadata events are not guarded by a flag.) *)
Theorem flags_move_forward (chunks : list string) :
  (forall l1 l2,
     fst (classify initial chunks) = (l1 ++ Merging :: l2)%list ->
     ~ In Merging l2 /\ ~ In DownloadCompleted l2)
  /\ (forall l1 e l2,
        fst (classify initial chunks) = (l1 ++ e :: l2)%list ->
        is_downloading e = true -> ~ In Initialized l2).
Proof.
  rewrite classify_lines.
  pose proof (process_lines_flags (lines_of chunks) initial) as F.
  destruct (process_lines initial (lines_of chunks)) as [evs r].
  destruct F as [G _]. cbn [fst]. split.
  - intros l1 l2 E. rewrite E in G. eapply guarded_split_merging, G.
  - intros l1 e l2 E He. rewrite E in G.
    eapply guarded_split_downloading; [exact He | exact G].
Qed.

Lemma flags_move_forward_witness :
  ~ In Merging [CleaningUp; EmbeddingMetadata]
  /\ ~ In DownloadCompleted [CleaningUp; EmbeddingMetadata].
Proof.
  destruct (flags_move_forward
              ["[download] 100% of 10.00MiB" ++ nl
               ++ "[Merger] Merging formats into video.mp4" ++ nl
               ++ "[ffmpeg] Deleting original file video.f1.mp4" ++ nl
               ++ "[Metadata] Adding metadata" ++ nl]) as [H _].
  apply (H [Downloading (of_Z 100)
              "  [████████████████████████████████████████] 100.0% | Size: 10.00MiB";
            DownloadCompleted]
           [CleaningUp; EmbeddingMetadata]).
  vm_compute. reflexivity.
Defined.

(** ** C7 *)

(** C7 does not hold of [createProgressBar]: the count of filled glyphs
    is not clamped.  From 102 percent on and down from -2 percent the
    call raises the [RangeError] of [String.prototype.repeat]; at 150
    percent the counts are 60 and -20, at -10 percent -4 and 44.  The
    handler passes on whatever percentage the pattern captured, so a
    line reporting 150 percent raises inside it. *)
Theorem createProgressBar_raises (q : Q) :
  ((102 <= q)%Q \/ (q <= -2)%Q ->
   createProgressBar (Fin q) default_width = None)
  /\ bar_counts (of_Z 150) default_width = (Fin 60, Fin (-20))
  /\ createProgressBar (of_Z 150) default_width = None
  /\ bar_counts (of_Z (-10)) default_width = (Fin (-4), Fin 44)
  /\ createProgressBar (of_Z (-10)) default_width = None
  /\ classify initial ["[download] 150% of ~10.00MiB" ++ nl] = ([], None).
Proof.
  split.
  - intros [H | H];
      [apply createProgressBar_above | apply createProgressBar_below]; exact H.
  - vm_compute. repeat split; reflexivity.
Qed.

Lemma createProgressBar_raises_witness :
  createProgressBar (Fin 250) default_width = None.
Proof.
  destruct (createProgressBar_raises 250) as [H _].
  apply H. left. vm_compute. discriminate.
Defined.

(** ** C8 *)

(** C8, as stated, fails from [1024 ^ 5] on, and already at the three
    byte counts below it, where the quotient of the two logarithms
    rounds to 5: no unit among Bytes, KB, MB, GB and TB is selected, the
    index 5 being past the table. *)
Lemma formatBytes_petabyte :
  unit_index (Fin (inject_Z (1024 ^ 5))) = Fin (inject_Z 5)
  /\ formatBytes (Fin (inject_Z (1024 ^ 5))) 2 = "1 undefined"
  /\ unit_index (Fin (inject_Z (1024 ^ 5 - 1))) = Fin (inject_Z 5)
  /\ formatBytes (Fin (inject_Z (1024 ^ 5 - 1))) 2 = "1 undefined"
  /\ unit_index (Fin (inject_Z (1024 ^ 5 - 3))) = Fin (inject_Z 5).
Proof. vm_compute. repeat split; reflexivity. Qed.

(** C8, amended: [formatBytes(0)] is ["0 Bytes"].  For every byte count
    [1 <= n <= 1024 ^ 5 - 4] the exponent
    [Math.floor(Math.log(n) / Math.log(1024))] is the exact one: the
    unit is the one of Bytes, KB, MB, GB, TB at the index [i] with
    [1024 ^ i <= n < 1024 ^ (i + 1)], that is with a scaled value from 1
    up to 1024; the number is the scaled value rounded to hundredths
    (the larger on a tie), read back as a number and printed, which
    drops its trailing zeros.  So [formatBytes(1536)] is ["1.5 KB"] and
    [formatBytes(1073741824)] is ["1 GB"]. *)
Theorem formatBytes_units (n : Z) :
  formatBytes (of_Z 0) 2 = "0 Bytes"
  /\ (1 <= n <= 1024 ^ 5 - 4 ->
      let i := log1024 n in
      0 <= i <= 4 /\ 1024 ^ i <= n < 1024 ^ (i + 1)
      /\ unit_index (Fin (inject_Z n)) = Fin (inject_Z i)
      /\ exists unit,
           nth_error sizes (Z.to_nat i) = Some unit
           /\ formatBytes (Fin (inject_Z n)) 2
              = to_string (parseFloat (fixed_text (hundredths n (1024 ^ i)) 2))
                ++ " " ++ unit)
  /\ formatBytes (Fin (inject_Z 1536)) 2 = "1.5 KB"
  /\ formatBytes (Fin (inject_Z 1073741824)) 2 = "1 GB".
Proof.
  split; [reflexivity |]. split; [| split; vm_compute; reflexivity].
  intros Hn i.
  assert (Hn' : 1 <= n < 1024 ^ 5) by lia.
  split; [apply log1024_small, Hn' |].
  split; [apply log1024_bounds; lia |].
  assert (Hi : unit_index (Fin (inject_Z n)) = Fin (inject_Z (log1024 n))).
  { apply unit_index_exact. change (2 ^ 50) with (1024 ^ 5). exact Hn. }
  split; [exact Hi |].
  apply formatBytes_in_table; assumption.
Qed.

Lemma formatBytes_units_witness :
  formatBytes (Fin (inject_Z 1234567)) 2 = "1.18 MB"
  /\ formatBytes (Fin (inject_Z (1024 ^ 5 - 4))) 2 = "1024 TB".
Proof.
  split.
  - destruct (formatBytes_units 1234567) as (_ & H & _).
    destruct H as (_ & _ & _ & unit & Hu & ->).
    + vm_compute. split; discriminate.
    + vm_compute in Hu. injection Hu as <-. vm_compute. reflexivity.
  - destruct (formatBytes_units (1024 ^ 5 - 4)) as (_ & H & _).
    destruct H as (_ & _ & _ & unit & Hu & ->).
    + vm_compute. split; discriminate.
    + vm_compute in Hu. injection Hu as <-. vm_compute. reflexivity.
Defined.

(** ** C9 *)

(** C9, as stated, fails on an input that is neither a key nor a number
    in range: [parseInt] reads the leading digit of ["1abc"], and the
    first key of the catalog is selected instead of ["best"]. *)
Lemma select_quality_leading_digit :
  select_quality "1abc" = ("360", false).
Proof. vm_compute. reflexivity. Qed.

Lemma existsb_eqb_In (k : string) (l : list string) :
  existsb (String.eqb k) l = true <-> In k l.
Proof.
  rewrite existsb_exists. split.
  - intros (x & Hx & E). apply String.eqb_eq in E. subst. exact Hx.
  - intros H. exists k. split; [exact H | apply String.eqb_refl].
Qed.

(** C9, amended: an input from which [parseInt] reads a number from 1
    to 8 (an optional sign, an optional [0x], the leading digits)
    selects the key at that position of [Object.keys]; a key of the
    catalog, in any case, selects itself and its own profile; any other
    input, unless it names a property that the catalog inherits from
    [Object.prototype], selects ["best"], with the warning unless the
    input is empty.  The selection always returns.  So ["720"] selects
    ["720"], and ["9"] and the empty input select ["best"]. *)
Theorem select_quality_spec (s : string) :
  (forall k, 1 <= k <= 8 -> parseInt s = of_Z k ->
     select_quality s
     = (nth (Z.to_nat (k - 1)) (Object_keys qualities) "", false))
  /\ (forall p, assoc (toLowerCase s) qualities = Some p ->
        select_quality s = (toLowerCase s, false)
        /\ format_of (toLowerCase s) = format p
        /\ label_of (toLowerCase s) = label p)
  /\ ((forall k, 1 <= k <= 8 -> parseInt s <> of_Z k) ->
      assoc (toLowerCase s) qualities = None ->
      ~ In (toLowerCase s) inherited_names ->
      select_quality s = ("best", negb (String.eqb s "")))
  /\ select_quality "720" = ("720", false)
  /\ select_quality "9" = ("best", true)
  /\ select_quality "" = ("best", false).
Proof.
  split; [intros k Hk E; apply select_quality_by_position; assumption |].
  split; [| split; [| vm_compute; repeat split; reflexivity]].
  - intros p H. split; [eapply select_quality_key, H |].
    unfold format_of, label_of, qualities_get. rewrite H. split; reflexivity.
  - intros Hk Ha Hi. rewrite (select_quality_by_key s Hk). cbv zeta.
    destruct (String.eqb_spec s "") as [-> | Hs]; [reflexivity |].
    destruct (String.eqb_spec (toLowerCase s) "") as [E | _];
      [apply toLowerCase_empty in E; contradiction |].
    unfold qualities_get. rewrite Ha.
    destruct (existsb (String.eqb (toLowerCase s)) inherited_names) eqn:E.
    + apply existsb_eqb_In in E. contradiction.
    + reflexivity.
Qed.

Lemma select_quality_spec_witness :
  select_quality "3" = ("720", false)
  /\ select_quality "AUDIO" = ("audio", false)
  /\ select_quality "4k" = ("1080", false)
  /\ select_quality "ultra" = ("best", true).
Proof.
  split; [| split; [| split]].
  - destruct (select_quality_spec "3") as (H & _).
    apply (H 3); [lia | vm_compute; reflexivity].
  - destruct (select_quality_spec "AUDIO") as (_ & H & _).
    apply (H (mkProfile "bestaudio/best" "Audio Only (Best Quality)")).
    vm_compute. reflexivity.
  - destruct (select_quality_spec "4k") as (H & _).
    apply (H 4); [lia | vm_compute; reflexivity].
  - destruct (select_quality_spec "ultra") as (_ & _ & H & _).
    apply H.
    + intros k Hk. rewrite (of_Z_position k Hk). vm_compute. discriminate.
    + vm_compute. reflexivity.
    + vm_compute. intuition discriminate.
Defined.

(** ** C10 *)

(** C10: for every integer [n] with [1024 ^ 5 <= n < 2 ^ 1024] (every
    finite number is below [2 ^ 1024]), the exponent that the code
    computes is 5 or more, so [sizes[i]] is read past the end of the
    table: the unit is [undefined] and the text ends in ["undefined"].
    [Infinity] gives ["NaN undefined"]. *)
Theorem formatBytes_past_TB (n : Z) :
  1024 ^ 5 <= n -> n < 2 ^ 1024 ->
  (exists j, 5 <= j /\ unit_index (Fin (inject_Z n)) = Fin (inject_Z j))
  /\ array_get sizes (unit_index (Fin (inject_Z n))) = None
  /\ (exists num, formatBytes (Fin (inject_Z n)) 2 = num ++ " undefined")
  /\ formatBytes PosInf 2 = "NaN undefined".
Proof.
  intros Hn Hf.
  destruct (unit_index_past n) as (j & Hj & Hi).
  { change (2 ^ 50) with (1024 ^ 5). lia. }
  assert (Hg : array_get sizes (Fin (inject_Z j)) = None).
  { apply array_get_past. simpl. lia. }
  split; [exists j; split; assumption |].
  rewrite Hi. split; [exact Hg |]. split; [| vm_compute; reflexivity].
  unfold formatBytes. rewrite (strict_eq_zero n) by lia. rewrite Hi, Hg.
  eexists. reflexivity.
Qed.

Lemma formatBytes_past_TB_witness :
  array_get sizes (unit_index (Fin (inject_Z (2 ^ 60 - 128)))) = None
  /\ exists num,
       formatBytes (Fin (inject_Z (2 ^ 60 - 128))) 2 = num ++ " undefined".
Proof.
  destruct (formatBytes_past_TB (2 ^ 60 - 128)) as (_ & H1 & H2 & _).
  - vm_compute. discriminate.
  - reflexivity.
  - split; assumption.
Defined.

(** * Further properties of the code *)

(** ** Strings *)

Lemma string_app_assoc (a b c : string) : (a ++ b) ++ c = a ++ b ++ c.
Proof.
  induction a as [| x a IH]; simpl; [reflexivity | rewrite IH; reflexivity].
Qed.

Lemma append_nil_r (s : string) : s ++ "" = s.
Proof. induction s as [| c s IH]; simpl; [| rewrite IH]; reflexivity. Qed.

Lemma substring_nil (a n : nat) : substring a n "" = "".
Proof. destruct a, n; reflexivity. Qed.

Lemma substring_length (n : nat) (s : string) :
  (String.length (substring 0 n s) <= n)%nat.
Proof.
  revert s. induction n as [| n IH]; intros [| c s]; simpl; try lia.
  specialize (IH s). lia.
Qed.

Lemma substring_all (n : nat) (s : string) :
  (String.length s <= n)%nat -> substring 0 n s = s.
Proof.
  revert s. induction n as [| n IH]; intros [| c s]; simpl; intros H;
    try reflexivity; try lia.
  rewrite IH by lia. reflexivity.
Qed.

Lemma substring_empty (n : nat) (s : string) :
  substring 0 (S n) s = "" <-> s = "".
Proof. destruct s; simpl; split; intros H; try reflexivity; discriminate. Qed.

Lemma substring_split (s : string) :
  forall a b c : nat,
    substring a (b + c) s = substring a b s ++ substring (a + b) c s.
Proof.
  induction s as [| x s IH]; intros a b c.
  - rewrite !substring_nil. reflexivity.
  - destruct a as [| a].
    + destruct b as [| b].
      * simpl. destruct c; reflexivity.
      * simpl. rewrite (IH 0%nat b c). reflexivity.
    + simpl. apply IH.
Qed.

Lemma substring_full_length (a n : nat) (s : string) :
  (a + n <= String.length s)%nat -> String.length (substring a n s) = n.
Proof.
  revert a n. induction s as [| c s IH]; intros a n H.
  - simpl in H. assert (a = 0 /\ n = 0)%nat as [-> ->] by lia. reflexivity.
  - destruct a as [| a].
    + destruct n as [| n]; [reflexivity |]. simpl in *.
      rewrite (IH 0%nat n) by lia. reflexivity.
    + simpl in *. apply IH. lia.
Qed.

(** [trim] and the test of a blank line. *)

Lemma blank_skip_spaces (s : string) : blank (skip_spaces s) = blank s.
Proof.
  induction s as [| c s IH]; [reflexivity |].
  simpl. destruct (is_space c) eqn:E; [exact IH |].
  simpl. rewrite E. reflexivity.
Qed.

Lemma blank_trim_end (s : string) : blank (trim_end s) = blank s.
Proof.
  induction s as [| c s IH]; [reflexivity |].
  simpl. destruct (is_space c && blank s) eqn:E; [reflexivity |].
  simpl. rewrite IH. exact E.
Qed.

Lemma trim_end_empty (s : string) : trim_end s = "" <-> blank s = true.
Proof.
  destruct s as [| c s]; [simpl; tauto |].
  simpl. destruct (is_space c && blank s); split; intros H;
    try reflexivity; discriminate.
Qed.

Lemma trim_empty (s : string) : trim s = "" <-> blank s = true.
Proof. unfold trim. rewrite trim_end_empty. rewrite blank_skip_spaces. tauto. Qed.

Lemma trim_end_idem (s : string) : trim_end (trim_end s) = trim_end s.
Proof.
  induction s as [| c s IH]; [reflexivity |].
  simpl. destruct (is_space c && blank s) eqn:E; [reflexivity |].
  simpl. rewrite blank_trim_end, E, IH. reflexivity.
Qed.

Lemma skip_spaces_head (s : string) :
  match skip_spaces s with
  | String c _ => is_space c = false
  | EmptyString => True
  end.
Proof.
  induction s as [| c s IH]; [exact I |].
  simpl. destruct (is_space c) eqn:E; [exact IH | exact E].
Qed.

Lemma trim_idem (s : string) : trim (trim s) = trim s.
Proof.
  unfold trim at 2 3. pose proof (skip_spaces_head s) as H.
  destruct (skip_spaces s) as [| c u]; [reflexivity |].
  unfold trim. cbn [trim_end]. rewrite H. cbn [andb skip_spaces]. rewrite H.
  change (String c (trim_end u)) with (String c (trim_end u)).
  cbn [trim_end]. rewrite H. cbn [andb]. rewrite trim_end_idem. reflexivity.
Qed.

(** The characters of a string. *)

Lemma all_chars_In (P : ascii -> bool) (s : string) :
  all_chars P s = true
  <-> forall c, In c (list_ascii_of_string s) -> P c = true.
Proof.
  induction s as [| x s IH]; simpl.
  - split; [intros _ c [] | reflexivity].
  - rewrite andb_true_iff, IH. split.
    + intros [Hx Hs] c [<- | Hc]; auto.
    + intros H. split; [apply H; left; reflexivity |].
      intros c Hc. apply H. right. exact Hc.
Qed.

Lemma all_chars_app (P : ascii -> bool) (a b : string) :
  all_chars P (a ++ b) = all_chars P a && all_chars P b.
Proof.
  induction a as [| x a IH]; simpl; [reflexivity |].
  rewrite IH, andb_assoc. reflexivity.
Qed.

Lemma all_chars_skip_spaces (P : ascii -> bool) (s : string) :
  all_chars P s = true -> all_chars P (skip_spaces s) = true.
Proof.
  induction s as [| c s IH]; [auto |].
  simpl. intros H. apply andb_true_iff in H as [Hc Hs].
  destruct (is_space c); [auto |]. simpl. rewrite Hc, Hs. reflexivity.
Qed.

Lemma all_chars_trim_end (P : ascii -> bool) (s : string) :
  all_chars P s = true -> all_chars P (trim_end s) = true.
Proof.
  induction s as [| c s IH]; [auto |].
  simpl. intros H. apply andb_true_iff in H as [Hc Hs].
  destruct (is_space c && blank s); [reflexivity |].
  simpl. rewrite Hc. auto.
Qed.

Lemma all_chars_substring (P : ascii -> bool) (n : nat) (s : string) :
  all_chars P s = true -> all_chars P (substring 0 n s) = true.
Proof.
  revert s. induction n as [| n IH]; intros [| c s] H; try reflexivity.
  simpl in *. apply andb_true_iff in H as [Hc Hs]. rewrite Hc. simpl.
  apply IH, Hs.
Qed.

(** ** [formatTime] *)

Section TimeFacts.

Local Open Scope Q_scope.

(** The quotient of two integers, rounded and floored, is their integer
    quotient, while the divisor is small against the precision left. *)
Lemma floor_fdiv_exact (a d : Z) :
  (0 <= a < 2 ^ 40)%Z -> (0 < d <= 4096)%Z ->
  Math_floor (fdiv (Fin (inject_Z a)) (Fin (inject_Z d)))
  = Fin (inject_Z (a / d)).
Proof.
  intros Ha Hd. unfold fdiv.
  assert (Hz : is_zero (inject_Z d) = false).
  { unfold is_zero. simpl. apply Z.eqb_neq. lia. }
  rewrite Hz.
  set (k := (a / d)%Z).
  assert (Hk : (0 <= k)%Z) by (apply Z.div_pos; lia).
  assert (Hk2 : (k < 2 ^ 40)%Z).
  { subst k. apply Z.div_lt_upper_bound; [lia |]. nia. }
  assert (Hdiv : (d * k <= a < d * k + d)%Z).
  { subst k. pose proof (Z.mul_div_le a d). pose proof (Z.mul_succ_div_gt a d).
    lia. }
  assert (Hdq : 0 < inject_Z d).
  { change 0 with (inject_Z 0). rewrite <- Zlt_Qlt. lia. }
  assert (Hlow : inject_Z k <= inject_Z a / inject_Z d).
  { apply Qle_shift_div_l; [exact Hdq |].
    rewrite <- inject_Z_mult, <- Zle_Qle. lia. }
  set (R := inject_Z ((k + 1) * 4096 - 1) * 2 ^ (-12)).
  assert (HR : representable R).
  { exists ((k + 1) * 4096 - 1)%Z, (-12)%Z.
    split; [lia |]. split; [lia | reflexivity]. }
  assert (HRv : R == inject_Z (k + 1) - (1 # 4096)).
  { subst R. change (2 ^ (-12)) with (1 # 4096).
    unfold Zminus. rewrite inject_Z_plus, inject_Z_mult, inject_Z_opp.
    change (inject_Z 4096) with 4096. change (inject_Z 1) with 1. field. }
  assert (Hup : inject_Z a / inject_Z d <= R).
  { apply Qle_shift_div_r; [exact Hdq |]. rewrite HRv.
    assert (H1 : inject_Z a <= inject_Z (d * k + d - 1))
      by (rewrite <- Zle_Qle; lia).
    assert (H2 : inject_Z d <= 4096)
      by (change 4096 with (inject_Z 4096); rewrite <- Zle_Qle; lia).
    unfold Zminus in H1.
    rewrite !inject_Z_plus, inject_Z_mult, inject_Z_opp in H1.
    rewrite inject_Z_plus.
    change (inject_Z 1) with 1 in *.
    nra. }
  destruct (round64_le (Qred (inject_Z a / inject_Z d)) R HR)
    as (r & E & L & U).
  { rewrite Qred_correct.
    assert (Hk0 : 0 <= inject_Z k)
      by (change 0 with (inject_Z 0); rewrite <- Zle_Qle; exact Hk).
    lra. }
  { rewrite Qred_correct. exact Hup. }
  rewrite E. unfold Math_floor. f_equal. f_equal.
  assert (Hrl : inject_Z k <= r).
  { destruct (Z.eq_dec k 0) as [-> | Hne]; [exact L |].
    assert (Rk : representable (inject_Z k))
      by (apply representable_int; lia).
    destruct (round64_ge (Qred (inject_Z a / inject_Z d)) (inject_Z k) Rk)
      as [E' | (r' & E' & Hr')].
    - rewrite Qred_correct. exact Hlow.
    - rewrite E in E'. discriminate.
    - rewrite E in E'. injection E' as <-. exact Hr'. }
  assert (Hru : r < inject_Z (k + 1)).
  { rewrite inject_Z_plus in *. change (inject_Z 1) with 1 in *. lra. }
  apply Z.le_antisymm.
  - apply Z.lt_succ_r. rewrite Zlt_Qlt. eapply Qle_lt_trans; [apply Qfloor_le |].
    unfold Z.succ. exact Hru.
  - rewrite <- (Qfloor_Z k). apply Qfloor_resp_le. exact Hrl.
Qed.

Lemma frem_exact (a d : Z) :
  (0 <= a)%Z -> (0 < d)%Z ->
  frem (Fin (inject_Z a)) (Fin (inject_Z d)) = Fin (inject_Z (a mod d)).
Proof.
  intros Ha Hd. unfold frem.
  assert (Hz : is_zero (inject_Z d) = false).
  { unfold is_zero. simpl. apply Z.eqb_neq. lia. }
  rewrite Hz. f_equal.
  assert (Hn : is_neg (inject_Z a / inject_Z d) = false).
  { unfold is_neg. apply Z.ltb_ge. destruct d as [| p | p]; try lia.
    simpl. lia. }
  unfold Qtrunc. rewrite Hn, <- Zdiv_Qdiv.
  rewrite <- (Qred_inject_Z (a mod d)). apply Qred_complete.
  rewrite <- inject_Z_mult. unfold Qminus. rewrite <- inject_Z_opp, <- inject_Z_plus.
  rewrite Z.mod_eq by lia. reflexivity.
Qed.

End TimeFacts.

Lemma padStart_two_digits (k : Z) :
  0 <= k < 100 ->
  padStart (to_string (Fin (inject_Z k))) 2 "0" = two_digits k.
Proof.
  intros Hk.
  assert (H : forallb (fun i => String.eqb
                         (padStart (to_string (Fin (inject_Z (Z.of_nat i)))) 2 "0")
                         (two_digits (Z.of_nat i))) (seq 0 100) = true)
    by (vm_compute; reflexivity).
  rewrite forallb_forall in H.
  specialize (H (Z.to_nat k)). rewrite Z2Nat.id in H by lia.
  apply String.eqb_eq, H. apply in_seq. lia.
Qed.

Lemma formatTime_seconds_gen (n : Z) :
  0 <= n < 2 ^ 40 ->
  formatTime (Some (Fin (inject_Z n)))
  = (if 0 <? n / 3600
     then padStart (to_string (Fin (inject_Z (n / 3600)))) 2 "0" ++ ":"
     else "")
    ++ two_digits (n mod 3600 / 60) ++ ":" ++ two_digits (n mod 60).
Proof.
  intros Hn. unfold formatTime, falsy, is_zero. cbn [Qnum inject_Z].
  destruct (Z.eqb_spec n 0) as [-> | Hne]; [reflexivity |].
  change (of_Z 3600) with (Fin (inject_Z 3600)).
  change (of_Z 60) with (Fin (inject_Z 60)).
  change (of_Z 0) with (Fin (inject_Z 0)).
  rewrite !frem_exact by lia.
  assert (H1 : 0 <= n mod 3600 < 3600) by (apply Z.mod_pos_bound; lia).
  assert (H2 : 0 <= n mod 60 < 60) by (apply Z.mod_pos_bound; lia).
  rewrite !floor_fdiv_exact by lia.
  unfold Math_floor. rewrite Qfloor_Z.
  assert (H3 : 0 <= n mod 3600 / 60 < 60).
  { split; [apply Z.div_pos; lia | apply Z.div_lt_upper_bound; lia]. }
  rewrite !(padStart_two_digits (n mod 3600 / 60)) by lia.
  rewrite !(padStart_two_digits (n mod 60)) by lia.
  assert (Hg : gt_bool (Fin (inject_Z (n / 3600))) (Fin (inject_Z 0))
               = (0 <? n / 3600)%Z).
  { unfold gt_bool, lt_bool, Qle_bool. simpl.
    rewrite Z.mul_1_r. destruct (Z.leb_spec (n / 3600) 0), (Z.ltb_spec 0 (n / 3600)); simpl; try reflexivity; lia. }
  rewrite Hg. destruct (0 <? n / 3600)%Z.
  - rewrite !string_app_assoc. reflexivity.
  - reflexivity.
Qed.

(** X1: on a whole number of seconds below a hundred hours,
    [formatTime] gives the minutes and the seconds on two digits each,
    after the hours, on two digits, when there is at least one; the
    divisions and remainders of lines 57-59 are exact there. *)
Theorem formatTime_seconds (n : Z) :
  0 <= n < 360000 ->
  formatTime (Some (Fin (inject_Z n)))
  = (if 0 <? n / 3600 then two_digits (n / 3600) ++ ":" else "")
    ++ two_digits (n mod 3600 / 60) ++ ":" ++ two_digits (n mod 60).
Proof.
  intros Hn. rewrite formatTime_seconds_gen by lia.
  rewrite padStart_two_digits; [reflexivity |].
  split; [apply Z.div_pos; lia | apply Z.div_lt_upper_bound; lia].
Qed.

Lemma formatTime_seconds_witness :
  formatTime (Some (Fin (inject_Z 3725))) = "01:02:05".
Proof. apply (formatTime_seconds 3725). lia. Defined.

(** ** [createProgressBar] around the range of a percentage *)

Section BarRange.

Local Open Scope Q_scope.

Lemma round64_between_neg (q R : Q) :
  representable R -> - R <= q -> q <= 0 ->
  exists r, round64 q = Fin r /\ - R <= r /\ r <= 0.
Proof.
  intros HR Hl Hu.
  destruct (round64_le (- q) R HR) as (r' & E & L & U); [lra | lra |].
  rewrite round64_opp in E.
  destruct (round64 q) as [| | | r]; try discriminate.
  simpl in E. injection E as E. exists r. split; [reflexivity |].
  rewrite <- E in L, U. lra.
Qed.

Lemma bar_counts_wide (q : Q) :
  -1 <= q -> q <= 101 ->
  exists F : Z,
    (0 <= F <= 40)%Z
    /\ (100 <= q -> F = 40%Z) /\ (q <= 0 -> F = 0%Z)
    /\ bar_counts (Fin q) default_width
       = (Fin (inject_Z F), Fin (inject_Z (40 - F))).
Proof.
  intros Hl Hu.
  assert (Hsub : forall F : Z, (0 <= F <= 40)%Z ->
            fsub (Fin 40) (Fin (inject_Z F)) = Fin (inject_Z (40 - F))).
  { intros F HF. unfold fsub.
    assert (E : Qred (40 - inject_Z F) = inject_Z (40 - F)).
    { rewrite <- (Qred_inject_Z (40 - F)). apply Qred_complete.
      unfold Zminus. rewrite inject_Z_plus, inject_Z_opp. reflexivity. }
    rewrite E. apply of_Z_exact. lia. }
  destruct (Qlt_le_dec 0 q) as [Hpos | Hneg];
    [destruct (Qlt_le_dec q 100) as [Hlt | Hge] |].
  - destruct (bar_counts_in_range q) as (F & HF & E); [lra | lra |].
    exists F. split; [exact HF |]. split; [lra |]. split; [lra | exact E].
  - exists 40%Z. split; [lia |]. split; [reflexivity |]. split; [lra |].
    unfold bar_counts.
    change (of_Z 100) with (Fin 100). change default_width with (Fin 40).
    unfold fdiv. change (is_zero 100) with false. cbv iota.
    assert (R1 : representable 1) by (apply (representable_int 1); lia).
    assert (R2 : representable (2073 # 2048)).
    { exists 2073%Z, (-11)%Z. split; [lia |]. split; [lia | reflexivity]. }
    assert (R3 : representable 40) by (apply (representable_int 40); lia).
    assert (R4 : representable (10365 # 256)).
    { exists 10365%Z, (-8)%Z. split; [lia |]. split; [lia | reflexivity]. }
    assert (Hq : 1 <= q / 100 /\ q / 100 <= 2073 # 2048).
    { split; [apply Qle_shift_div_l | apply Qle_shift_div_r];
        try reflexivity; lra. }
    destruct (round64_le (Qred (q / 100)) (2073 # 2048) R2)
      as (r1 & E1 & L1 & U1); [rewrite Qred_correct; lra .. |].
    destruct (round64_ge (Qred (q / 100)) 1 R1) as [E | (r & E & G1)];
      [rewrite Qred_correct; lra | rewrite E1 in E; discriminate |].
    rewrite E1 in E. injection E as <-. rewrite E1. unfold fmul.
    destruct (round64_le (Qred (r1 * 40)) (10365 # 256) R4)
      as (r2 & E2 & L2 & U2); [rewrite Qred_correct; lra .. |].
    destruct (round64_ge (Qred (r1 * 40)) 40 R3) as [E | (r & E & G2)];
      [rewrite Qred_correct; lra | rewrite E2 in E; discriminate |].
    rewrite E2 in E. injection E as <-. rewrite E2. unfold Math_round.
    assert (EF : Qfloor (r2 + (1 # 2)) = 40%Z).
    { apply Qfloor_between.
      - change (inject_Z 40) with 40. lra.
      - change (inject_Z (40 + 1)) with 41. lra. }
    rewrite EF, (Hsub 40%Z) by lia. reflexivity.
  - exists 0%Z. split; [lia |]. split; [lra |]. split; [reflexivity |].
    unfold bar_counts.
    change (of_Z 100) with (Fin 100). change default_width with (Fin 40).
    unfold fdiv. change (is_zero 100) with false. cbv iota.
    assert (R1 : representable (3 # 256)).
    { exists 3%Z, (-8)%Z. split; [lia |]. split; [lia | reflexivity]. }
    assert (R2 : representable (15 # 32)).
    { exists 15%Z, (-5)%Z. split; [lia |]. split; [lia | reflexivity]. }
    assert (Hq : - (3 # 256) <= q / 100 /\ q / 100 <= 0).
    { split; [apply Qle_shift_div_l | apply Qle_shift_div_r];
        try reflexivity; lra. }
    destruct (round64_between_neg (Qred (q / 100)) (3 # 256) R1)
      as (r1 & E1 & L1 & U1); [rewrite Qred_correct; lra .. |].
    rewrite E1. unfold fmul.
    destruct (round64_between_neg (Qred (r1 * 40)) (15 # 32) R2)
      as (r2 & E2 & L2 & U2); [rewrite Qred_correct; lra .. |].
    rewrite E2. unfold Math_round.
    assert (EF : Qfloor (r2 + (1 # 2)) = 0%Z).
    { apply Qfloor_between.
      - change (inject_Z 0) with 0. lra.
      - change (inject_Z (0 + 1)) with 1. lra. }
    rewrite EF, (Hsub 0%Z) by lia. reflexivity.
Qed.

End BarRange.

(** X2: from -1 to 101 percent [createProgressBar] returns a bar of
    40 glyphs; the bar is full from 100 percent on and empty up to 0
    percent. *)
Theorem createProgressBar_returns (q : Q) :
  (-1 <= q)%Q -> (q <= 101)%Q ->
  exists f e : nat,
    createProgressBar (Fin q) default_width
    = Some ("[" ++ repeat_string "█" f ++ repeat_string "░" e ++ "]")
    /\ (f + e = 40)%nat
    /\ ((100 <= q)%Q -> f = 40%nat) /\ ((q <= 0)%Q -> f = 0%nat).
Proof.
  intros Hl Hu.
  destruct (bar_counts_wide q Hl Hu) as (F & HF & H100 & H0 & E).
  unfold createProgressBar. rewrite E.
  rewrite !repeat_count_nat by lia.
  exists (Z.to_nat F), (Z.to_nat (40 - F)). split; [reflexivity |].
  split; [lia |]. split; intros H.
  - rewrite (H100 H). reflexivity.
  - rewrite (H0 H). reflexivity.
Qed.

Lemma createProgressBar_returns_witness :
  exists f e : nat,
    createProgressBar (Fin (201 # 2)) default_width
    = Some ("[" ++ repeat_string "█" f ++ repeat_string "░" e ++ "]")
    /\ (f + e = 40)%nat
    /\ ((100 <= 201 # 2)%Q -> f = 40%nat) /\ ((201 # 2 <= 0)%Q -> f = 0%nat).
Proof.
  apply (createProgressBar_returns (201 # 2)).
  - vm_compute. discriminate.
  - vm_compute. discriminate.
Defined.

(** ** [displayQualityOptions] *)

Lemma Object_entries_qualities :
  Object_entries qualities
  = [ ("360", mkProfile "bestvideo[height<=360]+bestaudio/best" "Low (360p)");
      ("480", mkProfile "bestvideo[height<=480]+bestaudio/best" "SD (480p)");
      ("720", mkProfile "bestvideo[height<=720]+bestaudio/best" "HD (720p)");
      ("1080", mkProfile "bestvideo[height<=1080]+bestaudio/best"
                 "Full HD (1080p)");
      ("1440", mkProfile "bestvideo[height<=1440]+bestaudio/best" "2K (1440p)");
      ("2160", mkProfile "bestvideo[height<=2160]+bestaudio/best" "4K (2160p)");
      ("audio", mkProfile "bestaudio/best" "Audio Only (Best Quality)");
      ("best", mkProfile "bestvideo+bestaudio/best" "Best Available Quality") ].
Proof. vm_compute. reflexivity. Qed.

(** X3: the number that [displayQualityOptions] shows beside an option
    selects that option at the prompt of [main], as its key does; the
    label shown is the label of the key. *)
Theorem menu_number_selects (n : nat) (key : string) (value : profile) :
  nth_error (Object_entries qualities) n = Some (key, value) ->
  nth_error displayQualityOptions (3 + n)
  = Some ("  " ++ digits (Z.of_nat n + 1) ++ ". " ++ label value
          ++ " (" ++ key ++ ")")
  /\ select_quality (digits (Z.of_nat n + 1)) = (key, false)
  /\ select_quality key = (key, false)
  /\ label_of key = label value
  /\ format_of key = format value.
Proof.
  rewrite Object_entries_qualities. intros H.
  do 8 (destruct n as [| n];
        [cbn [nth_error] in H; injection H as <- <-; vm_compute; auto |]).
  destruct n; discriminate.
Qed.

Lemma menu_number_selects_witness :
  nth_error displayQualityOptions 5
  = Some "  3. HD (720p) (720)"
  /\ select_quality "3" = ("720", false)
  /\ select_quality "720" = ("720", false)
  /\ label_of "720" = "HD (720p)"
  /\ format_of "720" = "bestvideo[height<=720]+bestaudio/best".
Proof.
  apply (menu_number_selects 2 "720"
           (mkProfile "bestvideo[height<=720]+bestaudio/best" "HD (720p)")).
  vm_compute. reflexivity.
Defined.

(** ** [getVideoInfo] *)

(** X4: the upload date is shown as its first four characters, the
    next two and the next two, with a dash between them: for a date of
    eight characters, three fields of lengths 4, 2 and 2 that make up
    the date. *)
Theorem upload_date_text_spec (d : string) :
  d <> "" ->
  exists y m dd,
    upload_date_text (Some d) = y ++ "-" ++ m ++ "-" ++ dd
    /\ y ++ m ++ dd = substring 0 8 d
    /\ ((8 <= String.length d)%nat ->
        String.length y = 4%nat /\ String.length m = 2%nat
        /\ String.length dd = 2%nat)
    /\ (String.length d = 8%nat -> y ++ m ++ dd = d).
Proof.
  intros Hd. unfold upload_date_text.
  apply String.eqb_neq in Hd. rewrite Hd.
  exists (slice d 0 4), (slice d 4 6), (slice d 6 8).
  unfold slice. cbn [Nat.sub].
  assert (E : substring 0 4 d ++ substring 4 2 d ++ substring 6 2 d
              = substring 0 8 d).
  { change 8%nat with (4 + (2 + 2))%nat.
    rewrite (substring_split d 0 4 (2 + 2)).
    change (0 + 4)%nat with 4%nat.
    rewrite (substring_split d 4 2 2). reflexivity. }
  split; [reflexivity |]. split; [exact E |]. split.
  - intros H. repeat split; apply substring_full_length; simpl; lia.
  - intros H. rewrite E. apply substring_all. lia.
Qed.

Lemma upload_date_text_spec_witness :
  exists y m dd,
    upload_date_text (Some "20240131") = y ++ "-" ++ m ++ "-" ++ dd
    /\ y ++ m ++ dd = substring 0 8 "20240131"
    /\ ((8 <= String.length "20240131")%nat ->
        String.length y = 4%nat /\ String.length m = 2%nat
        /\ String.length dd = 2%nat)
    /\ (String.length "20240131" = 8%nat -> y ++ m ++ dd = "20240131").
Proof. apply (upload_date_text_spec "20240131"). discriminate. Defined.

Lemma In_tall (k : Z) (fs : list (option Z)) :
  In k (flat_map tall fs) <-> In (Some k) fs /\ k <> 0.
Proof.
  rewrite in_flat_map. split.
  - intros ([h |] & Hin & Hk); simpl in Hk; [| contradiction].
    destruct (Z.eqb_spec h 0); [contradiction |].
    destruct Hk as [<- | []]. auto.
  - intros [Hin Hk]. exists (Some k). split; [exact Hin |].
    simpl. destruct (Z.eqb_spec k 0); [contradiction | left; reflexivity].
Qed.

Lemma sort_desc_head (l : list Z) :
  match sort_desc l with
  | [] => l = []
  | m :: _ => In m l /\ forall k, In k l -> k <= m
  end.
Proof.
  induction l as [| x l IH]; [reflexivity |].
  simpl. destruct (sort_desc l) as [| m r].
  - subst l. simpl. split; [auto |]. intros k [<- | []]. lia.
  - destruct IH as [Hm Hmax]. simpl.
    destruct (Z.leb_spec (m - x) 0).
    + split; [left; reflexivity |].
      intros k [<- | Hk]; [lia |]. specialize (Hmax k Hk). lia.
    + split; [right; exact Hm |].
      intros k [<- | Hk]; [lia |]. apply Hmax, Hk.
Qed.

(** X5: the height of the message [Maximum available quality] is the
    largest height, other than zero, of the formats; the message is
    left out exactly when no format has such a height. *)
Theorem maxHeight_spec (fs : list (option Z)) :
  match maxHeight (Some fs) with
  | Some h =>
      In (Some h) fs /\ h <> 0
      /\ forall k, In (Some k) fs -> k <> 0 -> k <= h
  | None => forall k, In (Some k) fs -> k = 0
  end.
Proof.
  unfold maxHeight. pose proof (sort_desc_head (flat_map tall fs)) as H.
  destruct (sort_desc (flat_map tall fs)) as [| m r].
  - intros k Hk. destruct (Z.eq_dec k 0) as [E | E]; [exact E |].
    assert (Hin : In k (flat_map tall fs)) by (apply In_tall; auto).
    rewrite H in Hin. destruct Hin.
  - destruct H as [Hm Hmax]. apply In_tall in Hm as [Hm Hz].
    split; [exact Hm |]. split; [exact Hz |].
    intros k Hk Hk0. apply Hmax, In_tall. auto.
Qed.

(** ** The arguments of the child process *)

Lemma assoc_In (k : string) (p : profile) (o : list (string * profile)) :
  assoc k o = Some p -> In (k, p) o.
Proof.
  induction o as [| [k' p'] o IH]; [discriminate |].
  simpl. destruct (String.eqb_spec k k') as [-> | _].
  - intros E. injection E as <-. left. reflexivity.
  - intros E. right. apply IH, E.
Qed.

Lemma format_of_catalog (quality : string) :
  In (format_of quality) (map (fun e => format (snd e)) qualities).
Proof.
  unfold format_of, qualities_get.
  destruct (assoc quality qualities) as [p |] eqn:E.
  - apply (in_map (fun e => format (snd e)) qualities (quality, p)).
    apply assoc_In, E.
  - destruct (existsb _ _); simpl; tauto.
Qed.

Lemma format_of_no_option (quality : string) :
  format_of quality <> "--merge-output-format"
  /\ format_of quality <> "--format".
Proof.
  pose proof (format_of_catalog quality) as H. simpl in H.
  split; intros E; rewrite E in H;
    repeat (destruct H as [H | H]; [discriminate |]); exact H.
Qed.

(** X6: the arguments handed to [spawn], for a URL and an output path
    that are not themselves the options searched by [indexOf].  With
    [ffmpeg] the list of line 233 is followed by the metadata options of
    an audio download and by the location of [ffmpeg]; without it the
    merge option and its value are taken out and, unless the quality is
    [audio], the format becomes the single-file format bounded by the
    text of the quality. *)
Theorem args_spec (url quality outputPath ffmpeg : string) :
  url <> "--merge-output-format" -> url <> "--format" ->
  outputPath <> "--merge-output-format" -> ffmpeg <> "" ->
  let audio := String.eqb quality "audio" in
  let extra :=
    if audio then ["--embed-thumbnail"; "--embed-metadata"; "--add-metadata"]
    else [] in
  args url quality outputPath (Some ffmpeg)
  = ([ url; "--format"; format_of quality; "--output"; outputPath;
       "--merge-output-format"; if audio then "mp3" else "mp4";
       "--newline"; "--no-playlist" ]
     ++ extra ++ ["--ffmpeg-location"; ffmpeg])%list
  /\ args url quality outputPath None
     = ([ url; "--format";
          if audio then format_of quality
          else ("best[height<=" ++ quality ++ "]/best")%string;
          "--output"; outputPath; "--newline"; "--no-playlist" ]
        ++ extra)%list.
Proof.
  intros Hu1 Hu2 Ho Hf audio extra.
  apply String.eqb_neq in Hu1, Hu2, Ho, Hf.
  destruct (format_of_no_option quality) as [Hm Hfo].
  apply String.eqb_neq in Hm, Hfo.
  unfold args. fold audio. rewrite Hf. cbn [negb text_of].
  split.
  - subst extra. destruct audio; reflexivity.
  - subst extra. destruct audio; cbn [app indexOf];
      rewrite ?Hu1, ?Hu2, ?Ho, ?Hm, ?Hfo; cbn; rewrite ?Hu1, ?Hu2; cbn;
      reflexivity.
Qed.

Lemma args_spec_witness :
  args "https://youtu.be/x" "720" "downloads/t.%(ext)s" (Some "/bin/ffmpeg")
  = [ "https://youtu.be/x"; "--format";
      "bestvideo[height<=720]+bestaudio/best"; "--output";
      "downloads/t.%(ext)s"; "--merge-output-format"; "mp4"; "--newline";
      "--no-playlist"; "--ffmpeg-location"; "/bin/ffmpeg" ]
  /\ args "https://youtu.be/x" "720" "downloads/t.%(ext)s" None
     = [ "https://youtu.be/x"; "--format"; "best[height<=720]/best";
         "--output"; "downloads/t.%(ext)s"; "--newline"; "--no-playlist" ].
Proof.
  apply (args_spec "https://youtu.be/x" "720" "downloads/t.%(ext)s"
           "/bin/ffmpeg");
    discriminate.
Defined.

(** X7: whatever the URL, the quality and the output path are, and
    whether [ffmpeg] was found or not, the options [--newline] and
    [--no-playlist] are among the arguments. *)
Theorem args_always (url quality outputPath : string)
  (ffmpegPath : option string) :
  In "--newline" (args url quality outputPath ffmpegPath)
  /\ In "--no-playlist" (args url quality outputPath ffmpegPath).
Proof.
  destruct (format_of_no_option quality) as [Hm Hfo].
  apply String.eqb_neq in Hm, Hfo.
  unfold args.
  destruct (match ffmpegPath with Some p => negb (String.eqb p "") | None => false end).
  - destruct (String.eqb quality "audio"); simpl; tauto.
  - destruct (String.eqb quality "audio") eqn:Ea; cbn [app indexOf negb];
      rewrite ?Hm, ?Hfo;
      destruct (String.eqb url "--merge-output-format") eqn:E1;
      destruct (String.eqb outputPath "--merge-output-format") eqn:E2;
      cbn; rewrite ?Hfo;
      destruct (String.eqb url "--format") eqn:E3;
      destruct (String.eqb outputPath "--format") eqn:E4;
      cbn; tauto.
Qed.

Lemma select_quality_cases (qualityInput : string) :
  exists q,
    select_quality qualityInput
    = if negb (truthy (qualities_get q)) then ("best", true) else (q, false).
Proof. unfold select_quality. eexists. reflexivity. Qed.

(** X8: without [ffmpeg], an empty answer at the quality prompt, or
    one that was replaced by [best] with the warning, gives the format
    that bounds the height by the word [best]. *)
Theorem no_ffmpeg_default_format
  (qualityInput url outputPath : string) :
  url <> "--merge-output-format" -> url <> "--format" ->
  outputPath <> "--merge-output-format" ->
  qualityInput = "" \/ snd (select_quality qualityInput) = true ->
  args url (fst (select_quality qualityInput)) outputPath None
  = [ url; "--format"; "best[height<=best]/best"; "--output"; outputPath;
      "--newline"; "--no-playlist" ].
Proof.
  intros Hu1 Hu2 Ho Hq.
  assert (E : fst (select_quality qualityInput) = "best").
  { destruct Hq as [-> | Hw]; [reflexivity |].
    destruct (select_quality_cases qualityInput) as (q & Eq).
    rewrite Eq in *. destruct (truthy (qualities_get q)); simpl in *;
      [discriminate | reflexivity]. }
  rewrite E.
  apply String.eqb_neq in Hu1, Hu2, Ho.
  unfold args. cbn. rewrite ?Hu1, ?Hu2, ?Ho. cbn. rewrite ?Hu1, ?Hu2. cbn.
  reflexivity.
Qed.

Lemma no_ffmpeg_default_format_witness :
  args "https://youtu.be/x" (fst (select_quality "")) "downloads/t.%(ext)s"
    None
  = [ "https://youtu.be/x"; "--format"; "best[height<=best]/best";
      "--output"; "downloads/t.%(ext)s"; "--newline"; "--no-playlist" ].
Proof.
  apply (no_ffmpeg_default_format "" "https://youtu.be/x"
           "downloads/t.%(ext)s");
    try discriminate.
  left. reflexivity.
Defined.

(** ** The standard-output handler *)

Lemma split_from_cons (s : string) :
  forall cur, exists l r, split_from cur s = l :: r.
Proof.
  induction s as [| c s IH]; intros cur; simpl.
  - eauto.
  - destruct (Ascii.eqb c newline); [eauto | apply IH].
Qed.

Lemma split_from_concat (s : string) :
  forall cur, String.concat nl (split_from cur s) = cur ++ s.
Proof.
  induction s as [| c s IH]; intros cur.
  - simpl. rewrite append_nil_r. reflexivity.
  - simpl. destruct (Ascii.eqb_spec c newline) as [-> | _].
    + destruct (split_from_cons s "") as (l & r & E).
      pose proof (IH "") as H. rewrite E in *.
      change (String.concat nl (cur :: l :: r))
        with (cur ++ nl ++ String.concat nl (l :: r)).
      rewrite H. reflexivity.
    + rewrite IH, string_app_assoc. reflexivity.
Qed.

Lemma split_from_pieces (s : string) :
  forall cur,
    all_chars no_newline cur = true ->
    Forall (fun l => all_chars no_newline l = true) (split_from cur s).
Proof.
  induction s as [| c s IH]; intros cur H; simpl.
  - constructor; [exact H | constructor].
  - destruct (Ascii.eqb c newline) eqn:E.
    + constructor; [exact H | apply IH; reflexivity].
    + apply IH. rewrite all_chars_app, H. simpl. unfold no_newline.
      rewrite E. reflexivity.
Qed.

Lemma no_newline_includes (l : string) :
  all_chars no_newline l = true -> includes l nl = false.
Proof.
  induction l as [| c l IH]; [reflexivity |].
  cbn [all_chars includes]. intros H. apply andb_true_iff in H as [Hc Hl].
  unfold no_newline in Hc. apply negb_true_iff, Ascii.eqb_neq in Hc.
  assert (Hp : String.prefix nl (String c l) = false).
  { unfold nl. cbn [String.prefix].
    destruct (ascii_dec newline c) as [E | _]; [congruence | reflexivity]. }
  rewrite Hp. apply IH, Hl.
Qed.

(** X9: the lines that the handler reads from a chunk hold no line
    break and, joined by line breaks, give the chunk back. *)
Theorem split_lines_join (data : string) :
  String.concat nl (split_lines data) = data
  /\ Forall (fun line => includes line nl = false) (split_lines data).
Proof.
  split; [apply (split_from_concat data "") |].
  eapply Forall_impl; [| apply (split_from_pieces data ""); reflexivity].
  intros l. apply no_newline_includes.
Qed.

(** The handler raises on a line only when the line reports more than
    101 percent. *)
Lemma process_line_raises (st : state) (line : string) (evs : list event) :
  process_line st line = (evs, None) ->
  evs = []
  /\ exists p,
       line_percent line = Some p
       /\ should_emit p (lastProgress st) = true
       /\ createProgressBar p default_width = None
       /\ (p = PosInf \/ exists q, p = Fin q /\ (101 < q)%Q).
Proof.
  unfold process_line. intros H.
  destruct (blank line); [discriminate |].
  pose proof (progress_rule_cases st line) as P.
  unfold line_percent.
  destruct (regex_exec download_re line) as [cap |] eqn:E.
  - cbv zeta in P.
    destruct (line_percent_nonneg line (parseFloat cap)) as [Hp | (q & Hp & H0 & _)].
    { unfold line_percent. rewrite E. reflexivity. }
    + destruct (should_emit (parseFloat cap) (lastProgress st)) eqn:Es.
      * destruct (createProgressBar (parseFloat cap) default_width) eqn:Eb.
        -- rewrite P in H. destruct (later_rules _ line). discriminate.
        -- rewrite P in H. injection H as <-. split; [reflexivity |].
           exists (parseFloat cap). simpl. auto.
      * rewrite P in H. destruct (later_rules _ line). discriminate.
    + destruct (should_emit (parseFloat cap) (lastProgress st)) eqn:Es.
      * destruct (createProgressBar (parseFloat cap) default_width) eqn:Eb.
        -- rewrite P in H. destruct (later_rules _ line). discriminate.
        -- rewrite P in H. injection H as <-. split; [reflexivity |].
           exists (parseFloat cap). simpl. repeat split; auto.
           right. exists q. split; [exact Hp |].
           destruct (Qlt_le_dec 101 q) as [Hgt | Hle]; [exact Hgt |].
           exfalso. rewrite Hp in Eb.
           destruct (bar_counts_wide q) as (F & HF & _ & _ & EF);
             [lra | exact Hle |].
           unfold createProgressBar in Eb. rewrite EF in Eb.
           rewrite !repeat_count_nat in Eb by lia. discriminate.
      * rewrite P in H. destruct (later_rules _ line). discriminate.
  - rewrite P in H. destruct (later_rules st line). discriminate.
Qed.

Lemma process_lines_raises (lines : list string) :
  forall st evs,
    process_lines st lines = (evs, None) ->
    exists line p,
      In line lines /\ line_percent line = Some p
      /\ (p = PosInf \/ exists q, p = Fin q /\ (101 < q)%Q).
Proof.
  induction lines as [| line lines IH]; intros st evs H; [discriminate |].
  cbn [process_lines] in H.
  destruct (process_line st line) as [ev [st1 |]] eqn:E.
  - destruct (process_lines st1 lines) as [ev' [st2 |]] eqn:E2;
      [discriminate |].
    destruct (IH st1 ev' E2) as (l & p & Hin & Hp & Hq).
    exists l, p. split; [right; exact Hin | auto].
  - destruct (process_line_raises st line ev E) as (_ & p & Hp & _ & _ & Hq).
    exists line, p. split; [left; reflexivity | auto].
Qed.

(** X10: a run ends by an exception of the standard-output handler
    only when one of its lines reports more than 101 percent. *)
Theorem downloadVideo_uncaught (w : world) :
  snd (downloadVideo w) = Uncaught ->
  exists line p,
    In line (lines_of (stdout_chunks w))
    /\ line_percent line = Some p
    /\ (p = PosInf \/ exists q, p = Fin q /\ (101 < q)%Q).
Proof.
  unfold downloadVideo.
  destruct (import_ok w); [| discriminate].
  destruct (ytdlp_exists w); [| discriminate]. cbn [negb].
  destruct (spawn_error w); [discriminate |].
  rewrite classify_lines.
  destruct (process_lines initial (lines_of (stdout_chunks w)))
    as [evs [st |]] eqn:E.
  - unfold on_close.
    destruct (code_is (code w) 0 || code_is (code w) 1); discriminate.
  - intros _. apply (process_lines_raises _ initial evs E).
Qed.

Lemma downloadVideo_uncaught_witness :
  exists line p,
    In line (lines_of ["[download] 150% of 5MiB at 1MiB/s"])
    /\ line_percent line = Some p
    /\ (p = PosInf \/ exists q, p = Fin q /\ (101 < q)%Q).
Proof.
  apply (downloadVideo_uncaught
           (mkWorld true "yt-dlp" true None
              ["[download] 150% of 5MiB at 1MiB/s"] (Some 0) "1.00" [])).
  vm_compute. reflexivity.
Defined.

Lemma notices_app (a b : list event) :
  notices (a ++ b) = (notices a + notices b)%nat.
Proof. unfold notices. rewrite filter_app, length_app. reflexivity. Qed.

Lemma later_rules_notices (st : state) (line : string) :
  isMerging st = false -> merger_line line = false ->
  notices (fst (later_rules st line))
  = (if includes line "[download] 100%"
        || includes line "has already been downloaded"
     then 1%nat else 0%nat)
  /\ isMerging (snd (later_rules st line)) = false.
Proof.
  unfold merger_line. intros Hm Hl.
  unfold later_rules, destination_rule, completed_rule, merger_rule,
    cleanup_rule, metadata_rule.
  rewrite Hm, Hl. cbn [negb fst snd].
  repeat match goal with
         | |- context [if ?b then _ else _] => destruct b
         end; cbn; auto.
Qed.

Lemma process_line_notices (st st1 : state) (line : string)
  (ev : list event) :
  isMerging st = false -> merger_line line = false ->
  process_line st line = (ev, Some st1) ->
  notices ev = (if completion_line line then 1%nat else 0%nat)
  /\ isMerging st1 = false.
Proof.
  intros Hm Hl. unfold process_line, completion_line.
  destruct (blank line).
  - intros E. injection E as <- <-. auto.
  - cbn [negb andb]. pose proof (progress_rule_cases st line) as P.
    destruct (regex_exec download_re line) as [cap |].
    + cbv zeta in P.
      destruct (should_emit (parseFloat cap) (lastProgress st)).
      * destruct (createProgressBar (parseFloat cap) default_width) as [bar |];
          rewrite P; [| discriminate].
        match goal with
        | |- context [later_rules ?s line] =>
            destruct (later_rules_notices s line Hm Hl) as [H1 H2];
            destruct (later_rules s line) as [e st'] eqn:El
        end.
        intros E. injection E as <- <-. cbn [fst snd] in *.
        split; [exact H1 | exact H2].
      * rewrite P.
        match goal with
        | |- context [later_rules ?s line] =>
            destruct (later_rules_notices s line Hm Hl) as [H1 H2];
            destruct (later_rules s line) as [e st'] eqn:El
        end.
        intros E. injection E as <- <-. auto.
    + rewrite P.
      destruct (later_rules_notices st line Hm Hl) as [H1 H2].
      destruct (later_rules st line) as [e st'] eqn:El.
      intros E. injection E as <- <-. auto.
Qed.

(** X11: while no line of the merger has come, the notice
    [Download completed!] is printed once for every line that is not
    blank and holds [[download] 100%] or [has already been downloaded]:
    as many notices as such lines, with no guard against a second one. *)
Theorem completed_notices (lines : list string) :
  forall st evs st',
    isMerging st = false ->
    Forall (fun line => merger_line line = false) lines ->
    process_lines st lines = (evs, Some st') ->
    notices evs = List.length (filter completion_line lines)
    /\ isMerging st' = false.
Proof.
  induction lines as [| line lines IH]; intros st evs st' Hm HF E.
  - injection E as <- <-. auto.
  - inversion HF as [| ? ? Hl HF']; subst. cbn [process_lines] in E.
    destruct (process_line st line) as [ev [st1 |]] eqn:E1; [| discriminate].
    destruct (process_line_notices st st1 line ev Hm Hl E1) as [N1 M1].
    destruct (process_lines st1 lines) as [ev' [st2 |]] eqn:E2;
      [| discriminate].
    injection E as <- <-.
    destruct (IH st1 ev' st2 M1 HF' E2) as [N2 M2].
    rewrite notices_app, N1, N2. cbn [filter].
    destruct (completion_line line); auto.
Qed.

Lemma completed_notices_witness :
  notices [Downloading (Fin 100)
             "  [████████████████████████████████████████] 100.0%";
           DownloadCompleted;
           Downloading (Fin 100)
             "  [████████████████████████████████████████] 100.0%";
           DownloadCompleted]
  = List.length (filter completion_line ["[download] 100%"; "[download] 100%"])
  /\ isMerging (mkState (Fin 100) true false) = false.
Proof.
  apply (completed_notices ["[download] 100%"; "[download] 100%"] initial).
  - reflexivity.
  - repeat constructor.
  - vm_compute. reflexivity.
Defined.

(** ** The standard-error handler *)

(** X12: for a chunk of the standard error at most one message is
    printed, an error or a warning; an error only for a chunk that holds
    [ERROR] and not [ffmpeg], with the trimmed chunk as its text; the
    text of every message is trimmed; a blank chunk prints nothing. *)
Theorem on_stderr_report (error : string) :
  (List.length (on_stderr error) <= 1)%nat
  /\ (forall m, In m (on_stderr error) ->
        (msg_type m = "error" \/ msg_type m = "warning")
        /\ (msg_type m = "error" ->
            includes error "ERROR" = true
            /\ includes error "ffmpeg" = false
            /\ msg_text m = trim error)
        /\ trim (msg_text m) = msg_text m)
  /\ (blank error = true -> on_stderr error = []).
Proof.
  unfold on_stderr. split; [| split].
  - destruct (includes error "ERROR"); [destruct (includes error "ffmpeg") |
      destruct (includes error "WARNING" && includes error "unable to download")];
      simpl; lia.
  - intros m.
    destruct (includes error "ERROR");
      [destruct (includes error "ffmpeg") |
       destruct (includes error "WARNING" && includes error "unable to download")];
      simpl; intros Hm; try contradiction; destruct Hm as [<- | []]; simpl;
      (split; [auto | split; [try discriminate; auto |]]);
      try apply trim_idem; reflexivity.
  - intros Hb.
    assert (H : forall sub c t, sub = String c t -> is_space c = false ->
                includes error sub = false).
    { intros sub c t -> Hc. clear - Hb Hc.
      induction error as [| x e IH]; [reflexivity |].
      simpl in Hb. apply andb_true_iff in Hb as [Hx He].
      cbn [includes]. rewrite (IH He).
      cbn [String.prefix]. destruct (ascii_dec c x) as [-> | _];
        [congruence | reflexivity]. }
    rewrite (H "ERROR" "E"%char "RROR" eq_refl eq_refl).
    rewrite (H "WARNING" "W"%char "ARNING" eq_refl eq_refl). reflexivity.
Qed.

(** ** [main] *)

(** X13: whatever is typed at the quality prompt, the quality handed
    to [downloadVideo] is a property of the catalog object, its format
    is one of the catalog, and the warning is printed only when the
    quality becomes [best]. *)
Theorem select_quality_in_catalog (qualityInput : string) :
  truthy (qualities_get (fst (select_quality qualityInput))) = true
  /\ In (format_of (fst (select_quality qualityInput)))
        (map (fun e => format (snd e)) qualities)
  /\ (snd (select_quality qualityInput) = true ->
      fst (select_quality qualityInput) = "best").
Proof.
  destruct (select_quality_cases qualityInput) as (q & E).
  split; [| split; [apply format_of_catalog |]]; rewrite E;
    destruct (truthy (qualities_get q)) eqn:Et; simpl;
    try reflexivity; try discriminate; exact Et.
Qed.

Lemma parseInt_word (c : ascii) (rest : string) :
  In (lower c) ["c"; "_"; "h"; "i"; "p"; "t"; "v"]%char ->
  parseInt (String c rest) = NaN.
Proof.
  intros H. destruct c as [[|] [|] [|] [|] [|] [|] [|] [|]];
    try reflexivity; exfalso; simpl in H;
    repeat (destruct H as [H | H]; [discriminate H |]); exact H.
Qed.

(** X14: an answer that is, in lower case, the name of a property
    that the catalog object inherits is taken as the quality, with no
    warning; its format is that of [best] and its label the default
    one. *)
Theorem select_quality_inherited (qualityInput : string) :
  qualities_get (toLowerCase qualityInput) = Inherited ->
  select_quality qualityInput = (toLowerCase qualityInput, false)
  /\ format_of (toLowerCase qualityInput) = "bestvideo+bestaudio/best"
  /\ label_of (toLowerCase qualityInput) = "Best Available".
Proof.
  intros H.
  assert (Hin : In (toLowerCase qualityInput) inherited_names).
  { unfold qualities_get in H.
    destruct (assoc (toLowerCase qualityInput) qualities); [discriminate |].
    destruct (existsb _ inherited_names) eqn:E; [| discriminate].
    apply existsb_eqb_In, E. }
  assert (Hn : parseInt qualityInput = NaN).
  { destruct qualityInput as [| c rest].
    - simpl in Hin. repeat (destruct Hin as [Hin | Hin]; [discriminate |]).
      destruct Hin.
    - apply parseInt_word. cbn [toLowerCase] in Hin. simpl in Hin.
      repeat (destruct Hin as [Hin | Hin];
              [injection Hin as <- _; simpl; tauto |]).
      destruct Hin. }
  split; [| unfold format_of, label_of; rewrite H; auto].
  rewrite select_quality_by_key.
  - cbv zeta.
    destruct (String.eqb_spec (toLowerCase qualityInput) "") as [E | _].
    + rewrite E in H. discriminate.
    + rewrite H. reflexivity.
  - intros k Hk. rewrite Hn, (of_Z_position k Hk). discriminate.
Qed.

Lemma select_quality_inherited_witness :
  select_quality "Constructor" = (toLowerCase "Constructor", false)
  /\ format_of (toLowerCase "Constructor") = "bestvideo+bestaudio/best"
  /\ label_of (toLowerCase "Constructor") = "Best Available".
Proof.
  apply (select_quality_inherited "Constructor"). vm_compute. reflexivity.
Defined.

(** The title of the output file. *)

Lemma remove_illegal_legal (s : string) :
  all_chars (fun c => negb (illegal c)) (remove_illegal s) = true.
Proof.
  induction s as [| c s IH]; [reflexivity |].
  simpl. destruct (illegal c) eqn:E; [exact IH |].
  simpl. rewrite E, IH. reflexivity.
Qed.

Lemma collapse_plain (s : string) :
  forall b,
    all_chars (fun c => negb (illegal c)) s = true ->
    all_chars plain (collapse b s) = true.
Proof.
  induction s as [| c s IH]; intros b H; [reflexivity |].
  simpl in *. apply andb_true_iff in H as [Hc Hs].
  destruct (is_space c) eqn:E.
  - destruct b; [apply IH, Hs |]. simpl. apply IH, Hs.
  - simpl. unfold plain at 1. rewrite Hc, E. simpl. apply IH, Hs.
Qed.

Lemma collapse_well_spaced (s : string) :
  forall b, well_spaced b (collapse b s) = true.
Proof.
  induction s as [| c s IH]; intros b; [reflexivity |].
  simpl. destruct (is_space c) eqn:E.
  - destruct b; [apply IH |]. simpl. apply IH.
  - simpl. rewrite E. apply IH.
Qed.

Lemma well_spaced_skip_spaces (s : string) :
  forall b, well_spaced b s = true -> well_spaced true (skip_spaces s) = true.
Proof.
  induction s as [| c s IH]; intros b H; [reflexivity |].
  simpl in *. destruct (is_space c) eqn:E.
  - apply andb_true_iff in H as [_ H]. apply (IH true H).
  - simpl. rewrite E. exact H.
Qed.

Lemma well_spaced_trim_end (s : string) :
  forall b, well_spaced b s = true -> well_spaced b (trim_end s) = true.
Proof.
  induction s as [| c s IH]; intros b H; [reflexivity |].
  simpl in *. destruct (is_space c && blank s) eqn:Eb; [reflexivity |].
  simpl. destruct (is_space c).
  - apply andb_true_iff in H as [H1 H2]. rewrite H1. simpl. apply IH, H2.
  - apply IH, H.
Qed.

Lemma well_spaced_substring (n : nat) (s : string) :
  forall b, well_spaced b s = true -> well_spaced b (substring 0 n s) = true.
Proof.
  revert s. induction n as [| n IH]; intros [| c s] b H; try reflexivity.
  simpl in *. destruct (is_space c).
  - apply andb_true_iff in H as [H1 H2]. rewrite H1. simpl. apply IH, H2.
  - apply IH, H.
Qed.

Lemma plain_space (c : ascii) :
  plain c = true -> is_space c = true -> c = " "%char.
Proof.
  unfold plain. intros H Hs. rewrite Hs in H. simpl in H.
  apply andb_true_iff in H as [_ H]. apply Ascii.eqb_eq, H.
Qed.

Lemma well_spaced_no_double (s : string) :
  forall b, well_spaced b s = true -> includes s "  " = false.
Proof.
  induction s as [| c s IH]; intros b H; [reflexivity |].
  cbn [includes]. cbn [well_spaced] in H.
  assert (Hp : String.prefix "  " (String c s) = false).
  { cbn [String.prefix]. destruct (ascii_dec " " c) as [<- | Hc]; [| reflexivity].
    change (is_space " ") with true in H.
    apply andb_true_iff in H as [_ H].
    destruct s as [| c2 s]; [reflexivity |]. cbn [String.prefix].
    destruct (ascii_dec " " c2) as [<- | Hc2]; [| reflexivity].
    simpl in H. discriminate. }
  rewrite Hp. destruct (is_space c).
  - apply andb_true_iff in H as [_ H]. apply (IH true H).
  - apply (IH false H).
Qed.

(** X15: a sanitised title has at most 200 characters, none of the
    nine characters of line 556, no white space other than single
    spaces, and no white space at its start. *)
Theorem sanitizedTitle_tidy (title : string) :
  (String.length (sanitizedTitle title) <= 200)%nat
  /\ (forall c, In c (list_ascii_of_string (sanitizedTitle title)) ->
        illegal c = false /\ (is_space c = true -> c = " "%char))
  /\ includes (sanitizedTitle title) "  " = false
  /\ (forall c r, sanitizedTitle title = String c r -> is_space c = false).
Proof.
  unfold sanitizedTitle, trim.
  set (u := collapse false (remove_illegal title)).
  assert (Hp : all_chars plain u = true)
    by apply collapse_plain, remove_illegal_legal.
  assert (Hw : well_spaced false u = true) by apply collapse_well_spaced.
  set (t := substring 0 200 (trim_end (skip_spaces u))).
  assert (Hpt : all_chars plain t = true)
    by apply all_chars_substring, all_chars_trim_end, all_chars_skip_spaces, Hp.
  assert (Hwt : well_spaced true t = true).
  { apply well_spaced_substring, well_spaced_trim_end.
    apply (well_spaced_skip_spaces u false Hw). }
  split; [apply substring_length |]. split; [| split].
  - intros c Hc. rewrite all_chars_In in Hpt. specialize (Hpt c Hc).
    split; [| apply plain_space, Hpt].
    unfold plain in Hpt. apply andb_true_iff in Hpt as [H _].
    apply negb_true_iff, H.
  - apply (well_spaced_no_double t true Hwt).
  - intros c r E. rewrite E in Hwt. simpl in Hwt.
    destruct (is_space c); [discriminate | reflexivity].
Qed.

Lemma remove_illegal_id (s : string) :
  all_chars (fun c => negb (illegal c)) s = true -> remove_illegal s = s.
Proof.
  induction s as [| c s IH]; [reflexivity |].
  simpl. intros H. apply andb_true_iff in H as [Hc Hs].
  apply negb_true_iff in Hc. rewrite Hc, IH by exact Hs. reflexivity.
Qed.

Lemma collapse_id (s : string) :
  forall b,
    all_chars plain s = true -> well_spaced b s = true -> collapse b s = s.
Proof.
  induction s as [| c s IH]; intros b Hp Hw; [reflexivity |].
  simpl in *. apply andb_true_iff in Hp as [Hc Hs].
  destruct (is_space c) eqn:E.
  - apply andb_true_iff in Hw as [Hb Hw]. apply negb_true_iff in Hb. subst b.
    rewrite (plain_space c Hc E). rewrite IH by assumption. reflexivity.
  - rewrite IH by assumption. reflexivity.
Qed.

Lemma no_double_well_spaced (s : string) :
  all_chars plain s = true -> includes s "  " = false ->
  well_spaced false s = true.
Proof.
  induction s as [| c s IH]; intros Hp Hi; [reflexivity |].
  cbn [includes] in Hi. cbn [all_chars] in Hp.
  apply andb_true_iff in Hp as [Hc Hs].
  destruct (String.prefix "  " (String c s)) eqn:Ep; [discriminate |].
  specialize (IH Hs Hi). cbn [well_spaced].
  destruct (is_space c) eqn:E; [| exact IH].
  simpl. rewrite (plain_space c Hc E) in Ep.
  destruct s as [| c2 s]; [reflexivity |].
  cbn [all_chars] in Hs. apply andb_true_iff in Hs as [Hc2 Hs].
  cbn [well_spaced] in *. destruct (is_space c2) eqn:E2; [| exact IH].
  rewrite (plain_space c2 Hc2 E2) in Ep.
  assert (Et : String.prefix "  " (String " " (String " " s)) = true)
    by (simpl; destruct s; reflexivity).
  congruence.
Qed.

(** X16: a title of at most 200 characters that holds none of the
    nine characters, no white space other than single spaces, and no
    white space at either end, is kept as it is. *)
Theorem sanitizedTitle_fixed (title : string) :
  (forall c, In c (list_ascii_of_string title) ->
     illegal c = false /\ (is_space c = true -> c = " "%char)) ->
  includes title "  " = false ->
  trim title = title ->
  (String.length title <= 200)%nat ->
  sanitizedTitle title = title.
Proof.
  intros Hc Hi Ht Hl.
  assert (Hp : all_chars plain title = true).
  { apply all_chars_In. intros c H. destruct (Hc c H) as [H1 H2].
    unfold plain. rewrite H1. simpl.
    destruct (is_space c) eqn:E; [| reflexivity].
    rewrite (H2 eq_refl). reflexivity. }
  assert (Hl' : all_chars (fun c => negb (illegal c)) title = true).
  { apply all_chars_In. intros c H. destruct (Hc c H) as [H1 _].
    rewrite H1. reflexivity. }
  unfold sanitizedTitle.
  rewrite remove_illegal_id by exact Hl'.
  rewrite collapse_id by (try apply no_double_well_spaced; assumption).
  rewrite Ht. apply substring_all, Hl.
Qed.

Lemma sanitizedTitle_fixed_witness :
  sanitizedTitle "My video" = "My video".
Proof.
  apply (sanitizedTitle_fixed "My video").
  - intros c Hc. simpl in Hc.
    repeat (destruct Hc as [<- | Hc];
            [split; [reflexivity | intros H; vm_compute in H;
                                   first [reflexivity | discriminate H]] |]).
    destruct Hc.
  - vm_compute. reflexivity.
  - vm_compute. reflexivity.
  - simpl. lia.
Defined.

Lemma blank_collapse (s : string) :
  forall b, blank (collapse b s) = blank s.
Proof.
  induction s as [| c s IH]; intros b; [reflexivity |].
  simpl. destruct (is_space c) eqn:E.
  - destruct b; simpl; apply IH.
  - simpl. rewrite E. reflexivity.
Qed.

Lemma blank_remove_illegal (s : string) :
  blank (remove_illegal s) = all_chars (fun c => illegal c || is_space c) s.
Proof.
  induction s as [| c s IH]; [reflexivity |].
  simpl. destruct (illegal c) eqn:E; [exact IH |].
  simpl. rewrite IH. reflexivity.
Qed.

(** The no-break space is white space for the sanitisation and for
    [trim]. *)
Lemma no_break_space_examples :
  let nbsp := ascii_of_nat 160 in
  sanitizedTitle ("a" ++ String nbsp "b") = "a b"
  /\ sanitizedTitle (String nbsp "") = ""
  /\ trim (String nbsp "") = "".
Proof. vm_compute. repeat split; reflexivity. Qed.

(** X17: the sanitised title is empty exactly when every character
    of the title is one of the nine characters or white space. *)
Theorem sanitizedTitle_empty (title : string) :
  sanitizedTitle title = ""
  <-> forall c, In c (list_ascii_of_string title) ->
        illegal c = true \/ is_space c = true.
Proof.
  unfold sanitizedTitle. change 200%nat with (S 199).
  rewrite substring_empty, trim_empty, blank_collapse, blank_remove_illegal.
  rewrite all_chars_In. split; intros H c Hc.
  - apply orb_true_iff, H, Hc.
  - apply orb_true_iff, H, Hc.
Qed.

